(** * DeSpeed auto bot: the speed-measurement client and its proxy rotation

    A shallow embedding of [src/index.js].  That file holds two programs of
    the repository one after the other: the multi-account client (tokens
    read from [token.txt], one configured proxy) and the single-account
    client (one token, a rotating proxy list).  Both share
    [generateRandomLocation], [performSpeedTest] and [reportResults] word
    for word; they differ in the proxy functions, in [validateToken] and in
    the driver.

    Modelling choices, fixed once for the whole development:

    - A JavaScript number is a rational or one of [Infinity], [-Infinity],
      [NaN] (type [number]); the sign of zero is not modelled.
      [generateRandomLocation] and the rounding of the reported speeds
      compute in binary64: every operation there yields the binary64
      number nearest to the exact result, a tie going to the even
      significand ([nearest64], [binary64]).  The speed estimates of the
      two phases are the exact quotients; [Date.now()] and byte counters
      are integers, far below 2^53.
    - The outside world (clock, [Math.random], HTTP responses, the agent
      constructors of the proxy libraries, the frames a WebSocket delivers) is
      a record [env] of answers.  The program's own state and the effects it
      has on the outside are a record [world], threaded by the monad [M].
    - An [async] function is a computation in [M]: it returns, throws (and
      can be caught by [try]/[catch]), or halts: an exception thrown inside
      an event listener is not seen by the [try] around the [await], and an
      awaited promise whose socket never closes never settles. *)

From Stdlib Require Import ZArith QArith Qround Qabs Qpower Lqa PrimFloat SpecFloat FloatOps.
From Stdlib Require Import Ascii String DecimalString List Lia Bool.
From stdpp Require Import base list gmap strings.
Import ListNotations.

Local Open Scope Z_scope.

(** ** JavaScript numbers *)

Inductive number : Type :=
| Num (q : Q)
| PosInf
| NegInf
| NaN.

(** [a > b] *)
Definition js_gt (a b : number) : bool :=
  match a, b with
  | NaN, _ | _, NaN => false
  | PosInf, PosInf => false
  | PosInf, _ => true
  | _, PosInf => false
  | NegInf, _ => false
  | Num _, NegInf => true
  | Num x, Num y => negb (Qle_bool x y)
  end.

(** [a / b] *)
Definition js_div (a b : number) : number :=
  match a, b with
  | NaN, _ | _, NaN => NaN
  | Num x, Num y =>
      if Qeq_bool y 0%Q
      then (if Qeq_bool x 0%Q then NaN else if Qle_bool 0%Q x then PosInf else NegInf)
      else Num (x / y)%Q
  | Num _, _ => Num 0%Q
  | PosInf, Num y => if Qle_bool 0%Q y then PosInf else NegInf
  | NegInf, Num y => if Qle_bool 0%Q y then NegInf else PosInf
  | _, _ => NaN
  end.

(** [a * b] *)
Definition js_mul (a b : number) : number :=
  match a, b with
  | NaN, _ | _, NaN => NaN
  | Num x, Num y => Num (x * y)%Q
  | Num x, PosInf | PosInf, Num x =>
      if Qeq_bool x 0%Q then NaN else if Qle_bool 0%Q x then PosInf else NegInf
  | Num x, NegInf | NegInf, Num x =>
      if Qeq_bool x 0%Q then NaN else if Qle_bool 0%Q x then NegInf else PosInf
  | PosInf, PosInf | NegInf, NegInf => PosInf
  | PosInf, NegInf | NegInf, PosInf => NegInf
  end.

(** *** Rounding to binary64

    The integer nearest to [x], a tie going to the even one. *)
Definition nearest_even (x : Q) : Z :=
  let f := Qfloor x in
  match (x - inject_Z f ?= 1 # 2)%Q with
  | Lt => f
  | Gt => f + 1
  | Eq => if Z.even f then f else f + 1
  end.

(** For [0 < x], the integer [k] with [2^k <= x < 2^(k+1)]. *)
Definition ilog2 (x : Q) : Z :=
  let k := Z.log2 (Qnum x) - Z.log2 (Zpos (Qden x)) in
  if Qle_bool (2 ^ k) x then k else k - 1.

(** The exponent of the last place of the binary64 numbers around [x]: a
    significand has 53 bits, and below [2^-1022] the numbers are [2^-1074]
    apart. *)
Definition exponent64 (x : Q) : Z := Z.max (-1074) (ilog2 (Qabs x) - 52).

(** The binary64 number nearest to [x], ties to even, the exponent not
    bounded above. *)
Definition nearest64 (x : Q) : Q :=
  if Qeq_bool x 0 then 0%Q
  else Qred (inject_Z (nearest_even (x / 2 ^ exponent64 x)) * 2 ^ exponent64 x).

(** The result of an operation whose exact value is [x]: the nearest
    binary64 number, or an infinity when that is [2^1024] or beyond. *)
Definition binary64 (x : Q) : number :=
  let y := nearest64 x in
  if Qle_bool (2 ^ 1024) y then PosInf
  else if Qle_bool y (- 2 ^ 1024) then NegInf
  else Num y.

(** [a + b], [a - b], [a * b] and [a / b] where the result is finite. *)
Definition add64 (a b : Q) : Q := nearest64 (a + b).
Definition sub64 (a b : Q) : Q := nearest64 (a - b).
Definition mul64 (a b : Q) : Q := nearest64 (a * b).
Definition div64 (a b : Q) : Q := nearest64 (a / b).

(** [Math.round(x)]: the integer nearest to [x], halves going up.  It is
    exact: the integer nearest to a binary64 number is a binary64 number. *)
Definition Math_round (x : Q) : Z := Qfloor (x + (1 # 2))%Q.

(** [Math.round(x * 100) / 100] as [reportResults] applies it to a speed:
    the product and the quotient are rounded to binary64, and a product
    that overflows stays infinite. *)
Definition round2 (x : number) : number :=
  match x with
  | Num q =>
      match binary64 (q * 100) with
      | Num scaled => binary64 (inject_Z (Math_round scaled) / 100)
      | other => other
      end
  | other => other
  end.

(** A property of an object read from parsed JSON: a missing one is
    [undefined], which arithmetic turns into [NaN]. *)
Definition to_number (field : option Z) : number :=
  match field with
  | Some z => Num (inject_Z z)
  | None => NaN
  end.

(** The running maximum the upload handler keeps:
    [if (tmpSpeed > uploadSpeed) uploadSpeed = tmpSpeed]. *)
Definition keep_larger (uploadSpeed tmpSpeed : number) : number :=
  if js_gt tmpSpeed uploadSpeed then tmpSpeed else uploadSpeed.

(** ** The measurement connection *)

(** The [TCPInfo] object of a server measurement. *)
Record tcp_info : Type := {
  BytesReceived : option Z;
  ElapsedTime : option Z
}.

(** What [JSON.parse(data)] makes of a text frame. *)
Inductive json_text : Type :=
| Malformed (message : string)          (* JSON.parse throws *)
| JsonNull                              (* the text "null" *)
| Measurement (TCPInfo : option tcp_info).

(** What the socket does, in the order the listeners see it.  Times are
    the values [Date.now()] returns inside the listener. *)
Inductive ws_event : Type :=
| WsOpen (now : Z)
| WsText (data : json_text)             (* typeof data === 'string' *)
| WsBinary (now : Z) (length : Z)
| SendTurn (now : Z) (sent : nat)       (* a scheduled sendData runs, its
                                           while loop queueing [sent] buffers *)
| WsClose
| WsError (message : string).

Record socket_run : Type := {
  created : Z;                          (* Date.now() at new WebSocket(...) *)
  events : list ws_event
}.

Inductive halt : Type :=
| Uncaught (message : string)           (* thrown inside an event listener *)
| Pending.                              (* the awaited promise never settles *)

Inductive outcome (A : Type) : Type :=
| Ret (a : A)
| Throw (message : string)
| Halt (h : halt).
Arguments Ret {A} a.
Arguments Throw {A} message.
Arguments Halt {A} h.

(** [(now - startTime) / 1000] *)
Definition seconds_since (startTime now : Z) : Q := (inject_Z (now - startTime) / 1000)%Q.

(** [(totalBytes * 8) / (duration * 1000000)]; it is only evaluated under
    [duration >= 10], so the divisor is positive and the quotient finite. *)
Definition mbps (totalBytes : Z) (duration : Q) : Q :=
  (inject_Z (totalBytes * 8) / (duration * 1000000))%Q.

(** [duration >= 10] *)
Definition window_over (duration : Q) : bool := Qle_bool 10%Q duration.

Module Download.

Record state : Type := {
  startTime : Z;
  totalBytes : Z;
  downloadSpeed : number;
  closeCalled : bool;                 (* ws.close() has been called *)
  errors : list string                (* logger.error lines *)
}.

Definition init (created : Z) : state :=
  {| startTime := created; totalBytes := 0; downloadSpeed := Num 0%Q;
     closeCalled := false; errors := [] |}.

(** The [open] and [message] listeners.  [inr] is an exception leaving
    the listener: this [message] listener calls [JSON.parse] outside any
    [try].  The parsed text goes to [lastMeasurement], which nothing
    reads. *)
Definition on_event (s : state) (e : ws_event) : state + string :=
  match e with
  | WsOpen now =>
      inl {| startTime := now; totalBytes := 0;
             downloadSpeed := downloadSpeed s;
             closeCalled := closeCalled s; errors := errors s |}
  | WsText (Malformed message) => inr message
  | WsText _ => inl s
  | WsBinary now len =>
      let total := totalBytes s + len in
      let duration := seconds_since (startTime s) now in
      if window_over duration
      then inl {| startTime := startTime s; totalBytes := total;
                  downloadSpeed := Num (mbps total duration);
                  closeCalled := true; errors := errors s |}
      else inl {| startTime := startTime s; totalBytes := total;
                  downloadSpeed := downloadSpeed s;
                  closeCalled := closeCalled s; errors := errors s |}
  | _ => inl s
  end.

(** The listeners run until [close] or [error] resolves the promise. *)
Fixpoint run (s : state) (evs : list ws_event) : outcome state :=
  match evs with
  | [] => Halt Pending
  | WsClose :: _ => Ret s
  | WsError message :: _ =>
      Ret {| startTime := startTime s; totalBytes := totalBytes s;
             downloadSpeed := downloadSpeed s;
             closeCalled := closeCalled s;
             errors := errors s ++ ["Download test error: " ++ message]%string |}
  | e :: rest =>
      match on_event s e with
      | inl s' => run s' rest
      | inr message => Halt (Uncaught message)
      end
  end.

Definition phase (r : socket_run) : outcome state := run (init (created r)) (events r).

End Download.

Module Upload.

Inductive ready_state : Type := CONNECTING | OPEN | CLOSING | CLOSED.

Record state : Type := {
  startTime : Z;
  totalBytes : Z;
  uploadSpeed : number;
  readyState : ready_state;
  scheduled : bool;                   (* a call of sendData is due *)
  errors : list string
}.

Definition init (created : Z) : state :=
  {| startTime := created; totalBytes := 0; uploadSpeed := Num 0%Q;
     readyState := CONNECTING; scheduled := false; errors := [] |}.

(** [uploadData.length] *)
Definition chunk : Z := 32768.

(** [(tcpInfo.BytesReceived / tcpInfo.ElapsedTime) * 8] *)
Definition server_estimate (tcpInfo : tcp_info) : number :=
  js_mul (js_div (to_number (BytesReceived tcpInfo)) (to_number (ElapsedTime tcpInfo)))
         (Num 8%Q).

(** One call of [sendData]. *)
Definition sendData (s : state) (now : Z) (sent : nat) : state :=
  match readyState s with
  | OPEN =>
      let duration := seconds_since (startTime s) now in
      if window_over duration
      then {| startTime := startTime s; totalBytes := totalBytes s;
              uploadSpeed := Num (mbps (totalBytes s) duration);
              readyState := CLOSING; scheduled := false; errors := errors s |}
      else {| startTime := startTime s;
              totalBytes := totalBytes s + Z.of_nat sent * chunk;
              uploadSpeed := uploadSpeed s;
              readyState := OPEN; scheduled := true; errors := errors s |}
  | _ =>
      {| startTime := startTime s; totalBytes := totalBytes s;
         uploadSpeed := uploadSpeed s; readyState := readyState s;
         scheduled := false; errors := errors s |}
  end.

(** The [message] listener on a text frame. *)
Definition on_text (s : state) (data : json_text) : state :=
  let failed message :=
    {| startTime := startTime s; totalBytes := totalBytes s;
       uploadSpeed := uploadSpeed s; readyState := readyState s;
       scheduled := scheduled s;
       errors := errors s ++ ["Error parsing server message: " ++ message]%string |} in
  match data with
  | Malformed message => failed message
  | JsonNull => failed "Cannot read properties of null (reading 'TCPInfo')"%string
  | Measurement None => s
  | Measurement (Some tcpInfo) =>
      {| startTime := startTime s; totalBytes := totalBytes s;
         uploadSpeed := keep_larger (uploadSpeed s) (server_estimate tcpInfo);
         readyState := readyState s; scheduled := scheduled s;
         errors := errors s |}
  end.

(** The [open] and [message] listeners and the turns of [sendData].  The
    first call of [sendData] is made by the [open] listener itself: it is
    the [SendTurn] that follows [WsOpen]. *)
Definition on_event (s : state) (e : ws_event) : state :=
  match e with
  | WsOpen now =>
      {| startTime := now; totalBytes := 0; uploadSpeed := uploadSpeed s;
         readyState := OPEN; scheduled := true; errors := errors s |}
  | SendTurn now sent => if scheduled s then sendData s now sent else s
  | WsText data => on_text s data
  | _ => s
  end.

Fixpoint run (s : state) (evs : list ws_event) : outcome state :=
  match evs with
  | [] => Halt Pending
  | WsClose :: _ => Ret s
  | WsError message :: _ =>
      Ret {| startTime := startTime s; totalBytes := totalBytes s;
             uploadSpeed := uploadSpeed s; readyState := readyState s;
             scheduled := scheduled s;
             errors := errors s ++ ["Upload test error: " ++ message]%string |}
  | e :: rest => run (on_event s e) rest
  end.

Definition phase (r : socket_run) : outcome state := run (init (created r)) (events r).

End Upload.

(** ** The outside world and the effects of the program *)

Inductive proxy_type : Type := http | socks4 | socks5.

(** An entry of [proxyList]: [{ type, url }]. *)
Record proxy : Type := {
  type : proxy_type;
  url : string
}.

(** The transport handles the two proxy libraries build. *)
Inductive agent : Type :=
| HttpsProxyAgent (proxy : string)
| SocksProxyAgent (proxy : string) (version : Z).

Record GeoPoint : Type := {
  latitude : Q;
  longitude : Q
}.

Record SpeedSample : Type := {
  downloadSpeed : number;
  uploadSpeed : number
}.

(** The body of the POST to [/v1/api/points], without its timestamp. *)
Record report_payload : Type := {
  download_speed : number;
  upload_speed : number;
  report_latitude : Q;
  report_longitude : Q
}.

(** What the program does to the outside, in order.  [via] is the [agent]
    option of the request: [None] is [undefined], direct egress. *)
Inductive action : Type :=
| Probe (via : agent)                   (* GET config.proxy.testUrl *)
| Sleep (ms : Z)                        (* await setTimeout *)
| GetProfile (via : option agent)       (* GET /v1/api/auth/profile *)
| Locate (via : option agent)           (* GET locate.measurementlab.net *)
| OpenSocket (endpoint : string) (via : option agent)
| PostPoints (body : report_payload) (via : option agent).

(** The answer to a [fetch]: it rejects, or it resolves to a response whose
    [json()] yields [body] ([None]: [json()] rejects). *)
Inductive fetched (A : Type) : Type :=
| NetworkError (message : string)
| Response (ok : bool) (status : Z) (body : option A).
Arguments NetworkError {A} message.
Arguments Response {A} ok status body.

(** The decoded payload of a token; [exp] in seconds. *)
Record claims : Type := { exp : option Z }.

(** An element of the locate service's [results]. *)
Record server : Type := {
  machine : string;
  urls : option (gmap string string)
}.

Record locate_body : Type := { results : option (list (option server)) }.

Record points_body : Type := {
  success : bool;
  message : option string
}.

(** The [data] member of the profile response, when there is one. *)
Record profile_body : Type := { data : option (option string * option string) }.

Record env : Type := {
  Date_now : Z;                                   (* read by validateToken *)
  Math_random : nat -> Q;                         (* the successive draws *)
  JSON_parse_atob : string -> string + claims;    (* of token.split('.')[1] *)
  new_agent : agent -> option string;             (* Some m: the constructor throws m *)
  testUrl_response : nat -> fetched string;       (* to the n-th liveness request *)
  profile_response : nat -> fetched profile_body; (* to the n-th profile request *)
  locate_response : fetched locate_body;
  download_socket : socket_run;
  upload_socket : socket_run;
  points_response : fetched points_body
}.

Record world : Type := {
  currentIndex : nat;                   (* config.proxy.currentIndex *)
  chosen : option proxy;                (* config.proxy.type and .url *)
  trace : list action;
  errors : list string                  (* logger.error lines *)
}.

Definition M (A : Type) : Type := world -> outcome A * world.

Definition ret {A} (a : A) : M A := fun w => (Ret a, w).

Definition throw {A} (message : string) : M A := fun w => (Throw message, w).

Definition halted {A} (h : halt) : M A := fun w => (Halt h, w).

Definition bind {A B} (c : M A) (k : A -> M B) : M B := fun w =>
  match c w with
  | (Ret a, w') => k a w'
  | (Throw message, w') => (Throw message, w')
  | (Halt h, w') => (Halt h, w')
  end.

Notation "'let!' x ':=' c1 'in' c2" := (bind c1 (fun x => c2))
  (at level 10, x name, c1 at level 100, c2 at level 200).
Notation "'do!' c1 'in' c2" := (bind c1 (fun _ => c2))
  (at level 10, c1 at level 100, c2 at level 200).

(** [try { body } catch (error) { handler(error.message) }] *)
Definition try_catch {A} (body : M A) (handler : string -> M A) : M A := fun w =>
  match body w with
  | (Throw message, w') => handler message w'
  | other => other
  end.

Definition get : M world := fun w => (Ret w, w).

Definition emit (a : action) : M unit := fun w =>
  (Ret tt, {| currentIndex := currentIndex w; chosen := chosen w;
              trace := trace w ++ [a]; errors := errors w |}).

Definition log_error (line : string) : M unit := fun w =>
  (Ret tt, {| currentIndex := currentIndex w; chosen := chosen w;
              trace := trace w; errors := errors w ++ [line] |}).

Definition log_errors (lines : list string) : M unit := fun w =>
  (Ret tt, {| currentIndex := currentIndex w; chosen := chosen w;
              trace := trace w; errors := errors w ++ lines |}).

Definition set_currentIndex (i : nat) : M unit := fun w =>
  (Ret tt, {| currentIndex := i; chosen := chosen w;
              trace := trace w; errors := errors w |}).

Definition set_chosen (p : proxy) : M unit := fun w =>
  (Ret tt, {| currentIndex := currentIndex w; chosen := Some p;
              trace := trace w; errors := errors w |}).

Definition is_probe (a : action) : bool :=
  match a with Probe _ => true | _ => false end.

Definition is_profile (a : action) : bool :=
  match a with GetProfile _ => true | _ => false end.

Definition is_socket (a : action) : bool :=
  match a with OpenSocket _ _ => true | _ => false end.

Definition is_report (a : action) : bool :=
  match a with PostPoints _ _ => true | _ => false end.

(** How many actions of a kind the program has performed so far. *)
Definition count (kind : action -> bool) (t : list action) : nat :=
  List.length (List.filter kind t).

(** [await fetch(...)]: the request leaves, then the answer comes. *)
Definition fetch {A} (request : action) (answer : fetched A) : M (bool * Z * option A) :=
  do! emit request in
  match answer with
  | NetworkError message => throw message
  | Response ok status body => ret (ok, status, body)
  end.

(** [await response.json()] *)
Definition json {A} (body : option A) : M A :=
  match body with
  | Some b => ret b
  | None => throw "invalid json response body"
  end.

(** ** generateRandomLocation *)

(** The bounds: a decimal literal denotes the binary64 number nearest to
    it. *)
Definition minLat : Q := nearest64 18.
Definition maxLat : Q := nearest64 53.55.
Definition minLng : Q := nearest64 73.66.
Definition maxLng : Q := nearest64 135.05.

(** [Math.round(x * 1000000) / 1000000] *)
Definition round6 (x : Q) : Q :=
  div64 (inject_Z (Math_round (mul64 x 1000000))) 1000000.

(** [generateRandomLocation], given the two values [Math.random()]
    returns.  For draws in [[0, 1)] every value computed here is below
    [2^28], so no operation overflows. *)
Definition generateRandomLocation (random1 random2 : Q) : GeoPoint :=
  let latitude := add64 minLat (mul64 random1 (sub64 maxLat minLat)) in
  let longitude := add64 minLng (mul64 random2 (sub64 maxLng minLng)) in
  {| latitude := round6 latitude; longitude := round6 longitude |}.

(** ** What the two clients share *)

(** A number inside a template literal. *)
Definition decimal (z : Z) : string := DecimalString.NilZero.string_of_int (Z.to_int z).

(** [urls[key]] *)
Definition property (key : string) (object : gmap string string) : option string :=
  object !! key.

Definition zero_sample : SpeedSample :=
  {| downloadSpeed := Num 0%Q; uploadSpeed := Num 0%Q |}.

Section Shared.

Variable E : env.
(** [config.proxy.enabled] and the client's own [getProxyAgent()]. *)
Variable proxy_enabled : bool.
Variable getProxyAgent : M (option agent).

(** [(tokenData.exp - 90) * 1000 < Date.now()]; a missing [exp] makes the
    left side [NaN] and the comparison false. *)
Definition expired (tokenData : claims) : bool :=
  match exp tokenData with
  | Some seconds => (seconds - 90) * 1000 <? Date_now E
  | None => false
  end.

(** The [try] block of [validateToken]. *)
Definition checkToken (token : string) : M unit :=
  let! tokenData :=
    match JSON_parse_atob E token with
    | inl message => throw message
    | inr tokenData => ret tokenData
    end in
  do! (if expired tokenData then throw "Token expired" else ret tt) in
  let! proxyAgent := getProxyAgent in
  let! w := get in
  let! profileResponse :=
    fetch (GetProfile proxyAgent) (profile_response E (count is_profile (trace w))) in
  let '(ok, _, _) := profileResponse in
  if negb ok then throw "Token invalid" else ret tt.

Definition displayAccountInfo (token : string) : M unit :=
  try_catch
    (let! proxyAgent := getProxyAgent in
     let! w := get in
     let! profileResponse :=
       fetch (GetProfile proxyAgent) (profile_response E (count is_profile (trace w))) in
     let '(ok, _, body) := profileResponse in
     if ok
     then (let! profile := json body in
           match data profile with
           | Some _ => ret tt
           | None => throw "Cannot read properties of undefined (reading 'username')"
           end)
     else ret tt)
    (fun message => log_error ("Failed to get account information: " ++ message)).

(** [new WebSocket(endpoint, 'net.measurementlab.ndt.v7', wsOptions)]
    inside the promise executor: an [undefined] endpoint makes the
    constructor throw, which rejects the awaited promise. *)
Definition open_socket (endpoint : option string) (proxyAgent : option agent) : M unit :=
  match endpoint with
  | None => throw "Invalid URL: undefined"
  | Some address => emit (OpenSocket address (if proxy_enabled then proxyAgent else None))
  end.

(** [await new Promise(resolve => ...)] around the download socket. *)
Definition download (endpoint : option string) (proxyAgent : option agent) : M number :=
  do! open_socket endpoint proxyAgent in
  match Download.phase (download_socket E) with
  | Ret s => do! log_errors (Download.errors s) in ret (Download.downloadSpeed s)
  | Throw message => throw message
  | Halt h => halted h
  end.

Definition upload (endpoint : option string) (proxyAgent : option agent) : M number :=
  do! open_socket endpoint proxyAgent in
  match Upload.phase (upload_socket E) with
  | Ret s => do! log_errors (Upload.errors s) in ret (Upload.uploadSpeed s)
  | Throw message => throw message
  | Halt h => halted h
  end.

(** The [try] block of [performSpeedTest]. *)
Definition speedTest : M SpeedSample :=
  let! proxyAgent := getProxyAgent in
  let! locateResponse := fetch (Locate proxyAgent) (locate_response E) in
  let '(ok, status, body) := locateResponse in
  if negb ok
  then throw ("Failed to get speed test server: " ++ decimal status)
  else
    let! serverData := json body in
    match results serverData with
    | Some (Some server :: _) =>
        let! urls :=
          match urls server with
          | Some object => ret object
          | None => throw "Cannot read properties of undefined (reading 'wss:///ndt/v7/download')"
          end in
        let downloadUrl := property "wss:///ndt/v7/download" urls in
        let uploadUrl := property "wss:///ndt/v7/upload" urls in
        let! downloadSpeed := download downloadUrl proxyAgent in
        let! uploadSpeed := upload uploadUrl proxyAgent in
        ret {| downloadSpeed := downloadSpeed; uploadSpeed := uploadSpeed |}
    | _ => throw "No available speed test server"
    end.

Definition performSpeedTest : M SpeedSample :=
  try_catch speedTest
    (fun message => do! log_error ("Speed test error: " ++ message) in ret zero_sample).

Definition payload (sample : SpeedSample) (location : GeoPoint) : report_payload :=
  {| download_speed := round2 (downloadSpeed sample);
     upload_speed := round2 (uploadSpeed sample);
     report_latitude := latitude location;
     report_longitude := longitude location |}.

(** [data.message || 'Report failed'] *)
Definition failure_reason (data : points_body) : string :=
  match message data with
  | Some EmptyString | None => "Report failed"
  | Some reason => reason
  end.

(** [reportResults]: the response data, or [None] for [null]. *)
Definition reportResults (token : string) (sample : SpeedSample) (location : GeoPoint)
  : M (option points_body) :=
  try_catch
    (let! proxyAgent := getProxyAgent in
     let! response := fetch (PostPoints (payload sample location) proxyAgent) (points_response E) in
     let '(ok, status, body) := response in
     if negb ok
     then throw ("Report failed: " ++ decimal status)
     else
       let! data := json body in
       if success data then ret (Some data) else throw (failure_reason data))
    (fun message => do! log_error ("Error submitting results: " ++ message) in ret None).

End Shared.

(** The agent [createProxyAgent] asks the libraries for. *)
Definition agent_for (kind : proxy_type) (address : string) : agent :=
  match kind with
  | http => HttpsProxyAgent address
  | socks4 => SocksProxyAgent address 4
  | socks5 => SocksProxyAgent address 5
  end.

(** [new HttpsProxyAgent({...})] or [new SocksProxyAgent({...})] *)
Definition construct (E : env) (a : agent) : M agent :=
  match new_agent E a with
  | Some message => throw message
  | None => ret a
  end.

(** ** The single-account client: a rotating proxy list *)

Module Single.

Record config : Type := {
  token : string;
  enabled : bool;
  maxRetries : nat;
  proxyList : list proxy
}.

Section Client.

Variable cfg : config.
Variable E : env.

Definition getNextProxy : M (option proxy) :=
  if (length (proxyList cfg) =? 0)%nat then ret None
  else
    let! w := get in
    let proxy := proxyList cfg !! currentIndex w in
    do! set_currentIndex ((currentIndex w + 1) mod length (proxyList cfg))%nat in
    ret proxy.

Definition createProxyAgent : M (option agent) :=
  let! proxy := getNextProxy in
  match proxy with
  | None => ret None
  | Some p =>
      do! set_chosen p in
      try_catch
        (let! a := construct E (agent_for (type p) (url p)) in ret (Some a))
        (fun message =>
           do! log_error ("Failed to create proxy agent: " ++ message) in ret None)
  end.

Definition isProxyAlive (proxyAgent : agent) : M bool :=
  try_catch
    (let! w := get in
     let! response :=
       fetch (Probe proxyAgent) (testUrl_response E (count is_probe (trace w))) in
     let '(ok, _, body) := response in
     if ok then (let! _ := json body in ret true) else ret false)
    (fun _ => ret false).

(** One turn of the [while] loop of [getProxyAgent]: [Some r] when the
    function returns [r], [None] when the turn reaches [attempts++]. *)
Definition attempt (initialIndex attempts : nat) : M (option (option agent)) :=
  try_catch
    (let! agent := createProxyAgent in
     match agent with
     | None => ret (Some None)
     | Some a =>
         let! alive := isProxyAlive a in
         if alive then ret (Some (Some a))
         else
           let! w := get in
           do! (if (currentIndex w =? initialIndex)%nat
                then emit (Sleep (1000 * (Z.of_nat (attempts / length (proxyList cfg)) + 1)))
                else ret tt) in
           ret None
     end)
    (fun message => do! log_error ("Proxy error: " ++ message) in ret None).

(** The loop, with [remaining = retries * proxyList.length - attempts]
    turns left. *)
Fixpoint attempts_loop (remaining initialIndex attempts : nat) : M (option agent) :=
  match remaining with
  | O => throw "All proxies failed after maximum retry attempts"
  | S remaining' =>
      let! returned := attempt initialIndex attempts in
      match returned with
      | Some r => ret r
      | None => attempts_loop remaining' initialIndex (S attempts)
      end
  end.

Definition getProxyAgent (retries : nat) : M (option agent) :=
  if negb (enabled cfg) || (length (proxyList cfg) =? 0)%nat then ret None
  else
    let! w := get in
    attempts_loop (retries * length (proxyList cfg)) (currentIndex w) 0.

Definition validateToken : M unit :=
  if String.eqb (token cfg) EmptyString then throw "Token not found"
  else
    try_catch
      (checkToken E (getProxyAgent (maxRetries cfg)) (token cfg))
      (fun message =>
         do! log_error ("Token validation failed: " ++ message) in throw message).

(** The [try] and [catch] of [main]: one cycle of the single account.
    Its [finally] block only arms the timer of the next cycle. *)
Definition main : M unit :=
  let acquire := getProxyAgent (maxRetries cfg) in
  try_catch
    (do! validateToken in
     do! displayAccountInfo E acquire (token cfg) in
     let location := generateRandomLocation (Math_random E 0) (Math_random E 1) in
     let! sample := performSpeedTest E (enabled cfg) acquire in
     let! result := reportResults E acquire (token cfg) sample location in
     match result with
     | Some data =>
         if success data then displayAccountInfo E acquire (token cfg)
         else
           do! log_error "Failed to report results" in
           match message data with
           | Some EmptyString | None => ret tt
           | Some reason => log_error ("Failure reason: " ++ reason)
           end
     | None => log_error "Failed to report results"
     end)
    (fun message => log_error ("Error during speed test: " ++ message)).

(** [n] calls of [getNextProxy] in a row, with what each returned. *)
Fixpoint next_calls (n : nat) : M (list (option proxy)) :=
  match n with
  | O => ret []
  | S n' =>
      let! first := getNextProxy in
      let! others := next_calls n' in
      ret (first :: others)
  end.

End Client.

End Single.

(** ** The multi-account client: one configured proxy *)

Module Multi.

Record config : Type := {
  enabled : bool;
  type : proxy_type;
  url : string;
  maxRetries : nat
}.

Section Client.

Variable cfg : config.
Variable E : env.

Definition createProxyAgent : M (option agent) :=
  if String.eqb (url cfg) EmptyString then ret None
  else
    try_catch
      (let! a := construct E (agent_for (type cfg) (url cfg)) in ret (Some a))
      (fun message =>
         do! log_error ("Failed to create proxy agent: " ++ message) in ret None).

Definition isProxyAlive (proxyAgent : agent) : M bool :=
  try_catch
    (let! w := get in
     let! response :=
       fetch (Probe proxyAgent) (testUrl_response E (count is_probe (trace w))) in
     let '(ok, _, _) := response in
     ret ok)
    (fun _ => ret false).

(** One turn of the [for] loop of [getProxyAgent], at index [i]. *)
Definition attempt (retries i : nat) : M (option (option agent)) :=
  try_catch
    (let! agent := createProxyAgent in
     match agent with
     | None => ret (Some None)
     | Some a =>
         let! alive := isProxyAlive a in
         if alive then ret (Some (Some a))
         else do! emit (Sleep (1000 * (Z.of_nat i + 1))) in ret None
     end)
    (fun message =>
       do! log_error ("Proxy error (" ++ decimal (Z.of_nat i + 1) ++ "/"
                        ++ decimal (Z.of_nat retries) ++ "): " ++ message) in
       if (Z.of_nat i =? Z.of_nat retries - 1)
       then throw "Maximum proxy retry attempts reached"
       else ret None).

Fixpoint attempts_loop (remaining retries i : nat) : M (option agent) :=
  match remaining with
  | O => ret None
  | S remaining' =>
      let! returned := attempt retries i in
      match returned with
      | Some r => ret r
      | None => attempts_loop remaining' retries (S i)
      end
  end.

Definition getProxyAgent (retries : nat) : M (option agent) :=
  if negb (enabled cfg) then ret None
  else attempts_loop retries retries 0.

Definition validateToken (token : string) : M bool :=
  if String.eqb token EmptyString then throw "Token not found"
  else
    try_catch
      (do! checkToken E (getProxyAgent (maxRetries cfg)) token in ret true)
      (fun message =>
         do! log_error ("Token validation failed: " ++ message) in ret false).

Definition processAccount (token : string) (accountIndex : nat) : M bool :=
  let number := decimal (Z.of_nat accountIndex + 1) in
  let acquire := getProxyAgent (maxRetries cfg) in
  try_catch
    (let! isValid := validateToken token in
     if negb isValid
     then do! log_error ("Token " ++ number ++ " is invalid or expired") in ret false
     else
       do! displayAccountInfo E acquire token in
       let location := generateRandomLocation (Math_random E 0) (Math_random E 1) in
       let! sample := performSpeedTest E (enabled cfg) acquire in
       let! result := reportResults E acquire token sample location in
       match result with
       | Some data =>
           if success data then ret true
           else
             do! log_error "Failed to report results" in
             match message data with
             | Some EmptyString | None => ret false
             | Some reason => do! log_error ("Failure reason: " ++ reason) in ret false
             end
       | None => do! log_error "Failed to report results" in ret false
       end)
    (fun message =>
       do! log_error ("Error processing account " ++ number ++ ": " ++ message) in
       ret false).

End Client.

End Multi.

(** ** Reading the token and proxy files

    The content of a file is a JavaScript string; here its code units are
    the characters of a [string], so they are below 256.  [None] stands
    for a file that cannot be read.  The console lines of the loaders are
    left out. *)

(** The code units [String.prototype.trim] strips: white space and line
    terminators (tab, line feed, vertical tab, form feed, carriage return,
    space, no-break space). *)
Definition is_space (c : ascii) : bool :=
  existsb (N.eqb (N_of_ascii c)) [9; 10; 11; 12; 13; 32; 160]%N.

Fixpoint trimStart (s : string) : string :=
  match s with
  | EmptyString => EmptyString
  | String c rest => if is_space c then trimStart rest else s
  end.

Fixpoint trimEnd (s : string) : string :=
  match s with
  | EmptyString => EmptyString
  | String c rest =>
      match trimEnd rest with
      | EmptyString => if is_space c then EmptyString else String c EmptyString
      | kept => String c kept
      end
  end.

(** [s.trim()] *)
Definition trim (s : string) : string := trimEnd (trimStart s).

(** [s.startsWith(p)] *)
Definition startsWith (p s : string) : bool := String.prefix p s.

(** [s.includes(p)] *)
Fixpoint includes (p s : string) : bool :=
  startsWith p s ||
  match s with
  | EmptyString => false
  | String _ rest => includes p rest
  end.

(** The line feed. *)
Definition LF : ascii := ascii_of_N 10.

(** [s.split('\n')] *)
Fixpoint split_lines (s : string) : list string :=
  match s with
  | EmptyString => [EmptyString]
  | String c rest =>
      if Ascii.eqb c LF then EmptyString :: split_lines rest
      else
        match split_lines rest with
        | line :: lines => String c line :: lines
        | [] => [String c EmptyString]
        end
  end.

(** A string is truthy when it is not empty. *)
Definition truthy (s : string) : bool := negb (String.eqb s EmptyString).

(** [loadTokensFromFile] of the multi-account client: [Some tokens] when it
    stores [tokens] in [config.tokens] and returns [true], [None] when it
    returns [false]. *)
Definition loadTokensFromFile (file : option string) : option (list string) :=
  match file with
  | None => None
  | Some content =>
      let tokens :=
        List.filter (fun line => truthy line && negb (startsWith "#" line))
                    (List.map trim (split_lines content)) in
      if (List.length tokens =? 0)%nat then None else Some tokens
  end.

(** [loadProxyFromFile] of the multi-account client: the configuration it
    leaves, and whether it returned [true] (otherwise [null]). *)
Definition loadProxyFromFile (file : option string) (cfg : Multi.config)
  : Multi.config * bool :=
  match file with
  | None => (cfg, false)
  | Some proxyContent =>
      let proxyUrl := trim proxyContent in
      let set kind address :=
        {| Multi.enabled := Multi.enabled cfg; Multi.type := kind;
           Multi.url := address; Multi.maxRetries := Multi.maxRetries cfg |} in
      if negb (truthy proxyUrl) then (cfg, false)
      else if startsWith "http://" proxyUrl || startsWith "https://" proxyUrl
      then (set http proxyUrl, true)
      else if startsWith "socks4://" proxyUrl then (set socks4 proxyUrl, true)
      else if startsWith "socks5://" proxyUrl then (set socks5 proxyUrl, true)
      else (set http ("http://" ++ proxyUrl)%string, true)
  end.

(** The descriptor the single-account client makes of a line of
    [proxy.txt]. *)
Definition proxy_of_line (line : string) : proxy :=
  let address := trim line in
  if startsWith "socks4://" address then {| type := socks4; url := address |}
  else if startsWith "socks5://" address then {| type := socks5; url := address |}
  else if negb (includes "://" address)
  then {| type := http; url := ("http://" ++ address)%string |}
  else {| type := http; url := address |}.

(** The lines [loadProxiesFromFile] keeps. *)
Definition proxy_lines (content : string) : list string :=
  List.filter (fun line => truthy (trim line) && negb (startsWith "#" line))
              (split_lines content).

(** [loadProxiesFromFile] of the single-account client: the configuration
    it leaves, and what it returned. *)
Definition loadProxiesFromFile (file : option string) (cfg : Single.config)
  : Single.config * bool :=
  match file with
  | None => (cfg, false)
  | Some content =>
      let loaded := List.map proxy_of_line (proxy_lines content) in
      if (0 <? List.length loaded)%nat
      then ({| Single.token := Single.token cfg; Single.enabled := true;
               Single.maxRetries := Single.maxRetries cfg;
               Single.proxyList := loaded |}, true)
      else ({| Single.token := Single.token cfg; Single.enabled := Single.enabled cfg;
               Single.maxRetries := Single.maxRetries cfg;
               Single.proxyList := loaded |}, false)
  end.

(** ** Traces of a measurement connection *)

(** [close] and [error] resolve the promise of a phase. *)
Definition is_ending (e : ws_event) : bool :=
  match e with
  | WsClose | WsError _ => true
  | _ => false
  end.

(** An inbound frame; text frames here are ones [JSON.parse] accepts. *)
Definition is_frame (e : ws_event) : bool :=
  match e with
  | WsText (Malformed _) => false
  | WsText _ | WsBinary _ _ => true
  | _ => false
  end.


(** The payload bytes of the binary frames. *)
Fixpoint binary_bytes (evs : list ws_event) : Z :=
  match evs with
  | [] => 0
  | WsBinary _ len :: rest => len + binary_bytes rest
  | _ :: rest => binary_bytes rest
  end.

(** No binary frame of [evs] arrives 10 seconds or more after the latest
    [open] (after [start], before any), every text frame parses, and the
    connection is still up. *)
Fixpoint early (start : Z) (evs : list ws_event) : Prop :=
  match evs with
  | [] => True
  | WsOpen now :: rest => early now rest
  | WsBinary now _ :: rest => (seconds_since start now < 10)%Q /\ early start rest
  | WsText (Malformed _) :: _ => False
  | WsClose :: _ | WsError _ :: _ => False
  | _ :: rest => early start rest
  end.

(** The state of the download listeners after they ran on [evs]. *)
Fixpoint download_listen (s : Download.state) (evs : list ws_event) : Download.state + string :=
  match evs with
  | [] => inl s
  | e :: rest =>
      match Download.on_event s e with
      | inl s' => download_listen s' rest
      | inr message => inr message
      end
  end.

(** The state of the upload listeners after they ran on [evs]. *)
Definition upload_listen (s : Upload.state) (evs : list ws_event) : Upload.state :=
  fold_left Upload.on_event evs s.

(** The server-side estimates the text frames of [evs] carry. *)
Fixpoint estimates (evs : list ws_event) : list number :=
  match evs with
  | [] => []
  | WsText (Measurement (Some tcpInfo)) :: rest => Upload.server_estimate tcpInfo :: estimates rest
  | _ :: rest => estimates rest
  end.

(** A text frame [JSON.parse] accepts. *)
Definition is_text (e : ws_event) : bool :=
  match e with
  | WsText (Malformed _) => false
  | WsText _ => true
  | _ => false
  end.

(** No turn of [sendData] in [evs] comes 10 seconds or more after the
    latest [open] (after [start], before any), and the connection is still
    up. *)
Fixpoint unhurried (start : Z) (evs : list ws_event) : Prop :=
  match evs with
  | [] => True
  | WsOpen now :: rest => unhurried now rest
  | SendTurn now _ :: rest => (seconds_since start now < 10)%Q /\ unhurried start rest
  | WsClose :: _ | WsError _ :: _ => False
  | _ :: rest => unhurried start rest
  end.

(** ** Predicates on numbers, traces and computations *)

(** [Num], [Infinity] and [-Infinity] are linearly ordered; [NaN] is not
    comparable with anything. *)
Definition ordered (a : number) : Prop := a <> NaN.

(** A speed that is a number (or [Infinity]) and not below zero. *)
Definition not_negative (x : number) : Prop :=
  ordered x /\ js_gt (Num 0) x = false.

(** An inbound frame of any content. *)
Definition is_message (e : ws_event) : bool :=
  match e with
  | WsText _ | WsBinary _ _ => true
  | _ => false
  end.

(** The world with the cursor moved. *)
Definition at_index (w : world) (i : nat) : world :=
  {| currentIndex := i; chosen := chosen w; trace := trace w; errors := errors w |}.

(** Whether [isProxyAlive] takes the answer of the liveness request for a
    live proxy: an [ok] response whose body parses. *)
Definition alive_answer (answer : fetched string) : bool :=
  match answer with
  | Response true _ (Some _) => true
  | _ => false
  end.

(** The locate service answers with a non-success status, or with an empty
    [results] array. *)
Definition discovery_failed (answer : fetched locate_body) : bool :=
  match answer with
  | Response false _ _ => true
  | Response true _ (Some {| results := Some [] |}) => true
  | _ => false
  end.

Definition not_socket (a : action) : Prop := is_socket a = false.

(** [w'] continues [w] without opening a measurement connection. *)
Definition grows (w w' : world) : Prop :=
  exists ext, trace w' = trace w ++ ext /\ Forall not_socket ext.

(** The computation opens no measurement connection and does not halt. *)
Definition calm {A} (c : M A) : Prop :=
  forall w, grows w (snd (c w)) /\ forall h, fst (c w) <> Halt h.

(** The computation opens no measurement connection and returns. *)
Definition safe {A} (c : M A) : Prop :=
  forall w, grows w (snd (c w)) /\ exists a, fst (c w) = Ret a.

(** Whether the multi-account [isProxyAlive] takes the answer of the
    liveness request for a live proxy: [response.ok]. *)
Definition ok_answer (answer : fetched string) : bool :=
  match answer with
  | Response true _ _ => true
  | _ => false
  end.

(** [p.type] and [p.url] handed to the library. *)
Definition agent_of (p : proxy) : agent := agent_for (type p) (url p).

(** A liveness request or a wait, the two things proxy acquisition does. *)
Definition is_acquisition (a : action) : bool :=
  match a with
  | Probe _ | Sleep _ => true
  | _ => false
  end.

(** The request does not leave without a proxy. *)
Definition proxied (a : action) : Prop :=
  match a with
  | Probe _ | Sleep _ => True
  | GetProfile via | Locate via | OpenSocket _ via | PostPoints _ via => via <> None
  end.

(** The liveness requests of one sweep over the list, starting at the
    cursor, and the wait that ends the sweep of that [round]. *)
Definition sweep (pool : list proxy) (cursor round : nat) : list action :=
  map (fun p => Probe (agent_of p)) (rotate cursor pool)
  ++ [Sleep (1000 * (Z.of_nat round + 1))].

(** The cursor is within a list of [n] proxies and no request so far
    has left without a proxy. *)
Definition tunnelled (n : nat) (w : world) : Prop :=
  (currentIndex w < n)%nat /\ Forall proxied (trace w).

(** From a world where [I] holds the computation leads to one where [I]
    holds, and what it returns satisfies [Q]. *)
Definition keeps {A} (I : world -> Prop) (Q : A -> Prop) (c : M A) : Prop :=
  forall w, I w -> I (snd (c w)) /\ forall a, fst (c w) = Ret a -> Q a.

(** The request leaves without a proxy. *)
Definition unproxied (a : action) : Prop :=
  match a with
  | Probe _ | Sleep _ => True
  | GetProfile via | Locate via | OpenSocket _ via | PostPoints _ via => via = None
  end.

(** [w] continues [base], and what was done since satisfies [P]. *)
Definition goes_on (P : action -> Prop) (base w : world) : Prop :=
  exists ext, trace w = trace base ++ ext /\ Forall P ext.

(** ** The speed formulas in binary64

    The same expressions over the floating-point numbers JavaScript
    computes with, to check that the figures of the sample runs are exact
    there as well. *)

Definition seconds_since64 (startTime now : float) : float :=
  ((now - startTime) / 1000)%float.

Definition mbps64 (totalBytes duration : float) : float :=
  ((totalBytes * 8) / (duration * 1000000))%float.

Definition server_estimate64 (bytesReceived elapsedTime : float) : float :=
  ((bytesReceived / elapsedTime) * 8)%float.

(** The rational that a finite floating-point number is, to compare
    [nearest64] with the arithmetic of the machine. *)
Definition Q_of_float (f : float) : option Q :=
  match Prim2SF f with
  | S754_zero _ => Some 0%Q
  | S754_finite negative m e =>
      Some (Qred ((if negative then -1 else 1) * inject_Z (Zpos m) * 2 ^ e))
  | _ => None
  end.

(** [lo + Math.random() * (hi - lo)] *)
Definition coordinate64 (lo hi random : float) : float :=
  (lo + random * (hi - lo))%float.

(** ** Sample configurations, answers and runs *)

Definition fresh (cursor : nat) : world :=
  {| currentIndex := cursor; chosen := None; trace := []; errors := [] |}.

(** No proxy configured. *)
Definition direct : Multi.config :=
  {| Multi.enabled := false; Multi.type := http; Multi.url := EmptyString; Multi.maxRetries := 3 |}.

Definition three_proxies : Single.config :=
  {| Single.token := "header.payload.signature";
     Single.enabled := true;
     Single.maxRetries := 3;
     Single.proxyList :=
       [ {| type := http; url := "http://10.0.0.1:8080" |};
         {| type := socks4; url := "socks4://10.0.0.2:1080" |};
         {| type := socks5; url := "socks5://10.0.0.3:1080" |} ] |}.

(** A proxy file whose only line is [http://]. *)
Definition malformed_only : Single.config :=
  {| Single.token := "header.payload.signature";
     Single.enabled := true;
     Single.maxRetries := 3;
     Single.proxyList := [ {| type := http; url := "http://" |} ] |}.

(** A proxy file with a SOCKS proxy and then the line [http://]. *)
Definition dead_then_malformed : Single.config :=
  {| Single.token := "header.payload.signature";
     Single.enabled := true;
     Single.maxRetries := 3;
     Single.proxyList := [ {| type := socks5; url := "socks5://10.0.0.3:1080" |};
                           {| type := http; url := "http://" |} ] |}.

Definition ndt_server : server :=
  {| machine := "mlab1-fra01.mlab-oti.measurement-lab.org";
     urls := Some {[ "wss:///ndt/v7/download"%string := "wss://mlab1-fra01/ndt/v7/download"%string;
                     "wss:///ndt/v7/upload"%string := "wss://mlab1-fra01/ndt/v7/upload"%string ]} |}.

(** A message whose TCP statistics imply [mbit] megabits per second over
    one second at the server. *)
Definition server_says (mbit : Z) : ws_event :=
  WsText (Measurement (Some {| BytesReceived := Some (mbit * 125000);
                               ElapsedTime := Some 1000000 |})).

(** The upload listeners after 375 buffers were queued, a server message
    implying 12 arrived, and 12,288 ms have passed. *)
Definition upload_at_12 : Upload.state :=
  {| Upload.startTime := 0;
     Upload.totalBytes := 12288000;
     Upload.uploadSpeed := Num (12 # 1);
     Upload.readyState := Upload.OPEN;
     Upload.scheduled := true;
     Upload.errors := [] |}.

(** 375 buffers queued at the open, a server message implying 12 Mbps,
    then the turn of [sendData] at 12,288 ms, whose client-side figure is
    8 Mbps. *)
Definition upload_lowered : socket_run :=
  {| created := 0;
     events := [WsOpen 0; SendTurn 0 375; server_says 12; SendTurn 12288 0; WsClose] |}.

(** The outside world of a sample cycle: the clock reads [now], the token
    expires at [expires], no proxy answers the liveness request, the
    profile and points services accept; the rest is given.  With
    [refuse_http] the library throws on building an HTTP proxy agent. *)
Definition scenario (now expires : Z) (refuse_http : bool) (locate : fetched locate_body)
    (download_events upload_events : list ws_event) : env :=
  {| Date_now := now;
     Math_random := fun _ => (1 # 2)%Q;
     JSON_parse_atob := fun _ => inr {| exp := Some expires |};
     new_agent := fun a => match a with
                           | HttpsProxyAgent _ =>
                               if refuse_http then Some "Invalid URL"%string else None
                           | SocksProxyAgent _ _ => None
                           end;
     testUrl_response := fun _ => NetworkError "network timeout";
     profile_response := fun _ => Response true 200 (Some {| data := Some (None, None) |});
     locate_response := locate;
     download_socket := {| created := 0; events := download_events |};
     upload_socket := {| created := 0; events := upload_events |};
     points_response := Response true 200 (Some {| success := true; message := None |}) |}.

(** The locate service cannot be reached. *)
Definition unreachable : env :=
  scenario 1700000000000 1700003600 false (NetworkError "network timeout")
           [WsError "socket hang up"] [WsError "socket hang up"].

(** The same, and no agent can be built for an HTTP proxy. *)
Definition no_http_agent : env :=
  scenario 1700000000000 1700003600 true (NetworkError "network timeout")
           [WsError "socket hang up"] [WsError "socket hang up"].

(** A clock at 1,700,000,000,250 ms and a token that expires 89 seconds
    after the current second. *)
Definition late_token : env :=
  scenario 1700000000250 1700000089 false (NetworkError "network timeout")
           [WsError "socket hang up"] [WsError "socket hang up"].

(** The same clock and a token that expires 91 seconds after the current
    second. *)
Definition timely_token : env :=
  scenario 1700000000250 1700000091 false (NetworkError "network timeout")
           [WsError "socket hang up"] [WsError "socket hang up"].

(** The download connection is reset 9 seconds after the open, 17,000,000
    bytes received. *)
Definition stalled_download : env :=
  scenario 1700000000000 1700003600 false
           (Response true 200 (Some {| results := Some [Some ndt_server] |}))
           [WsOpen 3; WsBinary 2000 8000000; WsBinary 9000 9000000; WsError "read ECONNRESET"]
           [WsError "socket hang up"].

(** The upload connection drops after the server has reported 12 Mbps and
    before the 10 seconds are over. *)
Definition upload_drops : env :=
  scenario 1700000000000 1700003600 false
           (Response true 200 (Some {| results := Some [Some ndt_server] |}))
           [WsOpen 0; WsBinary 10000 12500000; WsClose]
           [WsOpen 0; SendTurn 0 32; server_says 12; WsError "read ECONNRESET"].

(** The locate service is out of servers. *)
Definition no_servers : env :=
  scenario 1700000000000 1700003600 false
           (Response true 200 (Some {| results := Some [] |}))
           [WsOpen 0; WsBinary 10000 12500000; WsClose]
           [WsOpen 0; SendTurn 0 32; SendTurn 10000 0; WsClose].

(** One SOCKS proxy, enabled, for the multi-account client. *)
Definition one_proxy : Multi.config :=
  {| Multi.enabled := true; Multi.type := socks5;
     Multi.url := "socks5://10.0.0.3:1080"; Multi.maxRetries := 3 |}.

(** The outside world [E] with other answers to the liveness requests. *)
Definition answering (E : env) (probe : nat -> fetched string) : env :=
  {| Date_now := Date_now E;
     Math_random := Math_random E;
     JSON_parse_atob := JSON_parse_atob E;
     new_agent := new_agent E;
     testUrl_response := probe;
     profile_response := profile_response E;
     locate_response := locate_response E;
     download_socket := download_socket E;
     upload_socket := upload_socket E;
     points_response := points_response E |}.

(** Only the liveness request number [n] (from 0) is answered. *)
Definition alive_at (n : nat) : nat -> fetched string :=
  fun k => if (k =? n)%nat then Response true 200 (Some "203.0.113.7"%string)
           else NetworkError "network timeout".

(** The first liveness request is answered, the profile and points
    services accept, the locate service names [ndt_server], and both
    measurement connections run their 10 seconds. *)
Definition good_day : env :=
  answering
    (scenario 1700000000000 1700003600 false
              (Response true 200 (Some {| results := Some [Some ndt_server] |}))
              [WsOpen 0; WsBinary 10000 12500000; WsClose]
              [WsOpen 0; SendTurn 0 375; SendTurn 12288 0; WsClose])
    (fun _ => Response true 200 (Some "203.0.113.7"%string)).

(** The server reports a negative byte count, then nothing over zero
    time, then the connection is closed. *)
Definition odd_server : env :=
  scenario 1700000000000 1700003600 false
           (Response true 200 (Some {| results := Some [Some ndt_server] |}))
           [WsOpen 0; WsBinary 10000 12500000; WsClose]
           [WsOpen 0; SendTurn 0 32;
            WsText (Measurement (Some {| BytesReceived := Some (-5); ElapsedTime := Some 1000 |}));
            WsText (Measurement (Some {| BytesReceived := Some 0; ElapsedTime := Some 0 |}));
            WsClose].

(** * Properties *)

(** ** Numbers *)

Lemma window_over_true (d : Q) : window_over d = true <-> (10 <= d)%Q.
Proof. unfold window_over. apply Qle_bool_iff. Qed.

Lemma window_over_false (d : Q) : window_over d = false <-> (d < 10)%Q.
Proof.
  unfold window_over. split; intros H.
  - apply Qnot_le_lt. intros Hle. apply Qle_bool_iff in Hle. congruence.
  - destruct (Qle_bool 10 d) eqn:Hb; [|reflexivity].
    apply Qle_bool_iff in Hb. exfalso. eapply Qlt_not_le; eauto.
Qed.

Lemma seconds_since_ms (start now : Z) :
  (10 <= seconds_since start now)%Q <-> 10000 <= now - start.
Proof.
  unfold seconds_since. rewrite Zle_Qle. split; intros H.
  - apply (Qmult_le_r _ _ 1000) in H; [|reflexivity].
    assert (Heq : (inject_Z (now - start) / 1000 * 1000 == inject_Z (now - start))%Q)
      by (field; discriminate).
    rewrite Heq in H. exact H.
  - apply Qle_shift_div_l; [reflexivity | exact H].
Qed.

Lemma js_gt_irrefl (a : number) : js_gt a a = false.
Proof.
  destruct a; simpl; try reflexivity.
  apply negb_false_iff, Qle_bool_iff, Qle_refl.
Qed.

Lemma js_gt_asym (a b : number) : js_gt a b = true -> js_gt b a = false.
Proof.
  destruct a, b; simpl; try reflexivity; try discriminate.
  intros H. apply negb_true_iff in H. apply negb_false_iff, Qle_bool_iff.
  apply Qlt_le_weak, Qnot_le_lt. intros Hle. apply Qle_bool_iff in Hle. congruence.
Qed.

Lemma js_not_gt_trans (e a b : number) :
  ordered a -> js_gt e a = false -> js_gt a b = false -> js_gt e b = false.
Proof.
  intros Ha. destruct e, a, b; simpl; try reflexivity; try discriminate;
    try (exfalso; apply Ha; reflexivity).
  intros H1 H2. apply negb_false_iff, Qle_bool_iff in H1, H2.
  apply negb_false_iff, Qle_bool_iff. now apply Qle_trans with q0.
Qed.

Lemma keep_larger_ordered (a b : number) : ordered a -> ordered (keep_larger a b).
Proof.
  unfold keep_larger, ordered. intros Ha.
  destruct (js_gt b a) eqn:Hgt; [|exact Ha].
  intros ->. destruct a; discriminate.
Qed.

Lemma keep_larger_left (a b : number) : js_gt a (keep_larger a b) = false.
Proof.
  unfold keep_larger. destruct (js_gt b a) eqn:Hgt.
  - now apply js_gt_asym.
  - apply js_gt_irrefl.
Qed.

Lemma keep_larger_right (a b : number) : js_gt b (keep_larger a b) = false.
Proof.
  unfold keep_larger. destruct (js_gt b a) eqn:Hgt; [apply js_gt_irrefl | exact Hgt].
Qed.

(** Folding [keep_larger] over the estimates yields their maximum: one of
    them, and none of them is greater. *)
Lemma max_of_estimates (l : list number) (c : number) :
  ordered c ->
  ordered (fold_left keep_larger l c) /\
  In (fold_left keep_larger l c) (c :: l) /\
  (forall e, In e (c :: l) -> js_gt e (fold_left keep_larger l c) = false).
Proof.
  revert c. induction l as [|x l IH]; intros c Hc; simpl.
  - repeat split; [exact Hc | now left |].
    intros e [<-|[]]. apply js_gt_irrefl.
  - pose proof (keep_larger_ordered c x Hc) as Hk.
    destruct (IH (keep_larger c x) Hk) as (Ho & Hin & Hmax).
    assert (Hself : js_gt (keep_larger c x) (fold_left keep_larger l (keep_larger c x)) = false)
      by (apply Hmax; now left).
    repeat split; [exact Ho | |].
    + destruct Hin as [Heq|Hin]; [|now right; right].
      rewrite <- Heq. unfold keep_larger. destruct (js_gt x c); [right; now left | now left].
    + intros e [<-|[<-|He]].
      * apply js_not_gt_trans with (keep_larger c x); auto using keep_larger_left.
      * apply js_not_gt_trans with (keep_larger c x); auto using keep_larger_right.
      * apply Hmax. now right.
Qed.

(** The figures of the sample runs are exact in binary64 too. *)
Example binary64_download_10 : mbps64 12500000 (seconds_since64 0 10000) = 10%float.
Proof. reflexivity. Qed.

Example binary64_upload_8 : mbps64 12288000 (seconds_since64 0 12288) = 8%float.
Proof. reflexivity. Qed.

Example binary64_server_12 : server_estimate64 1500000 1000000 = 12%float.
Proof. reflexivity. Qed.

(** A decimal literal denotes the binary64 number nearest to it, here as
    in JavaScript. *)
Set Warnings "-inexact-float".

(** [nearest64] rounds as the machine's binary64 does on the steps of
    [generateRandomLocation] for the draws 7/32 and 5/32.  The exact
    latitude there is 25.7765625, a tie that [Math.round] would take up to
    25.776563; the computed one is just below it and gives 25.776562. *)
Example binary64_location_sample :
  Q_of_float 53.55 = Some maxLat /\
  Q_of_float 73.66 = Some minLng /\
  Q_of_float 135.05 = Some maxLng /\
  Q_of_float (coordinate64 18 53.55 0.21875)
  = Some (add64 minLat (mul64 (7 # 32) (sub64 maxLat minLat))) /\
  Q_of_float (coordinate64 18 53.55 0.21875 * 1000000)
  = Some (mul64 (add64 minLat (mul64 (7 # 32) (sub64 maxLat minLat))) 1000000) /\
  Math_round (mul64 (add64 minLat (mul64 (7 # 32) (sub64 maxLat minLat))) 1000000)
  = 25776562 /\
  Q_of_float (25776562 / 1000000)
  = Some (latitude (generateRandomLocation (7 # 32) (5 # 32))) /\
  Q_of_float (coordinate64 73.66 135.05 0.15625 * 1000000)
  = Some (mul64 (add64 minLng (mul64 (5 # 32) (sub64 maxLng minLng))) 1000000) /\
  Math_round (mul64 (add64 minLng (mul64 (5 # 32) (sub64 maxLng minLng))) 1000000)
  = 83252187 /\
  Q_of_float (83252187 / 1000000)
  = Some (longitude (generateRandomLocation (7 # 32) (5 # 32))).
Proof. repeat split; now vm_compute. Qed.

(** The same on the steps of [Math.round(0.615 * 100) / 100]: the number
    that [0.615] denotes is below 0.615, its product with 100 rounds to
    61.5, and the result is 0.62. *)
Example binary64_speed_sample :
  Q_of_float 0.615 = Some (nearest64 0.615) /\
  Q_of_float (0.615 * 100) = Some (mul64 (nearest64 0.615) 100) /\
  Math_round (mul64 (nearest64 0.615) 100) = 62 /\
  Q_of_float (62 / 100) = Some (nearest64 0.62) /\
  round2 (Num (nearest64 0.615)) = Num (nearest64 0.62).
Proof. repeat split; now vm_compute. Qed.

Set Warnings "inexact-float".

(** ** The download phase *)


Lemma download_early (pre : list ws_event) (s : Download.state) :
  early (Download.startTime s) pre ->
  Forall (fun e => is_ending e = false) pre /\
  exists s', download_listen s pre = inl s' /\
    Download.downloadSpeed s' = Download.downloadSpeed s /\
    Download.closeCalled s' = Download.closeCalled s /\
    Download.errors s' = Download.errors s.
Proof.
  revert s. induction pre as [|e pre IH]; intros s Hearly.
  - split; [constructor | now exists s].
  - destruct e as [now|[?| |?]|now len|? ?| |?]; simpl in Hearly; try contradiction.
    + destruct (IH {| Download.startTime := now; Download.totalBytes := 0;
                      Download.downloadSpeed := Download.downloadSpeed s;
                      Download.closeCalled := Download.closeCalled s;
                      Download.errors := Download.errors s |} Hearly) as (Hno & s' & Hs').
      split; [now constructor | now exists s'].
    + destruct (IH s Hearly) as (Hno & s' & Hs').
      split; [now constructor | now exists s'].
    + destruct (IH s Hearly) as (Hno & s' & Hs').
      split; [now constructor | now exists s'].
    + destruct Hearly as [Htime Hearly]. apply window_over_false in Htime.
      destruct (IH {| Download.startTime := Download.startTime s;
                      Download.totalBytes := Download.totalBytes s + len;
                      Download.downloadSpeed := Download.downloadSpeed s;
                      Download.closeCalled := Download.closeCalled s;
                      Download.errors := Download.errors s |} Hearly) as (Hno & s' & Hs').
      split; [now constructor|]. exists s'. simpl. now rewrite Htime.
    + destruct (IH s Hearly) as (Hno & s' & Hs').
      split; [now constructor | now exists s'].
Qed.

Lemma download_listen_app (pre rest : list ws_event) (s : Download.state) :
  download_listen s (pre ++ rest) =
    match download_listen s pre with
    | inl s' => download_listen s' rest
    | inr message => inr message
    end.
Proof.
  revert s. induction pre as [|e pre IH]; intros s; simpl; [reflexivity|].
  destruct (Download.on_event s e); [apply IH | reflexivity].
Qed.

Lemma download_run_listen (pre rest : list ws_event) (s s' : Download.state) :
  Forall (fun e => is_ending e = false) pre ->
  download_listen s pre = inl s' ->
  Download.run s (pre ++ rest) = Download.run s' rest.
Proof.
  intros Hall. revert s. induction Hall as [|e pre He _ IH]; intros s Hl; simpl in *.
  - now inversion Hl.
  - destruct (Download.on_event s e) as [s1|m] eqn:Hstep; [|discriminate].
    destruct e; try discriminate; simpl in *; rewrite ?Hstep; now apply IH.
Qed.




(** C10. When the download connection closes or errors and no binary frame
    had arrived 10 seconds or more after the open, the phase yields speed 0,
    whatever the number of bytes received. *)
Theorem download_without_cutoff_is_zero
    (E : env) (pre rest : list ws_event) (ending : ws_event) :
  events (download_socket E) = pre ++ ending :: rest ->
  is_ending ending = true ->
  early (created (download_socket E)) pre ->
  (exists s, Download.phase (download_socket E) = Ret s /\
             Download.downloadSpeed s = Num 0 /\
             Download.closeCalled s = false) /\
  (forall enabled address proxyAgent w,
     fst (download E enabled (Some address) proxyAgent w) = Ret (Num 0)).
Proof.
  intros Hev Hend Hearly.
  assert (Hphase : exists s, Download.phase (download_socket E) = Ret s /\
             Download.downloadSpeed s = Num 0 /\ Download.closeCalled s = false).
  { unfold Download.phase. rewrite Hev.
    destruct (download_early pre (Download.init (created (download_socket E))) Hearly)
      as (Hno & s' & Hl & Hspeed & Hclose & _).
    rewrite (download_run_listen _ _ _ s' Hno Hl).
    destruct ending; try discriminate; simpl; eexists; split; try reflexivity; simpl; auto. }
  split; [exact Hphase|].
  intros enabled address proxyAgent w. destruct Hphase as (s & Hs & Hspeed & _).
  unfold download, bind, open_socket, emit, log_errors, ret. simpl.
  rewrite Hs. simpl. now rewrite Hspeed.
Qed.

Lemma download_without_cutoff_is_zero_witness :
  exists s, Download.phase (download_socket stalled_download) = Ret s /\
            Download.totalBytes s = 17000000 /\
            Download.downloadSpeed s = Num 0.
Proof.
  destruct (download_without_cutoff_is_zero stalled_download
              [WsOpen 3; WsBinary 2000 8000000; WsBinary 9000 9000000] []
              (WsError "read ECONNRESET") eq_refl eq_refl) as [(s & Hs & Hspeed & _) _].
  - simpl. repeat split.
  - exists s. split; [exact Hs|]. split; [|exact Hspeed].
    cbv in Hs. inversion Hs. reflexivity.
Defined.

(** ** The upload phase *)

Lemma upload_text_keeps_larger (s : Upload.state) (data : json_text) :
  Upload.uploadSpeed (Upload.on_text s data) = Upload.uploadSpeed s \/
  exists tcpInfo, data = Measurement (Some tcpInfo) /\
    Upload.uploadSpeed (Upload.on_text s data)
    = keep_larger (Upload.uploadSpeed s) (Upload.server_estimate tcpInfo).
Proof.
  destruct data as [m| |[tcpInfo|]]; simpl; auto.
  right. now exists tcpInfo.
Qed.

Lemma upload_text_never_lowers (s : Upload.state) (data : json_text) :
  js_gt (Upload.uploadSpeed s) (Upload.uploadSpeed (Upload.on_text s data)) = false.
Proof.
  destruct (upload_text_keeps_larger s data) as [->|(tcpInfo & _ & ->)].
  - apply js_gt_irrefl.
  - apply keep_larger_left.
Qed.

Lemma upload_messages (later : list ws_event) (s : Upload.state) :
  Forall (fun e => is_message e = true) later ->
  Upload.uploadSpeed (upload_listen s later)
  = fold_left keep_larger (estimates later) (Upload.uploadSpeed s).
Proof.
  intros Hall. revert s. unfold upload_listen.
  induction Hall as [|e later He _ IH]; intros s; [reflexivity|].
  destruct e as [?|[?| |[tcpInfo|]]|? ?|? ?| |?]; try discriminate; simpl; now rewrite IH.
Qed.

Lemma upload_run_listen (pre rest : list ws_event) (s : Upload.state) :
  Forall (fun e => is_ending e = false) pre ->
  Upload.run s (pre ++ rest) = Upload.run (upload_listen s pre) rest.
Proof.
  intros Hall. revert s. unfold upload_listen.
  induction Hall as [|e pre He _ IH]; intros s; [reflexivity|].
  destruct e; try discriminate; simpl; apply IH.
Qed.

Lemma message_not_ending (l : list ws_event) :
  Forall (fun e => is_message e = true) l -> Forall (fun e => is_ending e = false) l.
Proof.
  induction 1 as [|e l He _ IH]; constructor; [now destruct e | exact IH].
Qed.

(** C1, as the code has it.  A server message never lowers the running
    upload estimate.  The turn of [sendData] that finds 10 seconds elapsed
    replaces the running estimate, whatever it was, by the client-side
    [totalBytes * 8 / (elapsed * 1000000)].  The speed the phase yields is
    the maximum of that client-side estimate and of the server-side
    estimates received after it. *)
Theorem upload_speed_is_max_since_cutoff
    (s : Upload.state) (now : Z) (sent : nat)
    (later rest : list ws_event) (ending : ws_event) :
  Upload.readyState s = Upload.OPEN ->
  Upload.scheduled s = true ->
  (10 <= seconds_since (Upload.startTime s) now)%Q ->
  Forall (fun e => is_message e = true) later ->
  is_ending ending = true ->
  let client := Num (mbps (Upload.totalBytes s) (seconds_since (Upload.startTime s) now)) in
  (forall s0 data,
     js_gt (Upload.uploadSpeed s0) (Upload.uploadSpeed (Upload.on_text s0 data)) = false) /\
  Upload.uploadSpeed (Upload.on_event s (SendTurn now sent)) = client /\
  exists final,
    Upload.run s (SendTurn now sent :: later ++ ending :: rest) = Ret final /\
    Upload.uploadSpeed final = fold_left keep_larger (estimates later) client /\
    In (Upload.uploadSpeed final) (client :: estimates later) /\
    (forall e, In e (client :: estimates later) -> js_gt e (Upload.uploadSpeed final) = false).
Proof.
  intros Hopen Hsched Hlate Hlater Hend client.
  apply window_over_true in Hlate.
  assert (Hcut : Upload.uploadSpeed (Upload.on_event s (SendTurn now sent)) = client).
  { simpl. rewrite Hsched. unfold Upload.sendData. now rewrite Hopen, Hlate. }
  split; [exact upload_text_never_lowers|]. split; [exact Hcut|].
  assert (Hord : ordered client) by discriminate.
  destruct (max_of_estimates (estimates later) client Hord) as (_ & Hin & Hmax).
  set (reached := upload_listen (Upload.on_event s (SendTurn now sent)) later).
  assert (Hspeed : Upload.uploadSpeed reached = fold_left keep_larger (estimates later) client).
  { unfold reached. now rewrite upload_messages, Hcut. }
  assert (Hrun : Upload.run s (SendTurn now sent :: later ++ ending :: rest)
                 = Upload.run reached (ending :: rest)).
  { change (SendTurn now sent :: later ++ ending :: rest)
      with ((SendTurn now sent :: later) ++ ending :: rest).
    rewrite upload_run_listen; [reflexivity|].
    constructor; [reflexivity | now apply message_not_ending]. }
  rewrite Hrun.
  destruct ending; try discriminate; simpl; eexists; (split; [reflexivity|]); simpl;
    rewrite Hspeed; auto.
Qed.

Lemma upload_speed_is_max_since_cutoff_witness :
  exists final,
    Upload.run upload_at_12 (SendTurn 12288 0 :: [server_says 12; server_says 9] ++ [WsClose])
    = Ret final /\
    js_gt (Upload.uploadSpeed final) (Num 11.9) = true /\
    js_gt (Upload.uploadSpeed final) (Num 12) = false.
Proof.
  destruct (upload_speed_is_max_since_cutoff upload_at_12 12288 0
              [server_says 12; server_says 9] [] WsClose)
    as (_ & _ & final & Hrun & Hspeed & _).
  - reflexivity.
  - reflexivity.
  - apply Qle_bool_iff. reflexivity.
  - repeat constructor.
  - reflexivity.
  - exists final. split; [exact Hrun|]. rewrite Hspeed. split; reflexivity.
Defined.

(** C1 as stated fails: the phase yields 8, the client-side figure of the
    cutoff, although the running estimate stood at 12 before it; the result
    is below a server estimate seen during the phase. *)
Lemma upload_cutoff_lowers_estimate :
  (exists before final,
     upload_listen (Upload.init 0) [WsOpen 0; SendTurn 0 375; server_says 12] = before /\
     Upload.phase upload_lowered = Ret final /\
     Upload.uploadSpeed before = Num (12000000 # 1000000) /\
     Upload.uploadSpeed final = Num (mbps 12288000 (seconds_since 0 12288)) /\
     (mbps 12288000 (seconds_since 0 12288) == 8)%Q /\
     js_gt (Upload.uploadSpeed before) (Upload.uploadSpeed final) = true) /\
  ~ (forall final,
       Upload.phase upload_lowered = Ret final ->
       forall e, In e (estimates (events upload_lowered)) ->
                 js_gt e (Upload.uploadSpeed final) = false).
Proof.
  split.
  - do 2 eexists. repeat split.
  - intros Hmax.
    specialize (Hmax _ eq_refl (Num (12000000 # 1000000)) (or_introl eq_refl)).
    discriminate Hmax.
Qed.

(** ** The proxy list *)

Lemma at_index_same (w : world) : at_index w (currentIndex w) = w.
Proof. now destruct w. Qed.

Section ProxyList.

Variable cfg : Single.config.

Local Abbreviation pool := (Single.proxyList cfg).
Local Abbreviation N := (length (Single.proxyList cfg)).

Lemma getNextProxy_step (w : world) :
  (0 < N)%nat ->
  Single.getNextProxy cfg w
  = (Ret (pool !! currentIndex w), at_index w ((currentIndex w + 1) mod N)).
Proof.
  intros HN. unfold Single.getNextProxy.
  destruct (Nat.eqb_spec N 0) as [H0|_]; [lia | reflexivity].
Qed.

Lemma next_calls_spec (k : nat) (w : world) :
  (currentIndex w < N)%nat ->
  Single.next_calls cfg k w
  = (Ret (map (fun i => pool !! ((currentIndex w + i) mod N)%nat) (seq 0 k)),
     at_index w ((currentIndex w + k) mod N)).
Proof.
  revert w. induction k as [|k IH]; intros w Hc.
  - simpl. unfold ret. rewrite Nat.add_0_r, Nat.mod_small by exact Hc.
    now rewrite at_index_same.
  - cbn [Single.next_calls]. unfold bind at 1.
    rewrite getNextProxy_step by lia.
    unfold bind at 1. rewrite IH by (simpl; apply Nat.mod_upper_bound; lia).
    unfold ret. simpl currentIndex. f_equal.
    + f_equal. cbn [seq map]. f_equal.
      * now rewrite Nat.add_0_r, Nat.mod_small.
      * rewrite <- seq_shift, map_map. apply map_ext. intros i.
        rewrite Nat.Div0.add_mod_idemp_l. do 2 f_equal. lia.
    + unfold at_index. simpl. f_equal.
      rewrite Nat.Div0.add_mod_idemp_l. f_equal. lia.
Qed.

Lemma full_round (c : nat) :
  (c < N)%nat ->
  map (fun i => pool !! ((c + i) mod N)%nat) (seq 0 N) = Some <$> rotate c pool.
Proof.
  intros Hc. apply list_eq. intros i.
  change (map (fun i => pool !! ((c + i) mod N)%nat) (seq 0 N))
    with ((fun i => pool !! ((c + i) mod N)%nat) <$> seq 0 N).
  rewrite !list_lookup_fmap.
  destruct (decide (i < N)%nat) as [Hi|Hi].
  - rewrite lookup_seq_lt by exact Hi. simpl.
    rewrite lookup_rotate_r by exact Hi.
    unfold rotate_nat_add.
    rewrite <- Nat2Z.inj_add, <- Nat2Z.inj_mod, Nat2Z.id.
    destruct (lookup_lt_is_Some_2 pool ((c + i) mod N)) as [p Hp].
    { apply Nat.mod_upper_bound. lia. }
    now rewrite Hp.
  - rewrite lookup_seq_ge by lia.
    rewrite lookup_ge_None_2; [reflexivity|]. rewrite length_rotate. lia.
Qed.

End ProxyList.

(** C3. On a non-empty list of [N] proxies with the cursor in range: every
    call of [getNextProxy] returns the entry under the cursor and moves the
    cursor by one modulo [N], so it stays in range; [N] calls in a row
    return the list rotated to the cursor, hence every entry exactly once,
    and bring the cursor back; the call after them returns what the first
    one returned.  From cursor 0 the [N] calls return the list in order.
    Nothing in the function depends on whether a proxy is alive. *)
Theorem next_is_round_robin (cfg : Single.config) (w : world) :
  let pool := Single.proxyList cfg in
  let N := length pool in
  (0 < N)%nat ->
  (currentIndex w < N)%nat ->
  (forall w0, (currentIndex w0 < N)%nat ->
     exists p, pool !! currentIndex w0 = Some p /\
       Single.getNextProxy cfg w0 = (Ret (Some p), at_index w0 ((currentIndex w0 + 1) mod N)) /\
       (currentIndex (snd (Single.getNextProxy cfg w0)) < N)%nat) /\
  Single.next_calls cfg N w = (Ret (Some <$> rotate (currentIndex w) pool), w) /\
  rotate (currentIndex w) pool ≡ₚ pool /\
  (currentIndex w = 0%nat -> rotate (currentIndex w) pool = pool) /\
  Single.next_calls cfg (S N) w
  = (Ret ((Some <$> rotate (currentIndex w) pool) ++ [pool !! currentIndex w]),
     at_index w ((currentIndex w + 1) mod N)) /\
  head (Some <$> rotate (currentIndex w) pool) = Some (pool !! currentIndex w).
Proof.
  intros pool N HN Hc.
  assert (Hback : ((currentIndex w + N) mod N)%nat = currentIndex w).
  { rewrite <- Nat.Div0.add_mod_idemp_r, Nat.Div0.mod_same, Nat.add_0_r.
    now apply Nat.mod_small. }
  assert (Hround : Single.next_calls cfg N w = (Ret (Some <$> rotate (currentIndex w) pool), w)).
  { subst pool N. rewrite next_calls_spec by exact Hc.
    rewrite full_round by exact Hc. now rewrite Hback, at_index_same. }
  split; [|split; [exact Hround|split; [|split; [|split]]]].
  - intros w0 Hw0. destruct (lookup_lt_is_Some_2 pool (currentIndex w0) Hw0) as [p Hp].
    exists p. subst pool N. rewrite getNextProxy_step by exact HN.
    rewrite Hp. repeat split. simpl. apply Nat.mod_upper_bound. lia.
  - unfold rotate. rewrite Permutation_app_comm. now rewrite take_drop.
  - intros ->. unfold rotate. rewrite Nat.Div0.mod_0_l. simpl. now rewrite app_nil_r.
  - subst pool N. rewrite next_calls_spec by exact Hc.
    rewrite seq_S, map_app, full_round by exact Hc. simpl.
    rewrite Hback. do 2 f_equal.
    replace (currentIndex w + S (length (Single.proxyList cfg)))%nat
      with ((currentIndex w + 1) + length (Single.proxyList cfg))%nat by lia.
    rewrite <- Nat.Div0.add_mod_idemp_r, Nat.Div0.mod_same, Nat.add_0_r.
    reflexivity.
  - rewrite head_lookup, list_lookup_fmap, lookup_rotate_r by exact HN.
    unfold rotate_nat_add. change (Z.of_nat 0) with 0. rewrite Z.add_0_r.
    rewrite <- Nat2Z.inj_mod, Nat2Z.id, Nat.mod_small by exact Hc.
    destruct (lookup_lt_is_Some_2 pool (currentIndex w) Hc) as [p Hp].
    now rewrite Hp.
Qed.

Lemma next_is_round_robin_witness :
  Single.next_calls three_proxies 4 (fresh 1)
  = (Ret [ Some {| type := socks4; url := "socks4://10.0.0.2:1080" |};
           Some {| type := socks5; url := "socks5://10.0.0.3:1080" |};
           Some {| type := http; url := "http://10.0.0.1:8080" |};
           Some {| type := socks4; url := "socks4://10.0.0.2:1080" |} ],
     fresh 2).
Proof.
  destruct (next_is_round_robin three_proxies (fresh 1)) as (_ & _ & _ & _ & Hnext & _).
  - simpl. lia.
  - simpl. lia.
  - exact Hnext.
Defined.

(** ** Acquiring a proxy *)

Lemma count_app (kind : action -> bool) (t1 t2 : list action) :
  count kind (t1 ++ t2) = (count kind t1 + count kind t2)%nat.
Proof. unfold count. now rewrite List.filter_app, length_app. Qed.

Ltac step := unfold bind, ret, throw, get, emit, log_error, set_chosen,
                    set_currentIndex, try_catch, fetch, json, construct; simpl.

Section Acquire.

Variable cfg : Single.config.
Variable E : env.

Local Abbreviation pool := (Single.proxyList cfg).
Local Abbreviation N := (length (Single.proxyList cfg)).

Lemma isProxyAlive_spec (a : agent) (w : world) :
  Single.isProxyAlive E a w
  = (Ret (alive_answer (testUrl_response E (count is_probe (trace w)))),
     snd (emit (Probe a) w)).
Proof.
  unfold Single.isProxyAlive. step.
  destruct (testUrl_response E (count is_probe (trace w))) as [m|[|] status [body|]];
    reflexivity.
Qed.

Lemma createProxyAgent_built (w : world) (p : proxy) :
  pool !! currentIndex w = Some p ->
  new_agent E (agent_for (type p) (url p)) = None ->
  Single.createProxyAgent cfg E w
  = (Ret (Some (agent_for (type p) (url p))),
     {| currentIndex := (currentIndex w + 1) mod N; chosen := Some p;
        trace := trace w; errors := errors w |}).
Proof.
  intros Hp Hnew. unfold Single.createProxyAgent. unfold bind at 1.
  rewrite getNextProxy_step by (apply lookup_lt_Some in Hp; lia).
  rewrite Hp. step. now rewrite Hnew.
Qed.

Lemma createProxyAgent_failed (w : world) (p : proxy) (message : string) :
  pool !! currentIndex w = Some p ->
  new_agent E (agent_for (type p) (url p)) = Some message ->
  Single.createProxyAgent cfg E w
  = (Ret None,
     {| currentIndex := (currentIndex w + 1) mod N; chosen := Some p;
        trace := trace w;
        errors := errors w ++ [("Failed to create proxy agent: " ++ message)%string] |}).
Proof.
  intros Hp Hnew. unfold Single.createProxyAgent. unfold bind at 1.
  rewrite getNextProxy_step by (apply lookup_lt_Some in Hp; lia).
  rewrite Hp. step. now rewrite Hnew.
Qed.

Hypothesis builds : forall p, In p pool -> new_agent E (agent_for (type p) (url p)) = None.
Hypothesis dead : forall n, alive_answer (testUrl_response E n) = false.

Lemma attempt_fails (initialIndex attempts : nat) (w : world) :
  (currentIndex w < N)%nat ->
  exists w',
    Single.attempt cfg E initialIndex attempts w = (Ret None, w') /\
    (currentIndex w' < N)%nat /\
    count is_probe (trace w') = S (count is_probe (trace w)).
Proof.
  intros Hc. destruct (lookup_lt_is_Some_2 pool (currentIndex w) Hc) as [p Hp].
  assert (Hin : In p pool).
  { apply list_elem_of_In. eapply list_elem_of_lookup_2. exact Hp. }
  unfold Single.attempt, try_catch. unfold bind at 1.
  rewrite (createProxyAgent_built w p Hp (builds p Hin)).
  unfold bind at 1. rewrite isProxyAlive_spec. simpl trace. rewrite dead.
  step.
  destruct ((currentIndex w + 1) mod N =? initialIndex)%nat; simpl;
    eexists; (split; [reflexivity|]); simpl;
    (split; [apply Nat.mod_upper_bound; lia|]);
    rewrite !count_app; unfold count; simpl; lia.
Qed.

Lemma attempts_loop_exhausts (remaining initialIndex attempts : nat) (w : world) :
  (currentIndex w < N)%nat ->
  exists w',
    Single.attempts_loop cfg E remaining initialIndex attempts w
    = (Throw "All proxies failed after maximum retry attempts", w') /\
    count is_probe (trace w') = (count is_probe (trace w) + remaining)%nat.
Proof.
  revert attempts w. induction remaining as [|remaining IH]; intros attempts w Hc.
  - exists w. split; [reflexivity | lia].
  - destruct (attempt_fails initialIndex attempts w Hc) as (w1 & Hstep & Hc1 & Hcount).
    destruct (IH (S attempts) w1 Hc1) as (w' & Hloop & Hcount').
    exists w'. split; [|lia].
    cbn [Single.attempts_loop]. unfold bind. now rewrite Hstep.
Qed.

End Acquire.

(** C4, as the code has it.  With proxying enabled, a non-empty list of
    [N] proxies whose agents can all be built, and every liveness check
    failing, [getProxyAgent(retries)] makes exactly [retries * N] liveness
    requests and then throws its all-proxies-failed error. *)
Theorem acquire_exhausts_budget (cfg : Single.config) (E : env) (retries : nat) (w : world) :
  Single.enabled cfg = true ->
  Single.proxyList cfg <> [] ->
  (currentIndex w < length (Single.proxyList cfg))%nat ->
  (forall p, In p (Single.proxyList cfg) ->
             new_agent E (agent_for (type p) (url p)) = None) ->
  (forall n, alive_answer (testUrl_response E n) = false) ->
  exists w',
    Single.getProxyAgent cfg E retries w
    = (Throw "All proxies failed after maximum retry attempts", w') /\
    count is_probe (trace w')
    = (count is_probe (trace w) + retries * length (Single.proxyList cfg))%nat.
Proof.
  intros Hen Hne Hc Hbuilds Hdead.
  unfold Single.getProxyAgent. rewrite Hen. simpl.
  destruct (Nat.eqb_spec (length (Single.proxyList cfg)) 0) as [H0|_]; [lia|].
  unfold bind, get.
  apply attempts_loop_exhausts; assumption.
Qed.

Lemma acquire_exhausts_budget_witness :
  exists w',
    Single.getProxyAgent three_proxies unreachable 3 (fresh 0)
    = (Throw "All proxies failed after maximum retry attempts", w') /\
    count is_probe (trace w') = 9%nat.
Proof.
  destruct (acquire_exhausts_budget three_proxies unreachable 3 (fresh 0))
    as (w' & Hrun & Hcount).
  - reflexivity.
  - discriminate.
  - simpl. lia.
  - intros p _. now destruct (type p).
  - reflexivity.
  - exists w'. split; [exact Hrun | exact Hcount].
Defined.

(** C4 as stated fails: the list is enabled and non-empty and the one
    liveness check made fails, yet [getProxyAgent] returns [undefined] and
    throws nothing, because the agent of the second proxy cannot be
    built. *)
Lemma acquire_returns_nothing :
  Single.getProxyAgent dead_then_malformed no_http_agent 3 (fresh 0)
  = (Ret None,
     {| currentIndex := 0;
        chosen := Some {| type := http; url := "http://" |};
        trace := [Probe (SocksProxyAgent "socks5://10.0.0.3:1080" 5)];
        errors := ["Failed to create proxy agent: Invalid URL"%string] |}) /\
  (forall n, alive_answer (testUrl_response no_http_agent n) = false) /\
  ~ (exists w', Single.getProxyAgent dead_then_malformed no_http_agent 3 (fresh 0)
                = (Throw "All proxies failed after maximum retry attempts", w')).
Proof.
  split; [reflexivity|]. split; [reflexivity|].
  intros [w' H]. discriminate H.
Qed.

(** C8, as the code has it.  When the agent of the proxy under the cursor
    cannot be built, [createProxyAgent] logs the reason and returns
    [undefined], which is what it returns when there is no proxy at all;
    [getProxyAgent] then returns [undefined] as well, without a liveness
    request, so that its caller goes on with direct egress. *)
Theorem build_failure_returns_undefined
    (cfg : Single.config) (E : env) (w : world) (p : proxy) (reason : string) :
  Single.proxyList cfg !! currentIndex w = Some p ->
  new_agent E (agent_for (type p) (url p)) = Some reason ->
  let w1 := {| currentIndex := (currentIndex w + 1) mod length (Single.proxyList cfg);
               chosen := Some p;
               trace := trace w;
               errors := errors w ++ [("Failed to create proxy agent: " ++ reason)%string] |} in
  Single.createProxyAgent cfg E w = (Ret None, w1) /\
  (forall cfg0 w0, Single.proxyList cfg0 = [] ->
                   Single.createProxyAgent cfg0 E w0 = (Ret None, w0)) /\
  (forall retries, Single.enabled cfg = true -> (0 < retries)%nat ->
                   Single.getProxyAgent cfg E retries w = (Ret None, w1)).
Proof.
  intros Hp Hnew w1.
  pose proof (createProxyAgent_failed cfg E w p reason Hp Hnew) as Hcreate.
  split; [exact Hcreate|]. split.
  - intros cfg0 w0 Hnil. unfold Single.createProxyAgent, Single.getNextProxy.
    now rewrite Hnil.
  - intros retries Hen Hpos. unfold Single.getProxyAgent. rewrite Hen. simpl.
    apply lookup_lt_Some in Hp.
    destruct (Nat.eqb_spec (length (Single.proxyList cfg)) 0) as [H0|_]; [lia|].
    unfold bind at 1. unfold get.
    destruct (retries * length (Single.proxyList cfg))%nat eqn:Hbudget; [nia|].
    cbn [Single.attempts_loop]. unfold bind at 1.
    unfold Single.attempt, try_catch. unfold bind at 1. now rewrite Hcreate.
Qed.

Lemma build_failure_returns_undefined_witness :
  Single.getProxyAgent malformed_only no_http_agent 3 (fresh 0)
  = (Ret None,
     {| currentIndex := 0;
        chosen := Some {| type := http; url := "http://" |};
        trace := [];
        errors := ["Failed to create proxy agent: Invalid URL"%string] |}).
Proof.
  destruct (build_failure_returns_undefined malformed_only no_http_agent (fresh 0)
              {| type := http; url := "http://" |} "Invalid URL" eq_refl eq_refl)
    as (_ & _ & Hget).
  apply (Hget 3%nat); [reflexivity | lia].
Defined.

(** C8 as stated fails: for the descriptor [http://], whose agent cannot
    be built, [createProxyAgent] returns what it returns for an empty list,
    and the locate request of the speed test that follows leaves without a
    proxy although proxying is enabled. *)
Lemma build_failure_is_not_signalled :
  fst (Single.createProxyAgent malformed_only no_http_agent (fresh 0)) = Ret None /\
  fst (Single.createProxyAgent malformed_only no_http_agent (fresh 0))
  = fst (Single.createProxyAgent
           {| Single.token := EmptyString; Single.enabled := false; Single.maxRetries := 3;
              Single.proxyList := [] |} no_http_agent (fresh 0)) /\
  trace (snd (performSpeedTest no_http_agent (Single.enabled malformed_only)
                (Single.getProxyAgent malformed_only no_http_agent 3) (fresh 0)))
  = [Locate None].
Proof. repeat split. Qed.

(** ** The session gate *)

Lemma expired_iff (E : env) (seconds : Z) :
  expired E {| exp := Some seconds |} = true <-> (seconds - 90) * 1000 < Date_now E.
Proof. unfold expired. simpl. apply Z.ltb_lt. Qed.

(** C5. A token whose decoded [exp] satisfies
    [(exp - 90) * 1000 < Date.now()] is rejected as expired with no request
    made: the multi-account [validateToken] logs the reason and returns
    [false], the single-account one logs it and throws it.  A token whose
    [exp] does not satisfy it passes the check: [validateToken] goes on to
    acquire the transport and to ask for the profile, and succeeds when
    the service accepts.  When [second] is the current second of the
    clock, a token with [exp = second + 91] passes and one with
    [exp = second + 89] is rejected. *)
Theorem expired_token_is_rejected_offline (E : env) (token : string) (seconds : Z) :
  token <> EmptyString ->
  JSON_parse_atob E token = inr {| exp := Some seconds |} ->
  let rejected :=
    (forall cfg w,
       Multi.validateToken cfg E token w
       = (Ret false,
          {| currentIndex := currentIndex w; chosen := chosen w; trace := trace w;
             errors := errors w ++ ["Token validation failed: Token expired"%string] |})) /\
    (forall cfg w,
       Single.token cfg = token ->
       Single.validateToken cfg E w
       = (Throw "Token expired",
          {| currentIndex := currentIndex w; chosen := chosen w; trace := trace w;
             errors := errors w ++ ["Token validation failed: Token expired"%string] |})) in
  let passed :=
    (forall cfg w via w1 status body,
       Multi.getProxyAgent cfg E (Multi.maxRetries cfg) w = (Ret via, w1) ->
       profile_response E (count is_profile (trace w1)) = Response true status body ->
       Multi.validateToken cfg E token w
       = (Ret true,
          {| currentIndex := currentIndex w1; chosen := chosen w1;
             trace := trace w1 ++ [GetProfile via]; errors := errors w1 |})) /\
    (forall cfg w via w1 status body,
       Single.token cfg = token ->
       Single.getProxyAgent cfg E (Single.maxRetries cfg) w = (Ret via, w1) ->
       profile_response E (count is_profile (trace w1)) = Response true status body ->
       Single.validateToken cfg E w
       = (Ret tt,
          {| currentIndex := currentIndex w1; chosen := chosen w1;
             trace := trace w1 ++ [GetProfile via]; errors := errors w1 |})) in
  ((seconds - 90) * 1000 < Date_now E -> rejected) /\
  (Date_now E <= (seconds - 90) * 1000 -> passed) /\
  (forall second,
     second * 1000 <= Date_now E < (second + 1) * 1000 ->
     (seconds = second + 91 -> passed) /\
     (seconds = second + 89 -> rejected)).
Proof.
  intros Hne Hdecode rejected passed.
  assert (Hnonempty : String.eqb token EmptyString = false) by now apply String.eqb_neq.
  assert (Hreject : (seconds - 90) * 1000 < Date_now E -> rejected).
  { intros Hpast.
    assert (Hexp : expired E {| exp := Some seconds |} = true) by now apply expired_iff.
    split.
    - intros cfg w. unfold Multi.validateToken. rewrite Hnonempty.
      unfold try_catch, checkToken. unfold bind at 1. unfold bind at 1.
      rewrite Hdecode. unfold ret at 1. unfold bind at 1. now rewrite Hexp.
    - intros cfg w Htoken. unfold Single.validateToken. rewrite Htoken, Hnonempty.
      unfold try_catch, checkToken. unfold bind at 1.
      rewrite Hdecode. unfold ret at 1. unfold bind at 1. now rewrite Hexp. }
  assert (Hpass : Date_now E <= (seconds - 90) * 1000 -> passed).
  { intros Hahead.
    assert (Hexp : expired E {| exp := Some seconds |} = false).
    { unfold expired. simpl. apply Z.ltb_ge. exact Hahead. }
    split.
    - intros cfg w via w1 status body Hacquire Hprofile.
      unfold Multi.validateToken. rewrite Hnonempty.
      unfold try_catch, checkToken. unfold bind at 1. unfold bind at 1.
      rewrite Hdecode. unfold ret at 1. unfold bind at 1. rewrite Hexp.
      unfold ret at 1. unfold bind at 1. rewrite Hacquire.
      unfold bind at 1. unfold get at 1. rewrite Hprofile. reflexivity.
    - intros cfg w via w1 status body Htoken Hacquire Hprofile.
      unfold Single.validateToken. rewrite Htoken, Hnonempty.
      unfold try_catch, checkToken. unfold bind at 1.
      rewrite Hdecode. unfold ret at 1. unfold bind at 1. rewrite Hexp.
      unfold ret at 1. unfold bind at 1. rewrite Hacquire.
      unfold bind at 1. unfold get at 1. rewrite Hprofile. reflexivity. }
  split; [exact Hreject|]. split; [exact Hpass|].
  intros second [Hlo Hhi]. split; intros ->.
  - apply Hpass. lia.
  - apply Hreject. lia.
Qed.

Lemma expired_token_is_rejected_offline_witness :
  Single.validateToken three_proxies late_token (fresh 0)
  = (Throw "Token expired",
     {| currentIndex := 0; chosen := None; trace := [];
        errors := ["Token validation failed: Token expired"%string] |}) /\
  Multi.validateToken direct timely_token "header.payload.signature" (fresh 0)
  = (Ret true,
     {| currentIndex := 0; chosen := None; trace := [GetProfile None]; errors := [] |}).
Proof.
  split.
  - destruct (expired_token_is_rejected_offline late_token "header.payload.signature"
                1700000089) as (_ & _ & Hedge);
      [discriminate | reflexivity |].
    destruct (Hedge 1700000000) as [_ Hlate]; [simpl; lia|].
    destruct (Hlate eq_refl) as [_ Hsingle].
    exact (Hsingle three_proxies (fresh 0) eq_refl).
  - destruct (expired_token_is_rejected_offline timely_token "header.payload.signature"
                1700000091) as (_ & _ & Hedge);
      [discriminate | reflexivity |].
    destruct (Hedge 1700000000) as [Hearly _]; [simpl; lia|].
    destruct (Hearly eq_refl) as [Hmulti _].
    exact (Hmulti direct (fresh 0) None (fresh 0) 200
             (Some {| data := Some (None, None) |}) eq_refl eq_refl).
Defined.

(** ** The generated location *)

Lemma nearest_even_cases (x : Q) :
  nearest_even x = Qfloor x \/ nearest_even x = Qfloor x + 1.
Proof.
  unfold nearest_even. destruct (_ ?= _)%Q; [destruct (Z.even _)| |]; auto.
Qed.

Lemma floor_gap (x : Q) :
  (0 <= x - inject_Z (Qfloor x))%Q /\ (x - inject_Z (Qfloor x) < 1)%Q.
Proof.
  pose proof (Qfloor_le x) as H1. pose proof (Qlt_floor x) as H2.
  rewrite inject_Z_plus in H2. change (inject_Z 1) with 1%Q in H2. split; lra.
Qed.

Lemma nearest_even_near (x : Q) :
  (x - (1 # 2) <= inject_Z (nearest_even x))%Q /\
  (inject_Z (nearest_even x) <= x + (1 # 2))%Q.
Proof.
  destruct (floor_gap x) as [H1 H2]. unfold nearest_even.
  destruct (x - inject_Z (Qfloor x) ?= 1 # 2)%Q eqn:Hc.
  - apply Qeq_alt in Hc.
    destruct (Z.even _); rewrite ?inject_Z_plus; change (inject_Z 1) with 1%Q;
      split; lra.
  - apply Qlt_alt in Hc. split; lra.
  - apply Qgt_alt in Hc. rewrite inject_Z_plus. change (inject_Z 1) with 1%Q.
    split; lra.
Qed.

Lemma nearest_even_mono (x y : Q) :
  (x <= y)%Q -> nearest_even x <= nearest_even y.
Proof.
  intros Hxy. pose proof (Qfloor_resp_le x y Hxy) as Hf.
  destruct (Z.eq_dec (Qfloor x) (Qfloor y)) as [Heq|Hne].
  - unfold nearest_even. rewrite <- Heq.
    destruct (x - inject_Z (Qfloor x) ?= 1 # 2)%Q eqn:Hx;
      destruct (y - inject_Z (Qfloor x) ?= 1 # 2)%Q eqn:Hy;
      first [apply Qeq_alt in Hx | apply Qlt_alt in Hx | apply Qgt_alt in Hx];
      first [apply Qeq_alt in Hy | apply Qlt_alt in Hy | apply Qgt_alt in Hy];
      try destruct (Z.even (Qfloor x)); try lia; exfalso; lra.
  - destruct (nearest_even_cases x) as [-> | ->];
      destruct (nearest_even_cases y) as [-> | ->]; lia.
Qed.

Lemma nearest_even_int (k : Z) : nearest_even (inject_Z k) = k.
Proof.
  unfold nearest_even. rewrite Qfloor_Z.
  assert (H : (inject_Z k - inject_Z k ?= 1 # 2)%Q = Lt).
  { apply (proj1 (Qlt_alt _ _)). generalize (inject_Z k). intros q. lra. }
  now rewrite H.
Qed.

Lemma pow2_pos (e : Z) : (0 < 2 ^ e)%Q.
Proof. apply Qpower_0_lt. reflexivity. Qed.

Lemma pow2_plus (a b : Z) : (2 ^ (a + b) == 2 ^ a * 2 ^ b)%Q.
Proof. apply Qpower_plus. discriminate. Qed.

Lemma pow2_le (a b : Z) : a <= b -> (2 ^ a <= 2 ^ b)%Q.
Proof. intros H. apply Qpower_le_compat_l; [exact H | discriminate]. Qed.

Lemma pow2_lt_inv (a b : Z) : (2 ^ a < 2 ^ b)%Q -> a < b.
Proof. intros H. apply (Qpower_lt_compat_l_inv 2); [exact H | reflexivity]. Qed.

Lemma pow2_Z (a : Z) : 0 <= a -> (inject_Z (2 ^ a) == 2 ^ a)%Q.
Proof. intros H. now rewrite Zpower_Qpower. Qed.

Lemma ilog2_spec (x : Q) :
  (0 < x)%Q -> (2 ^ ilog2 x <= x)%Q /\ (x < 2 ^ (ilog2 x + 1))%Q.
Proof.
  intros Hx. destruct x as [p q]. 
  assert (Hp : 0 < p).
  { unfold Qlt in Hx. simpl in Hx. lia. }
  unfold ilog2. cbn [Qnum Qden].
  set (a := Z.log2 p). set (b := Z.log2 (Z.pos q)).
  assert (Ha : 0 <= a) by apply Z.log2_nonneg.
  assert (Hb : 0 <= b) by apply Z.log2_nonneg.
  destruct (Z.log2_spec p Hp) as [Ha1 Ha2]. fold a in Ha1, Ha2.
  destruct (Z.log2_spec (Z.pos q) (Pos2Z.is_pos q)) as [Hb1 Hb2]. fold b in Hb1, Hb2.
  assert (Hform : (p # q == inject_Z p / inject_Z (Z.pos q))%Q) by apply Qmake_Qdiv.
  assert (Hq : (0 < inject_Z (Z.pos q))%Q).
  { rewrite <- (Zlt_Qlt 0). lia. }
  assert (HP : (0 < inject_Z p)%Q).
  { rewrite <- (Zlt_Qlt 0). lia. }
  assert (HA1 : (2 ^ a <= inject_Z p)%Q).
  { rewrite <- pow2_Z by lia. now rewrite <- Zle_Qle. }
  assert (HA2 : (inject_Z p < 2 ^ (a + 1))%Q).
  { rewrite <- pow2_Z by lia. rewrite <- Zlt_Qlt. exact Ha2. }
  assert (HB1 : (2 ^ b <= inject_Z (Z.pos q))%Q).
  { rewrite <- pow2_Z by lia. now rewrite <- Zle_Qle. }
  assert (HB2 : (inject_Z (Z.pos q) < 2 ^ (b + 1))%Q).
  { rewrite <- pow2_Z by lia. rewrite <- Zlt_Qlt. exact Hb2. }
  pose proof (pow2_pos b) as Hb0. pose proof (pow2_pos a) as Ha0.
  destruct (Qle_bool (2 ^ (a - b)) (p # q)) eqn:Hc.
  - apply Qle_bool_iff in Hc. split; [exact Hc|].
    rewrite Hform. apply Qlt_shift_div_r; [exact Hq|].
    replace (a - b + 1) with ((a + 1) + - b) by lia.
    rewrite pow2_plus, Qpower_opp.
    apply Qlt_le_trans with (2 ^ (a + 1))%Q; [exact HA2|].
    assert (H1 : (2 ^ (a + 1) == 2 ^ (a + 1) * / 2 ^ b * 2 ^ b)%Q) by (field; lra).
    rewrite H1 at 1. apply Qmult_le_l; [|exact HB1].
    apply Qmult_lt_0_compat; [apply pow2_pos | apply Qinv_lt_0_compat, pow2_pos].
  - split.
    + rewrite Hform. apply Qle_shift_div_l; [exact Hq|].
      replace (a - b - 1) with (a + - (b + 1)) by lia.
      rewrite pow2_plus, Qpower_opp.
      apply Qle_trans with (2 ^ a)%Q; [|exact HA1].
      pose proof (pow2_pos (b + 1)) as Hb10.
      assert (H1 : (2 ^ a == 2 ^ a * / 2 ^ (b + 1) * 2 ^ (b + 1))%Q) by (field; lra).
      rewrite H1 at 2. apply Qmult_le_l; [|lra].
      apply Qmult_lt_0_compat; [apply pow2_pos | apply Qinv_lt_0_compat, pow2_pos].
    + replace (a - b - 1 + 1) with (a - b) by lia.
      apply Qnot_le_lt. intros Hle. apply Qle_bool_iff in Hle. congruence.
Qed.

Lemma ilog2_mono (x y : Q) : (0 < x)%Q -> (x <= y)%Q -> ilog2 x <= ilog2 y.
Proof.
  intros Hx Hxy.
  destruct (ilog2_spec x Hx) as [Hx1 _].
  destruct (ilog2_spec y) as [_ Hy2]; [lra|].
  assert (H : ilog2 x < ilog2 y + 1) by (apply pow2_lt_inv; lra).
  lia.
Qed.

Lemma nearest64_form (x : Q) :
  ~ (x == 0)%Q ->
  (nearest64 x == inject_Z (nearest_even (x / 2 ^ exponent64 x)) * 2 ^ exponent64 x)%Q.
Proof.
  intros Hx. unfold nearest64. destruct (Qeq_bool x 0) eqn:H.
  - apply Qeq_bool_iff in H. contradiction.
  - apply Qred_correct.
Qed.

Lemma Qabs_of_pos (x : Q) : (0 < x)%Q -> Qabs x = x.
Proof.
  destruct x as [p q]. unfold Qlt. simpl. intros H. unfold Qabs.
  f_equal. apply Z.abs_eq. lia.
Qed.

Lemma exponent64_mono (x y : Q) :
  (0 < x)%Q -> (x <= y)%Q -> exponent64 x <= exponent64 y.
Proof.
  intros Hx Hxy. unfold exponent64.
  rewrite (Qabs_of_pos x Hx), (Qabs_of_pos y) by lra.
  pose proof (ilog2_mono x y Hx Hxy). lia.
Qed.

Lemma scaled_below (x : Q) : (0 < x)%Q -> (x / 2 ^ exponent64 x < 2 ^ 53)%Q.
Proof.
  intros Hx. apply Qlt_shift_div_r; [apply pow2_pos|].
  rewrite <- pow2_plus.
  destruct (ilog2_spec x Hx) as [_ H].
  apply Qlt_le_trans with (1 := H). apply pow2_le.
  unfold exponent64. rewrite (Qabs_of_pos x Hx). lia.
Qed.

Lemma scaled_above (x : Q) :
  (0 < x)%Q -> -1074 < exponent64 x -> (2 ^ 52 <= x / 2 ^ exponent64 x)%Q.
Proof.
  intros Hx He. apply Qle_shift_div_l; [apply pow2_pos|].
  rewrite <- pow2_plus.
  destruct (ilog2_spec x Hx) as [H _].
  apply Qle_trans with (2 := H). apply pow2_le.
  unfold exponent64 in *. rewrite (Qabs_of_pos x Hx) in *. lia.
Qed.

Lemma scaled_pos (x : Q) (e : Z) : (0 <= x)%Q -> (0 <= x / 2 ^ e)%Q.
Proof.
  intros Hx. apply Qle_shift_div_l; [apply pow2_pos | lra].
Qed.

Lemma nearest64_nonneg (x : Q) : (0 <= x)%Q -> (0 <= nearest64 x)%Q.
Proof.
  intros Hx. unfold nearest64. destruct (Qeq_bool x 0); [lra|].
  rewrite Qred_correct. apply Qmult_le_0_compat; [|apply Qlt_le_weak, pow2_pos].
  rewrite <- (Zle_Qle 0). rewrite <- (nearest_even_int 0).
  apply nearest_even_mono. now apply scaled_pos.
Qed.

Lemma nearest64_mono (x y : Q) :
  (0 <= x)%Q -> (x <= y)%Q -> (nearest64 x <= nearest64 y)%Q.
Proof.
  intros Hx Hxy.
  destruct (Qeq_dec x 0) as [Hx0|Hx0].
  - assert (Hz : nearest64 x = 0%Q).
    { unfold nearest64. apply Qeq_bool_iff in Hx0. now rewrite Hx0. }
    rewrite Hz. apply nearest64_nonneg. lra.
  - assert (Hxp : (0 < x)%Q).
    { destruct (Qlt_le_dec 0 x) as [H|H]; [exact H|]. exfalso. apply Hx0. lra. }
    assert (Hyp : (0 < y)%Q) by lra.
    assert (Hy0 : ~ (y == 0)%Q) by lra.
    rewrite (nearest64_form x Hx0), (nearest64_form y Hy0).
    pose proof (exponent64_mono x y Hxp Hxy) as He.
    set (ex := exponent64 x) in *. set (ey := exponent64 y) in *.
    pose proof (pow2_pos ex) as Hpx. pose proof (pow2_pos ey) as Hpy.
    destruct (Z.eq_dec ex ey) as [Heq|Hne].
    + rewrite <- Heq. apply Qmult_le_compat_r; [|lra].
      rewrite <- Zle_Qle. apply nearest_even_mono.
      apply Qmult_le_compat_r; [exact Hxy|].
      apply Qlt_le_weak, Qinv_lt_0_compat, Hpx.
    + assert (Hlt : ex < ey) by lia.
      assert (Hex : -1074 <= ex).
      { unfold ex, exponent64. lia. }
      apply Qle_trans with (2 ^ 53 * 2 ^ ex)%Q.
      * apply Qmult_le_compat_r; [|lra].
        change (2 ^ 53)%Q with (inject_Z (2 ^ 53)).
        rewrite <- Zle_Qle. rewrite <- (nearest_even_int (2 ^ 53)).
        apply nearest_even_mono. apply Qlt_le_weak.
        change (inject_Z (2 ^ 53)) with (2 ^ 53)%Q. now apply scaled_below.
      * apply Qle_trans with (2 ^ 52 * 2 ^ ey)%Q.
        -- rewrite <- !pow2_plus. apply pow2_le. lia.
        -- apply Qmult_le_compat_r; [|lra].
           change (2 ^ 52)%Q with (inject_Z (2 ^ 52)).
           rewrite <- Zle_Qle. rewrite <- (nearest_even_int (2 ^ 52)) at 1.
           apply nearest_even_mono.
           change (inject_Z (2 ^ 52)) with (2 ^ 52)%Q.
           apply scaled_above; [exact Hyp | fold ey; lia].
Qed.

Lemma Math_round_mono (x y : Q) : (x <= y)%Q -> Math_round x <= Math_round y.
Proof.
  intros H. unfold Math_round. apply Qfloor_resp_le. lra.
Qed.

(** The integer [Math.round] yields for a coordinate grows with the draw. *)
Lemma coordinate_mono (lo span r1 r2 : Q) :
  (0 <= lo)%Q -> (0 <= span)%Q -> (0 <= r1)%Q -> (r1 <= r2)%Q ->
  Math_round (mul64 (add64 lo (mul64 r1 span)) 1000000)
  <= Math_round (mul64 (add64 lo (mul64 r2 span)) 1000000).
Proof.
  intros Hlo Hspan Hr1 Hr12. unfold add64, mul64.
  assert (H1 : (0 <= r1 * span)%Q) by now apply Qmult_le_0_compat.
  assert (H2 : (r1 * span <= r2 * span)%Q) by now apply Qmult_le_compat_r.
  pose proof (nearest64_nonneg _ H1) as H3.
  pose proof (nearest64_mono _ _ H1 H2) as H4.
  assert (H5 : (0 <= lo + nearest64 (r1 * span))%Q) by lra.
  assert (H6 : (lo + nearest64 (r1 * span) <= lo + nearest64 (r2 * span))%Q) by lra.
  pose proof (nearest64_nonneg _ H5) as H7.
  pose proof (nearest64_mono _ _ H5 H6) as H8.
  apply Math_round_mono, nearest64_mono; lra.
Qed.

Lemma coordinate_between (lo hi r : Q) (least most : Z) :
  (0 <= lo)%Q -> (0 <= sub64 hi lo)%Q ->
  Math_round (mul64 (add64 lo (mul64 0 (sub64 hi lo))) 1000000) = least ->
  Math_round (mul64 (add64 lo (mul64 1 (sub64 hi lo))) 1000000) = most ->
  (0 <= r)%Q -> (r < 1)%Q ->
  exists k,
    least <= k <= most /\
    round6 (add64 lo (mul64 r (sub64 hi lo))) = nearest64 (inject_Z k / 1000000).
Proof.
  intros Hlo Hspan Hleast Hmost Hr0 Hr1.
  exists (Math_round (mul64 (add64 lo (mul64 r (sub64 hi lo))) 1000000)).
  split; [|reflexivity]. split.
  - rewrite <- Hleast. apply coordinate_mono; lra.
  - rewrite <- Hmost. apply coordinate_mono; lra.
Qed.

Lemma millionths_between (lo hi : Q) (least most k : Z) :
  (0 <= lo)%Q ->
  (lo <= inject_Z least / 1000000)%Q -> (inject_Z most / 1000000 <= hi)%Q ->
  least <= k <= most ->
  (nearest64 lo <= nearest64 (inject_Z k / 1000000))%Q /\
  (nearest64 (inject_Z k / 1000000) <= nearest64 hi)%Q.
Proof.
  intros Hlo Hleast Hmost [Hk1 Hk2].
  assert (H1 : (inject_Z least / 1000000 <= inject_Z k / 1000000)%Q).
  { apply Qmult_le_compat_r; [now rewrite <- Zle_Qle | discriminate]. }
  assert (H2 : (inject_Z k / 1000000 <= inject_Z most / 1000000)%Q).
  { apply Qmult_le_compat_r; [now rewrite <- Zle_Qle | discriminate]. }
  split; apply nearest64_mono; lra.
Qed.

(** C9. In binary64, as the program computes: for draws of
    [Math.random()] in [0, 1) the generated point has its latitude between
    the numbers that the literals [18.0] and [53.55] denote, and its
    longitude between those of [73.66] and [135.05].  Each coordinate is
    rounded to 6 decimals: it is the binary64 number nearest to a whole
    number of millionths, which lies within the decimal bounds. *)
Theorem location_within_bounds (random1 random2 : Q) :
  (0 <= random1)%Q -> (random1 < 1)%Q ->
  (0 <= random2)%Q -> (random2 < 1)%Q ->
  let point := generateRandomLocation random1 random2 in
  (nearest64 18 <= latitude point)%Q /\ (latitude point <= nearest64 53.55)%Q /\
  (nearest64 73.66 <= longitude point)%Q /\ (longitude point <= nearest64 135.05)%Q /\
  (exists k, 18000000 <= k <= 53550000 /\
             latitude point = nearest64 (inject_Z k / 1000000)) /\
  (exists k, 73660000 <= k <= 135050000 /\
             longitude point = nearest64 (inject_Z k / 1000000)).
Proof.
  intros Ha0 Ha1 Hb0 Hb1 point.
  destruct (coordinate_between minLat maxLat random1 18000000 53550000)
    as (k1 & Hk1 & Hlat);
    [now vm_compute | now vm_compute | now vm_compute | now vm_compute
    | exact Ha0 | exact Ha1 |].
  destruct (coordinate_between minLng maxLng random2 73660000 135050000)
    as (k2 & Hk2 & Hlng);
    [now vm_compute | now vm_compute | now vm_compute | now vm_compute
    | exact Hb0 | exact Hb1 |].
  change (latitude point)
    with (round6 (add64 minLat (mul64 random1 (sub64 maxLat minLat)))).
  change (longitude point)
    with (round6 (add64 minLng (mul64 random2 (sub64 maxLng minLng)))).
  rewrite Hlat, Hlng.
  destruct (millionths_between 18 53.55 18000000 53550000 k1) as [H1 H2];
    [now vm_compute | now vm_compute | now vm_compute | exact Hk1 |].
  destruct (millionths_between 73.66 135.05 73660000 135050000 k2) as [H3 H4];
    [now vm_compute | now vm_compute | now vm_compute | exact Hk2 |].
  split; [exact H1|]. split; [exact H2|]. split; [exact H3|]. split; [exact H4|].
  split; [now exists k1 | now exists k2].
Qed.

Lemma location_within_bounds_witness :
  let point := generateRandomLocation (7 # 32) (5 # 32) in
  (nearest64 18 <= latitude point)%Q /\ (latitude point <= nearest64 53.55)%Q /\
  (nearest64 73.66 <= longitude point)%Q /\ (longitude point <= nearest64 135.05)%Q /\
  latitude point = nearest64 25.776562 /\ longitude point = nearest64 83.252187.
Proof.
  destruct (location_within_bounds (7 # 32) (5 # 32))
    as (H1 & H2 & H3 & H4 & _); try reflexivity; try discriminate.
  split; [exact H1|]. split; [exact H2|]. split; [exact H3|]. split; [exact H4|].
  split; vm_compute; reflexivity.
Defined.

(** ** What a computation may do to the trace *)

Lemma grows_refl (w : world) : grows w w.
Proof. exists []. split; [now rewrite app_nil_r | constructor]. Qed.

Lemma grows_trans (w1 w2 w3 : world) : grows w1 w2 -> grows w2 w3 -> grows w1 w3.
Proof.
  intros (e1 & H1 & F1) (e2 & H2 & F2). exists (e1 ++ e2). split.
  - now rewrite H2, H1, app_assoc.
  - apply Forall_app. now split.
Qed.

Lemma grows_sockets (w w' : world) :
  grows w w' -> count is_socket (trace w') = count is_socket (trace w).
Proof.
  intros (ext & -> & Hext). rewrite count_app.
  assert (Hzero : count is_socket ext = 0%nat).
  { unfold count. induction Hext as [|a ext Ha _ IH]; [reflexivity|].
    simpl. unfold not_socket in Ha. now rewrite Ha. }
  lia.
Qed.

Lemma grows_In (w w' : world) (a : action) : grows w w' -> In a (trace w) -> In a (trace w').
Proof. intros (ext & -> & _) Hin. apply in_or_app. now left. Qed.

Lemma safe_calm {A} (c : M A) : safe c -> calm c.
Proof.
  intros H w. destruct (H w) as [Hg [a Ha]]. split; [exact Hg|].
  intros h. rewrite Ha. discriminate.
Qed.

Lemma safe_ret {A} (a : A) : safe (ret a).
Proof. intros w. split; [apply grows_refl | now exists a]. Qed.

Lemma calm_throw {A} (message : string) : calm (@throw A message).
Proof. intros w. split; [apply grows_refl | discriminate]. Qed.

Lemma safe_get : safe get.
Proof. intros w. split; [apply grows_refl | now exists w]. Qed.

Lemma safe_log_error (line : string) : safe (log_error line).
Proof.
  intros w. split; [|now exists tt].
  exists []. split; [simpl; now rewrite app_nil_r | constructor].
Qed.

Lemma safe_emit (a : action) : not_socket a -> safe (emit a).
Proof.
  intros Ha w. split; [|now exists tt].
  exists [a]. split; [reflexivity | now constructor].
Qed.

Lemma calm_bind {A B} (c : M A) (k : A -> M B) :
  calm c -> (forall a, calm (k a)) -> calm (bind c k).
Proof.
  intros Hc Hk w. unfold bind. destruct (Hc w) as [Hg Hh].
  destruct (c w) as [[a|m|h] w1]; simpl in *.
  - destruct (Hk a w1) as [Hg1 Hh1]. split; [now apply grows_trans with w1 | exact Hh1].
  - split; [exact Hg | discriminate].
  - now destruct (Hh h).
Qed.

Lemma safe_bind {A B} (c : M A) (k : A -> M B) :
  safe c -> (forall a, safe (k a)) -> safe (bind c k).
Proof.
  intros Hc Hk w. unfold bind. destruct (Hc w) as [Hg [a Ha]].
  destruct (c w) as [[a'|m|h] w1]; simpl in *; try discriminate.
  destruct (Hk a' w1) as [Hg1 Hr1]. split; [now apply grows_trans with w1 | exact Hr1].
Qed.

Lemma safe_try_catch {A} (c : M A) (handler : string -> M A) :
  calm c -> (forall message, safe (handler message)) -> safe (try_catch c handler).
Proof.
  intros Hc Hh w. unfold try_catch. destruct (Hc w) as [Hg Hn].
  destruct (c w) as [[a|m|h] w1]; simpl in *.
  - split; [exact Hg | now exists a].
  - destruct (Hh m w1) as [Hg1 Hr1]. split; [now apply grows_trans with w1 | exact Hr1].
  - now destruct (Hn h).
Qed.

Lemma safe_try {A} (c : M A) (handler : string -> M A) :
  safe c -> safe (try_catch c handler).
Proof.
  intros Hc w. unfold try_catch. destruct (Hc w) as [Hg [a Ha]].
  destruct (c w) as [[a'|m|h] w1]; simpl in *; try discriminate.
  split; [exact Hg | now exists a'].
Qed.

Lemma calm_try_catch {A} (c : M A) (handler : string -> M A) :
  calm c -> (forall message, calm (handler message)) -> calm (try_catch c handler).
Proof.
  intros Hc Hh w. unfold try_catch. destruct (Hc w) as [Hg Hn].
  destruct (c w) as [[a|m|h] w1]; simpl in *.
  - split; [exact Hg | discriminate].
  - destruct (Hh m w1) as [Hg1 Hr1]. split; [now apply grows_trans with w1 | exact Hr1].
  - now destruct (Hn h).
Qed.

Lemma calm_fetch {A} (request : action) (answer : fetched A) :
  not_socket request -> calm (fetch request answer).
Proof.
  intros Hr. unfold fetch. apply calm_bind; [now apply safe_calm, safe_emit|].
  intros _. destruct answer; [apply calm_throw | apply safe_calm, safe_ret].
Qed.

Lemma calm_json {A} (body : option A) : calm (json body).
Proof. destruct body; [apply safe_calm, safe_ret | apply calm_throw]. Qed.

Ltac calm_steps :=
  repeat match goal with
  | |- forall _, _ => intros
  | |- safe (ret _) => apply safe_ret
  | |- calm (ret _) => apply safe_calm, safe_ret
  | |- calm (throw _) => apply calm_throw
  | |- calm (json _) => apply calm_json
  | |- safe (log_error _) => apply safe_log_error
  | |- calm (log_error _) => apply safe_calm, safe_log_error
  | |- safe get => apply safe_get
  | |- calm get => apply safe_calm, safe_get
  | |- safe (emit _) => apply safe_emit; reflexivity
  | |- calm (emit _) => apply safe_calm, safe_emit; reflexivity
  | |- calm (fetch _ _) => apply calm_fetch; reflexivity
  | |- safe (bind _ _) => apply safe_bind
  | |- calm (bind _ _) => apply calm_bind
  | |- safe (try_catch _ _) => apply safe_try_catch
  | |- calm (try_catch _ _) => apply calm_try_catch
  | |- context [match ?x with _ => _ end] => destruct x
  end.

Section MultiQuiet.

Variable cfg : Multi.config.
Variable E : env.

Lemma createProxyAgent_safe : safe (Multi.createProxyAgent cfg E).
Proof.
  unfold Multi.createProxyAgent, construct.
  destruct (String.eqb (Multi.url cfg) EmptyString); [apply safe_ret|].
  apply safe_try_catch.
  - destruct (new_agent E _); calm_steps.
  - calm_steps.
Qed.

Lemma isProxyAlive_safe (a : agent) : safe (Multi.isProxyAlive E a).
Proof. unfold Multi.isProxyAlive. calm_steps. Qed.

Lemma attempt_safe (retries i : nat) : safe (Multi.attempt cfg E retries i).
Proof.
  unfold Multi.attempt. apply safe_try.
  apply safe_bind; [apply createProxyAgent_safe|].
  intros [a|]; [|apply safe_ret].
  apply safe_bind; [apply isProxyAlive_safe|].
  intros [|]; calm_steps.
Qed.

Lemma getProxyAgent_safe (retries : nat) : safe (Multi.getProxyAgent cfg E retries).
Proof.
  unfold Multi.getProxyAgent. destruct (negb (Multi.enabled cfg)); [apply safe_ret|].
  generalize retries at 1 as remaining. generalize 0%nat as i.
  intros i remaining. revert i.
  induction remaining as [|remaining IH]; intros i; [apply safe_ret|].
  cbn [Multi.attempts_loop]. apply safe_bind; [apply attempt_safe|].
  intros [r|]; [apply safe_ret | apply IH].
Qed.

End MultiQuiet.

Lemma bind_returns {A B} (c : M A) (k : A -> M B) (w w1 : world) (a : A) :
  c w = (Ret a, w1) -> bind c k w = k a w1.
Proof. intros H. unfold bind. now rewrite H. Qed.

Lemma safe_run {A} (c : M A) (w : world) :
  safe c -> exists a w1, c w = (Ret a, w1) /\ grows w w1.
Proof.
  intros H. destruct (H w) as [Hg [a Ha]].
  destruct (c w) as [r w1]; simpl in *. subst r. now exists a, w1.
Qed.

(** ** Discovery, the speed test and the report *)

Section SharedQuiet.

Variable E : env.
Variable proxy_enabled : bool.
Variable getProxyAgent : M (option agent).
Hypothesis acquire_calm : calm getProxyAgent.

Lemma checkToken_calm (token : string) : calm (checkToken E getProxyAgent token).
Proof. unfold checkToken. calm_steps; exact acquire_calm. Qed.

Lemma displayAccountInfo_safe (token : string) :
  safe (displayAccountInfo E getProxyAgent token).
Proof. unfold displayAccountInfo. calm_steps; exact acquire_calm. Qed.

Lemma reportResults_safe (token : string) (sample : SpeedSample) (location : GeoPoint) :
  safe (reportResults E getProxyAgent token sample location).
Proof. unfold reportResults. calm_steps; exact acquire_calm. Qed.

Lemma performSpeedTest_never_throws (w : world) (message : string) :
  fst (performSpeedTest E proxy_enabled getProxyAgent w) <> Throw message.
Proof.
  unfold performSpeedTest, try_catch.
  destruct (speedTest E proxy_enabled getProxyAgent w) as [[s|m|h] w1]; simpl; discriminate.
Qed.

Lemma performSpeedTest_catches (w w1 : world) (message : string) :
  speedTest E proxy_enabled getProxyAgent w = (Throw message, w1) ->
  performSpeedTest E proxy_enabled getProxyAgent w
  = (Ret zero_sample,
     {| currentIndex := currentIndex w1; chosen := chosen w1; trace := trace w1;
        errors := errors w1 ++ [("Speed test error: " ++ message)%string] |}).
Proof. intros H. unfold performSpeedTest, try_catch. now rewrite H. Qed.

Lemma failed_discovery_is_zero (w : world) :
  discovery_failed (locate_response E) = true ->
  exists w1,
    performSpeedTest E proxy_enabled getProxyAgent w = (Ret zero_sample, w1) /\
    grows w w1.
Proof.
  intros Hfail. destruct (acquire_calm w) as [Hg Hn].
  unfold performSpeedTest, try_catch, speedTest. unfold bind at 1.
  destruct (getProxyAgent w) as [[a|m|h] w1]; simpl in Hg, Hn.
  - unfold fetch. step.
    assert (Hstep : grows w {| currentIndex := currentIndex w1; chosen := chosen w1;
                               trace := trace w1 ++ [Locate a]; errors := errors w1 |}).
    { apply grows_trans with w1; [exact Hg|].
      exists [Locate a]. split; [reflexivity | repeat constructor]. }
    destruct (locate_response E) as [m|[|] status [[[[|first others]|]]|]];
      try discriminate; simpl; eexists; (split; [reflexivity|]);
      (eapply grows_trans; [exact Hstep|]);
      (exists []; split; [simpl; now rewrite app_nil_r | constructor]).
  - simpl. eexists. split; [reflexivity|].
    apply grows_trans with w1; [exact Hg|].
    exists []. split; [simpl; now rewrite app_nil_r | constructor].
  - now destruct (Hn h).
Qed.

Lemma reportResults_posts
    (token : string) (sample : SpeedSample) (location : GeoPoint) (w : world) :
  safe getProxyAgent ->
  exists via,
    In (PostPoints (payload sample location) via)
       (trace (snd (reportResults E getProxyAgent token sample location w))).
Proof.
  intros Hsafe. destruct (safe_run getProxyAgent w Hsafe) as (a & w1 & Hrun & _).
  exists a. unfold reportResults, try_catch.
  rewrite (bind_returns _ _ _ _ _ Hrun). unfold fetch. step.
  destruct (points_response E) as [m|[|] status [[[|] reason]|]]; simpl;
    apply in_or_app; right; now left.
Qed.

End SharedQuiet.

Lemma download_error_keeps_speed
    (s s1 : Download.state) (pre rest : list ws_event) (reason : string) :
  Forall (fun e => is_ending e = false) pre ->
  download_listen s pre = inl s1 ->
  exists s', Download.run s (pre ++ WsError reason :: rest) = Ret s' /\
             Download.downloadSpeed s' = Download.downloadSpeed s1.
Proof.
  intros Hpre Hl. rewrite (download_run_listen _ _ _ s1 Hpre Hl). simpl.
  eexists. split; reflexivity.
Qed.

Lemma upload_error_keeps_speed
    (s : Upload.state) (pre rest : list ws_event) (reason : string) :
  Forall (fun e => is_ending e = false) pre ->
  exists s', Upload.run s (pre ++ WsError reason :: rest) = Ret s' /\
             Upload.uploadSpeed s' = Upload.uploadSpeed (upload_listen s pre).
Proof.
  intros Hpre. rewrite (upload_run_listen _ _ _ Hpre). simpl.
  eexists. split; reflexivity.
Qed.

(** C6, as the code has it.  [performSpeedTest] never throws: an exception
    raised in its body (acquiring a proxy, the locate request and its
    checks, reading the server's URLs, constructing a socket) makes it
    return [{downloadSpeed: 0, uploadSpeed: 0}], also when the download had
    already been measured.  A connection error ends a phase with the speed
    computed so far, which is 0 only when none had been computed, and
    whichever way the download phase ended the upload phase runs. *)
Theorem speed_test_degrades_to_zero
    (E : env) (proxy_enabled : bool) (getProxyAgent : M (option agent)) (w : world) :
  let test := performSpeedTest E proxy_enabled getProxyAgent in
  (forall reason, fst (test w) <> Throw reason) /\
  (forall reason w1,
     speedTest E proxy_enabled getProxyAgent w = (Throw reason, w1) ->
     fst (test w) = Ret zero_sample) /\
  (forall s s1 pre rest reason,
     Forall (fun e => is_ending e = false) pre ->
     download_listen s pre = inl s1 ->
     exists s', Download.run s (pre ++ WsError reason :: rest) = Ret s' /\
                Download.downloadSpeed s' = Download.downloadSpeed s1) /\
  (forall s pre rest reason,
     Forall (fun e => is_ending e = false) pre ->
     exists s', Upload.run s (pre ++ WsError reason :: rest) = Ret s' /\
                Upload.uploadSpeed s' = Upload.uploadSpeed (upload_listen s pre)) /\
  (forall a w1 status server others object downloadUrl sd,
     getProxyAgent w = (Ret a, w1) ->
     locate_response E
     = Response true status (Some {| results := Some (Some server :: others) |}) ->
     urls server = Some object ->
     property "wss:///ndt/v7/download" object = Some downloadUrl ->
     Download.phase (download_socket E) = Ret sd ->
     let via := if proxy_enabled then a else None in
     (property "wss:///ndt/v7/upload" object = None ->
      fst (test w) = Ret zero_sample) /\
     (forall uploadUrl su,
        property "wss:///ndt/v7/upload" object = Some uploadUrl ->
        Upload.phase (upload_socket E) = Ret su ->
        fst (test w) = Ret {| downloadSpeed := Download.downloadSpeed sd;
                              uploadSpeed := Upload.uploadSpeed su |} /\
        trace (snd (test w))
        = trace w1 ++ [Locate a; OpenSocket downloadUrl via; OpenSocket uploadUrl via])).
Proof.
  intros test. split; [|split; [|split; [|split]]].
  - intros reason. apply performSpeedTest_never_throws.
  - intros reason w1 H. unfold test.
    now rewrite (performSpeedTest_catches E proxy_enabled getProxyAgent w w1 reason H).
  - intros. eapply download_error_keeps_speed; eassumption.
  - intros. now apply upload_error_keeps_speed.
  - intros a w1 status server others object downloadUrl sd Hrun Hlocate Hurls Hd Hsd via.
    unfold test, performSpeedTest, try_catch, speedTest.
    rewrite (bind_returns _ _ _ _ _ Hrun). unfold fetch. rewrite Hlocate.
    unfold download, upload, open_socket. step. rewrite Hurls. simpl.
    rewrite Hd, Hsd. simpl. split.
    + intros Hu. now rewrite Hu.
    + intros uploadUrl su Hu Hsu. rewrite Hu, Hsu. simpl. split; [reflexivity|].
      now rewrite <- !app_assoc.
Qed.

Lemma speed_test_degrades_to_zero_witness :
  trace (snd (performSpeedTest upload_drops false (Multi.getProxyAgent direct upload_drops 3)
                (fresh 0)))
  = [Locate None; OpenSocket "wss://mlab1-fra01/ndt/v7/download" None;
     OpenSocket "wss://mlab1-fra01/ndt/v7/upload" None].
Proof.
  destruct (speed_test_degrades_to_zero upload_drops false
              (Multi.getProxyAgent direct upload_drops 3) (fresh 0))
    as (_ & _ & _ & _ & Hphases).
  destruct (Hphases None (fresh 0) 200 ndt_server [] _ _ _ eq_refl eq_refl eq_refl eq_refl eq_refl)
    as [_ Hboth].
  destruct (Hboth _ _ eq_refl eq_refl) as [_ Htrace].
  exact Htrace.
Defined.

(** C6 as stated fails: the upload connection errors, and the upload speed
    returned is the 12 Mbps the server had reported, not 0. *)
Lemma connection_error_keeps_estimate :
  In (WsError "read ECONNRESET") (events (upload_socket upload_drops)) /\
  fst (performSpeedTest upload_drops false (Multi.getProxyAgent direct upload_drops 3)
         (fresh 0))
  = Ret {| downloadSpeed := Num (mbps 12500000 (seconds_since 0 10000));
           uploadSpeed := Num (12000000 # 1000000) |} /\
  js_gt (Num (12000000 # 1000000)) (Num 0) = true /\
  fst (performSpeedTest upload_drops false (Multi.getProxyAgent direct upload_drops 3)
         (fresh 0))
  <> Ret zero_sample.
Proof.
  split; [simpl; tauto|]. split; [reflexivity|]. split; [reflexivity|]. discriminate.
Qed.

(** ** One account's cycle *)

Section Cycle.

Variable cfg : Multi.config.
Variable E : env.

Local Abbreviation acquire := (Multi.getProxyAgent cfg E (Multi.maxRetries cfg)).

Lemma acquire_safe : safe acquire.
Proof. apply getProxyAgent_safe. Qed.

Lemma validateToken_calm (token : string) : calm (Multi.validateToken cfg E token).
Proof.
  unfold Multi.validateToken. destruct (String.eqb token EmptyString); [apply calm_throw|].
  apply calm_try_catch.
  - apply calm_bind; [apply checkToken_calm, safe_calm, acquire_safe|].
    intros _. apply safe_calm, safe_ret.
  - calm_steps.
Qed.

Hypothesis no_server : discovery_failed (locate_response E) = true.

Lemma failed_test_safe : safe (performSpeedTest E (Multi.enabled cfg) acquire).
Proof.
  intros w.
  destruct (failed_discovery_is_zero E (Multi.enabled cfg) acquire
              (safe_calm _ acquire_safe) w no_server) as (w1 & Hrun & Hg).
  rewrite Hrun. split; [exact Hg | now exists zero_sample].
Qed.

Lemma processAccount_safe (token : string) (accountIndex : nat) :
  safe (Multi.processAccount cfg E token accountIndex).
Proof.
  unfold Multi.processAccount. cbv zeta.
  apply safe_try_catch; [|calm_steps].
  apply calm_bind; [apply validateToken_calm|].
  intros [|]; simpl negb; cbv iota; [|calm_steps].
  apply calm_bind; [apply safe_calm, displayAccountInfo_safe, safe_calm, acquire_safe|].
  intros _.
  apply calm_bind; [apply safe_calm, failed_test_safe|].
  intros sample.
  apply calm_bind; [apply safe_calm, reportResults_safe, safe_calm, acquire_safe|].
  calm_steps.
Qed.

Lemma processAccount_reports (token : string) (accountIndex : nat) (w : world) :
  fst (Multi.validateToken cfg E token w) = Ret true ->
  exists via,
    In (PostPoints
          (payload zero_sample (generateRandomLocation (Math_random E 0) (Math_random E 1)))
          via)
       (trace (snd (Multi.processAccount cfg E token accountIndex w))).
Proof.
  intros Hvalid.
  destruct (Multi.validateToken cfg E token w) as [r w1] eqn:Hv. simpl in Hvalid. subst r.
  destruct (safe_run _ w1 (displayAccountInfo_safe E acquire
                             (safe_calm _ acquire_safe) token))
    as ([] & w2 & Hdisplay & _).
  destruct (failed_discovery_is_zero E (Multi.enabled cfg) acquire
              (safe_calm _ acquire_safe) w2 no_server) as (w3 & Htest & _).
  set (location := generateRandomLocation (Math_random E 0) (Math_random E 1)).
  destruct (reportResults_posts E acquire token zero_sample location w3 acquire_safe)
    as [via Hin].
  destruct (safe_run _ w3 (reportResults_safe E acquire
                             (safe_calm _ acquire_safe) token zero_sample location))
    as (result & w4 & Hreport & _).
  rewrite Hreport in Hin. simpl in Hin.
  exists via. unfold Multi.processAccount, try_catch. cbv zeta.
  rewrite (bind_returns _ _ _ _ _ Hv). cbn [negb].
  rewrite (bind_returns _ _ _ _ _ Hdisplay).
  rewrite (bind_returns _ _ _ _ _ Htest).
  fold location. rewrite (bind_returns _ _ _ _ _ Hreport).
  destruct result as [[[|] [[|c reason]|]]|]; simpl; exact Hin.
Qed.

End Cycle.

(** C7, as the code has it.  When the locate service answers with a
    non-success status or an empty [results] array, [performSpeedTest]
    opens no measurement connection and returns zero speeds, and the whole
    cycle of the account opens none; the cycle is not aborted: after a
    token that validated, [processAccount] posts a report, with both
    speeds 0. *)
Theorem failed_discovery_reports_zero
    (cfg : Multi.config) (E : env) (token : string) (accountIndex : nat) (w : world) :
  discovery_failed (locate_response E) = true ->
  let acquire := Multi.getProxyAgent cfg E (Multi.maxRetries cfg) in
  let cycle := Multi.processAccount cfg E token accountIndex in
  (forall w0, exists w1,
     performSpeedTest E (Multi.enabled cfg) acquire w0 = (Ret zero_sample, w1) /\
     count is_socket (trace w1) = count is_socket (trace w0)) /\
  count is_socket (trace (snd (cycle w))) = count is_socket (trace w) /\
  (fst (Multi.validateToken cfg E token w) = Ret true ->
   exists via,
     In (PostPoints
           (payload zero_sample (generateRandomLocation (Math_random E 0) (Math_random E 1)))
           via)
        (trace (snd (cycle w)))).
Proof.
  intros Hfail acquire cycle. split; [|split].
  - intros w0.
    destruct (failed_discovery_is_zero E (Multi.enabled cfg) acquire
                (safe_calm _ (acquire_safe cfg E)) w0 Hfail) as (w1 & Hrun & Hg).
    exists w1. split; [exact Hrun | now apply grows_sockets].
  - apply grows_sockets. apply (processAccount_safe cfg E Hfail token accountIndex w).
  - now apply processAccount_reports.
Qed.

Lemma failed_discovery_reports_zero_witness :
  count is_socket
    (trace (snd (Multi.processAccount direct no_servers "header.payload.signature" 0 (fresh 0))))
  = 0%nat /\
  exists via,
    In (PostPoints {| download_speed := round2 (Num 0); upload_speed := round2 (Num 0);
                      report_latitude := round6 35.775; report_longitude := round6 104.355 |}
                   via)
       (trace (snd (Multi.processAccount direct no_servers "header.payload.signature" 0
                      (fresh 0)))).
Proof.
  destruct (failed_discovery_reports_zero direct no_servers "header.payload.signature" 0
              (fresh 0) eq_refl) as (_ & Hquiet & Hreport).
  split; [exact Hquiet|].
  destruct (Hreport eq_refl) as [via Hin]. exists via. exact Hin.
Defined.

(** C7 as stated fails: the locate service returns an empty [results]
    array, and the cycle still posts a report, of zero speeds. *)
Lemma failed_discovery_still_reports :
  locate_response no_servers = Response true 200 (Some {| results := Some [] |}) /\
  Multi.processAccount direct no_servers "header.payload.signature" 0 (fresh 0)
  = (Ret true,
     {| currentIndex := 0;
        chosen := None;
        trace := [GetProfile None; GetProfile None; Locate None;
                  PostPoints {| download_speed := Num 0;
                                upload_speed := Num 0;
                                report_latitude := nearest64 35.775;
                                report_longitude := nearest64 104.355 |} None];
        errors := ["Speed test error: No available speed test server"%string] |}) /\
  count is_report
    (trace (snd (Multi.processAccount direct no_servers "header.payload.signature" 0 (fresh 0))))
  = 1%nat.
Proof. repeat split. Qed.

(** * Further properties *)

(** ** The multi-account client gives up on a dead proxy *)

Section MultiAcquire.

Variable cfg : Multi.config.
Variable E : env.

Local Abbreviation the_agent := (agent_for (Multi.type cfg) (Multi.url cfg)).

Hypothesis has_url : Multi.url cfg <> EmptyString.
Hypothesis builds : new_agent E the_agent = None.

Lemma multi_createProxyAgent_built (w : world) :
  Multi.createProxyAgent cfg E w = (Ret (Some the_agent), w).
Proof.
  unfold Multi.createProxyAgent.
  destruct (String.eqb_spec (Multi.url cfg) EmptyString) as [Heq|_]; [contradiction|].
  step. rewrite builds. now destruct w.
Qed.

Lemma multi_isProxyAlive_spec (a : agent) (w : world) :
  Multi.isProxyAlive E a w
  = (Ret (ok_answer (testUrl_response E (count is_probe (trace w)))),
     snd (emit (Probe a) w)).
Proof.
  unfold Multi.isProxyAlive. step.
  destruct (testUrl_response E (count is_probe (trace w))) as [m|[|] status body];
    reflexivity.
Qed.

Hypothesis dead : forall n, ok_answer (testUrl_response E n) = false.

Lemma multi_attempt_dead (retries i : nat) (w : world) :
  Multi.attempt cfg E retries i w
  = (Ret None,
     {| currentIndex := currentIndex w; chosen := chosen w;
        trace := trace w ++ [Probe the_agent; Sleep (1000 * (Z.of_nat i + 1))];
        errors := errors w |}).
Proof.
  unfold Multi.attempt, try_catch. unfold bind at 1.
  rewrite multi_createProxyAgent_built. unfold bind at 1.
  rewrite multi_isProxyAlive_spec, dead. step. now rewrite <- app_assoc.
Qed.

Lemma multi_loop_dead (remaining retries i : nat) (w : world) :
  Multi.attempts_loop cfg E remaining retries i w
  = (Ret None,
     {| currentIndex := currentIndex w; chosen := chosen w;
        trace := trace w ++ flat_map (fun i => [Probe the_agent; Sleep (1000 * (Z.of_nat i + 1))])
                                     (seq i remaining);
        errors := errors w |}).
Proof.
  revert i w. induction remaining as [|remaining IH]; intros i w.
  - simpl. unfold ret. rewrite app_nil_r. now destruct w.
  - cbn [Multi.attempts_loop]. unfold bind. rewrite multi_attempt_dead, IH.
    simpl. now rewrite <- app_assoc.
Qed.

End MultiAcquire.

(** X1. The multi-account [getProxyAgent], on an enabled proxy whose agent
    can be built and which never answers the liveness request, makes
    [retries] requests, waits 1, 2, ... seconds after them, and then
    returns [undefined] without throwing: its caller goes on without a
    proxy. *)
Theorem multi_acquire_gives_up (cfg : Multi.config) (E : env) (retries : nat) (w : world) :
  Multi.enabled cfg = true ->
  Multi.url cfg <> EmptyString ->
  new_agent E (agent_for (Multi.type cfg) (Multi.url cfg)) = None ->
  (forall n, ok_answer (testUrl_response E n) = false) ->
  Multi.getProxyAgent cfg E retries w
  = (Ret None,
     {| currentIndex := currentIndex w; chosen := chosen w;
        trace := trace w ++
                 flat_map (fun i => [Probe (agent_for (Multi.type cfg) (Multi.url cfg));
                                     Sleep (1000 * (Z.of_nat i + 1))])
                          (seq 0 retries);
        errors := errors w |}).
Proof.
  intros Hen Hurl Hbuilds Hdead. unfold Multi.getProxyAgent. rewrite Hen. simpl.
  now apply multi_loop_dead.
Qed.

Lemma multi_acquire_gives_up_witness :
  Multi.getProxyAgent one_proxy unreachable 3 (fresh 0)
  = (Ret None,
     {| currentIndex := 0; chosen := None;
        trace := [Probe (SocksProxyAgent "socks5://10.0.0.3:1080" 5); Sleep 1000;
                  Probe (SocksProxyAgent "socks5://10.0.0.3:1080" 5); Sleep 2000;
                  Probe (SocksProxyAgent "socks5://10.0.0.3:1080" 5); Sleep 3000];
        errors := [] |}).
Proof.
  apply (multi_acquire_gives_up one_proxy unreachable 3 (fresh 0));
    [reflexivity | discriminate | reflexivity | reflexivity].
Defined.

(** ** The rotation of the single-account client *)

Lemma mod_back (c n : nat) : (c < n)%nat -> ((c + n) mod n)%nat = c.
Proof.
  intros Hc. rewrite <- Nat.Div0.add_mod_idemp_r, Nat.Div0.mod_same, Nat.add_0_r.
  now apply Nat.mod_small.
Qed.

Lemma mod_away (c k n : nat) :
  (c < n)%nat -> (0 < k)%nat -> (k < n)%nat -> ((c + k) mod n)%nat <> c.
Proof.
  intros Hc Hk Hkn. destruct (Nat.lt_ge_cases (c + k) n) as [Hlt|Hge].
  - rewrite Nat.mod_small by exact Hlt. lia.
  - replace (c + k)%nat with ((c + k - n) + 1 * n)%nat by lia.
    rewrite Nat.Div0.mod_add, Nat.mod_small by lia. lia.
Qed.

Lemma lookup_rotation (pool : list proxy) (c o : nat) :
  (o < length pool)%nat ->
  rotate c pool !! o = pool !! ((c + o) mod length pool)%nat.
Proof.
  intros Ho. rewrite lookup_rotate_r by exact Ho. unfold rotate_nat_add.
  now rewrite <- Nat2Z.inj_add, <- Nat2Z.inj_mod, Nat2Z.id.
Qed.

Section SingleAcquire.

Variable cfg : Single.config.
Variable E : env.

Local Abbreviation pool := (Single.proxyList cfg).
Local Abbreviation N := (length (Single.proxyList cfg)).

(** The world after [createProxyAgent] took [p] and the turn went on with
    the actions [ext]. *)
Local Abbreviation turned w p ext :=
  {| currentIndex := (currentIndex w + 1) mod N; chosen := Some p;
     trace := trace w ++ ext; errors := errors w |}.

Lemma createProxyAgent_none (w : world) :
  pool !! currentIndex w = None ->
  exists w', Single.createProxyAgent cfg E w = (Ret None, w') /\ trace w' = trace w.
Proof.
  intros Hnone. unfold Single.createProxyAgent, Single.getNextProxy.
  destruct (N =? 0)%nat; [now exists w|].
  step. rewrite Hnone. eexists. split; reflexivity.
Qed.

Lemma single_attempt_step (initialIndex attempts : nat) (w : world) (p : proxy) :
  pool !! currentIndex w = Some p ->
  new_agent E (agent_of p) = None ->
  Single.attempt cfg E initialIndex attempts w
  = if alive_answer (testUrl_response E (count is_probe (trace w)))
    then (Ret (Some (Some (agent_of p))), turned w p [Probe (agent_of p)])
    else (Ret None,
          turned w p (Probe (agent_of p) ::
                      if ((currentIndex w + 1) mod N =? initialIndex)%nat
                      then [Sleep (1000 * (Z.of_nat (attempts / N) + 1))] else [])).
Proof.
  intros Hp Hnew. unfold Single.attempt, try_catch. unfold bind at 1.
  rewrite (createProxyAgent_built cfg E w p Hp Hnew).
  unfold bind at 1. rewrite isProxyAlive_spec. simpl trace.
  destruct (alive_answer _); step; [reflexivity|].
  destruct ((currentIndex w + 1) mod N =? initialIndex)%nat; simpl;
    now rewrite <- ?app_assoc.
Qed.

Lemma single_attempt_total (initialIndex attempts : nat) (w : world) :
  exists r w',
    Single.attempt cfg E initialIndex attempts w = (Ret r, w') /\
    match r with
    | Some (Some a) =>
        exists p, In p pool /\ a = agent_of p /\ trace w' = trace w ++ [Probe a] /\
                  alive_answer (testUrl_response E (count is_probe (trace w))) = true
    | _ => True
    end.
Proof.
  destruct (pool !! currentIndex w) as [p|] eqn:Hp.
  - destruct (new_agent E (agent_of p)) as [reason|] eqn:Hnew.
    + exists (Some None). eexists. split; [|exact I].
      unfold Single.attempt, try_catch. unfold bind at 1.
      now rewrite (createProxyAgent_failed cfg E w p reason Hp Hnew).
    + rewrite (single_attempt_step initialIndex attempts w p Hp Hnew).
      destruct (alive_answer _) eqn:Halive; do 2 eexists; (split; [reflexivity|]);
        [|exact I].
      exists p. repeat split.
      apply list_elem_of_In. eapply list_elem_of_lookup_2. exact Hp.
  - destruct (createProxyAgent_none w Hp) as (w' & Hrun & _).
    exists (Some None), w'. split; [|exact I].
    unfold Single.attempt, try_catch. unfold bind at 1. now rewrite Hrun.
Qed.

Lemma single_loop_sound (remaining initialIndex attempts : nat) (w w' : world) (a : agent) :
  Single.attempts_loop cfg E remaining initialIndex attempts w = (Ret (Some a), w') ->
  exists p t, In p pool /\ a = agent_of p /\ trace w' = t ++ [Probe a] /\
              alive_answer (testUrl_response E (count is_probe t)) = true.
Proof.
  revert attempts w. induction remaining as [|remaining IH]; intros attempts w Hrun.
  - discriminate Hrun.
  - cbn [Single.attempts_loop] in Hrun. unfold bind in Hrun.
    destruct (single_attempt_total initialIndex attempts w) as (r & w1 & Hstep & Hr).
    rewrite Hstep in Hrun. destruct r as [[b|]|].
    + inversion Hrun; subst. destruct Hr as (p & Hin & -> & Htrace & Halive).
      now exists p, (trace w).
    + discriminate Hrun.
    + eapply IH. exact Hrun.
Qed.

End SingleAcquire.

(** X2. The single-account [getProxyAgent] only ever returns a handle
    that has just passed the liveness check: when it returns an agent, the
    agent was built from an entry of the proxy list and the last thing the
    function did was a liveness request through it that succeeded. *)
Theorem acquired_proxy_passed_its_check
    (cfg : Single.config) (E : env) (retries : nat) (w w' : world) (a : agent) :
  Single.getProxyAgent cfg E retries w = (Ret (Some a), w') ->
  exists p before,
    In p (Single.proxyList cfg) /\
    a = agent_of p /\
    trace w' = before ++ [Probe a] /\
    alive_answer (testUrl_response E (count is_probe before)) = true.
Proof.
  unfold Single.getProxyAgent.
  destruct (negb (Single.enabled cfg) || (length (Single.proxyList cfg) =? 0)%nat);
    [discriminate|].
  unfold bind, get. apply single_loop_sound.
Qed.

Lemma acquired_proxy_passed_its_check_witness :
  exists before,
    trace (snd (Single.getProxyAgent three_proxies (answering unreachable (alive_at 1)) 3
                  (fresh 0)))
    = before ++ [Probe (SocksProxyAgent "socks4://10.0.0.2:1080" 4)] /\
    alive_answer (alive_at 1 (count is_probe before)) = true.
Proof.
  destruct (acquired_proxy_passed_its_check three_proxies
              (answering unreachable (alive_at 1)) 3 (fresh 0)
              {| currentIndex := 2;
                 chosen := Some {| type := socks4; url := "socks4://10.0.0.2:1080" |};
                 trace := [Probe (HttpsProxyAgent "http://10.0.0.1:8080");
                           Probe (SocksProxyAgent "socks4://10.0.0.2:1080" 4)];
                 errors := [] |}
              (SocksProxyAgent "socks4://10.0.0.2:1080" 4) eq_refl)
    as (p & before & _ & _ & Htrace & Halive).
  exists before. split; [exact Htrace | exact Halive].
Defined.

Section SingleRounds.

Variable cfg : Single.config.
Variable E : env.

Local Abbreviation pool := (Single.proxyList cfg).
Local Abbreviation N := (length (Single.proxyList cfg)).

Hypothesis builds : forall p, In p pool -> new_agent E (agent_of p) = None.

Lemma entry_under_cursor (k : nat) :
  (k < N)%nat -> exists p, pool !! k = Some p /\ new_agent E (agent_of p) = None.
Proof.
  intros Hk. destruct (lookup_lt_is_Some_2 pool k Hk) as [p Hp].
  exists p. split; [exact Hp|]. apply builds.
  apply list_elem_of_In. eapply list_elem_of_lookup_2. exact Hp.
Qed.

Lemma single_loop_first_alive (k remaining initialIndex attempts : nat) (w : world) :
  (k < remaining)%nat ->
  (currentIndex w < N)%nat ->
  (forall d, (d < k)%nat ->
             alive_answer (testUrl_response E (count is_probe (trace w) + d)) = false) ->
  alive_answer (testUrl_response E (count is_probe (trace w) + k)) = true ->
  exists p w',
    pool !! ((currentIndex w + k) mod N)%nat = Some p /\
    Single.attempts_loop cfg E remaining initialIndex attempts w
    = (Ret (Some (agent_of p)), w') /\
    count is_probe (trace w') = (count is_probe (trace w) + k + 1)%nat /\
    currentIndex w' = ((currentIndex w + k + 1) mod N)%nat.
Proof.
  revert remaining attempts w.
  induction k as [|k IH]; intros remaining attempts w Hk Hc Hdead Halive;
    (destruct remaining as [|remaining]; [lia|]);
    destruct (entry_under_cursor (currentIndex w) Hc) as (p & Hp & Hnew);
    cbn [Single.attempts_loop]; unfold bind;
    rewrite (single_attempt_step cfg E initialIndex attempts w p Hp Hnew).
  - rewrite Nat.add_0_r in Halive. rewrite Halive.
    exists p. eexists. split; [now rewrite Nat.add_0_r, Nat.mod_small|].
    split; [reflexivity|]. simpl. split.
    + rewrite count_app. unfold count. simpl. lia.
    + now rewrite Nat.add_0_r.
  - specialize (Hdead 0%nat ltac:(lia)) as Hfirst. rewrite Nat.add_0_r in Hfirst.
    rewrite Hfirst.
    set (w1 := {| currentIndex := (currentIndex w + 1) mod N; chosen := Some p;
                  trace := trace w ++ Probe (agent_of p) ::
                           (if ((currentIndex w + 1) mod N =? initialIndex)%nat
                            then [Sleep (1000 * (Z.of_nat (attempts / N) + 1))] else []);
                  errors := errors w |}).
    assert (Hcount : count is_probe (trace w1) = S (count is_probe (trace w))).
    { unfold w1. simpl. rewrite count_app. unfold count.
      destruct ((currentIndex w + 1) mod N =? initialIndex)%nat; simpl; lia. }
    destruct (IH remaining (S attempts) w1) as (q & w' & Hq & Hrun & Hprobes & Hcursor).
    + lia.
    + simpl. apply Nat.mod_upper_bound. lia.
    + intros d Hd. rewrite Hcount.
      replace (S (count is_probe (trace w)) + d)%nat
        with (count is_probe (trace w) + S d)%nat by lia.
      apply Hdead. lia.
    + rewrite Hcount.
      now replace (S (count is_probe (trace w)) + k)%nat
        with (count is_probe (trace w) + S k)%nat by lia.
    + exists q, w'. simpl currentIndex in Hq, Hcursor.
      rewrite Nat.Div0.add_mod_idemp_l in Hq.
      rewrite <- Nat.add_assoc, Nat.Div0.add_mod_idemp_l in Hcursor.
      split; [now replace (currentIndex w + S k)%nat with (currentIndex w + 1 + k)%nat by lia|].
      split; [exact Hrun|]. split; [lia|].
      now replace (currentIndex w + S k + 1)%nat with (currentIndex w + 1 + (k + 1))%nat by lia.
Qed.

Hypothesis dead : forall n, alive_answer (testUrl_response E n) = false.

Local Abbreviation probes l := (map (fun p => Probe (agent_of p)) l).

Lemma partial_sweep (c j rest m o : nat) (w : world) :
  (c < N)%nat ->
  (o + m < N)%nat ->
  currentIndex w = ((c + o) mod N)%nat ->
  exists wm,
    Single.attempts_loop cfg E (m + rest) c (j * N + o) w
    = Single.attempts_loop cfg E rest c (j * N + o + m) wm /\
    currentIndex wm = ((c + o + m) mod N)%nat /\
    trace wm = trace w ++ probes (take m (drop o (rotate c pool))) /\
    errors wm = errors w.
Proof.
  intros Hc. revert o w. induction m as [|m IH]; intros o w Hom Hcursor.
  - exists w. rewrite !Nat.add_0_r. simpl. rewrite app_nil_r. auto.
  - assert (Hin : (currentIndex w < N)%nat)
      by (rewrite Hcursor; apply Nat.mod_upper_bound; lia).
    destruct (entry_under_cursor (currentIndex w) Hin) as (p & Hp & Hnew).
    assert (Hrot : rotate c pool !! o = Some p).
    { rewrite lookup_rotation by lia. now rewrite <- Hcursor. }
    assert (Hnext : ((currentIndex w + 1) mod N)%nat = ((c + (o + 1)) mod N)%nat).
    { rewrite Hcursor, Nat.Div0.add_mod_idemp_l. f_equal. lia. }
    cbn [Nat.add Single.attempts_loop]. unfold bind.
    rewrite (single_attempt_step cfg E c (j * N + o) w p Hp Hnew), dead.
    rewrite Hnext.
    destruct (Nat.eqb_spec ((c + (o + 1)) mod N) c) as [Heq|_].
    { exfalso. revert Heq. apply mod_away; lia. }
    destruct (IH (o + 1)%nat
                 {| currentIndex := (c + (o + 1)) mod N; chosen := Some p;
                    trace := trace w ++ [Probe (agent_of p)]; errors := errors w |})
      as (wm & Hrun & Hcur & Htrace & Herr); [lia | reflexivity |].
    exists wm.
    replace (S (j * N + o))%nat with (j * N + (o + 1))%nat by lia.
    rewrite Hrun. repeat split.
    + f_equal. lia.
    + rewrite Hcur. f_equal. lia.
    + rewrite Htrace. simpl trace. rewrite (drop_S _ _ _ Hrot). simpl.
      rewrite <- app_assoc. simpl. now rewrite Nat.add_1_r.
    + exact Herr.
Qed.

Lemma full_sweep (c j rest : nat) (w : world) :
  (c < N)%nat ->
  currentIndex w = c ->
  exists w',
    Single.attempts_loop cfg E (N + rest) c (j * N) w
    = Single.attempts_loop cfg E rest c (S j * N) w' /\
    currentIndex w' = c /\
    trace w' = trace w ++ sweep pool c j /\
    errors w' = errors w.
Proof.
  intros Hc Hcursor.
  destruct (partial_sweep c j (S rest) (N - 1) 0 w Hc) as (wm & Hrun & Hcur & Htrace & Herr);
    [lia | now rewrite Nat.add_0_r, Nat.mod_small |].
  rewrite !Nat.add_0_r in Hrun, Hcur. simpl drop in Htrace.
  assert (Hin : (currentIndex wm < N)%nat)
    by (rewrite Hcur; apply Nat.mod_upper_bound; lia).
  destruct (entry_under_cursor (currentIndex wm) Hin) as (p & Hp & Hnew).
  assert (Hrot : rotate c pool !! (N - 1)%nat = Some p).
  { rewrite lookup_rotation by lia. now rewrite <- Hcur. }
  assert (Hwrap : ((currentIndex wm + 1) mod N)%nat = c).
  { rewrite Hcur, Nat.Div0.add_mod_idemp_l.
    replace (c + (N - 1) + 1)%nat with (c + N)%nat by lia. now apply mod_back. }
  assert (Hround : ((j * N + (N - 1)) / N)%nat = j).
  { rewrite Nat.div_add_l by lia. rewrite Nat.div_small by lia. lia. }
  replace (N + rest)%nat with (N - 1 + S rest)%nat by lia.
  rewrite Hrun. cbn [Single.attempts_loop]. unfold bind.
  rewrite (single_attempt_step cfg E c (j * N + (N - 1)) wm p Hp Hnew), dead.
  rewrite Hwrap, Nat.eqb_refl, Hround.
  eexists. split.
  - replace (S (j * N + (N - 1)))%nat with (S j * N)%nat by lia. reflexivity.
  - simpl. repeat split; [|exact Herr].
    rewrite Htrace. unfold sweep. rewrite <- app_assoc. f_equal.
    assert (Hall : rotate c pool = take (N - 1) (rotate c pool) ++ [p]).
    { rewrite <- (take_S_r _ _ _ Hrot).
      rewrite take_ge; [reflexivity|]. rewrite length_rotate. lia. }
    rewrite Hall at 2. rewrite map_app. simpl. now rewrite <- app_assoc.
Qed.

Lemma all_sweeps (c rounds j : nat) (w : world) :
  (c < N)%nat ->
  currentIndex w = c ->
  exists w',
    Single.attempts_loop cfg E (rounds * N) c (j * N) w
    = (Throw "All proxies failed after maximum retry attempts", w') /\
    currentIndex w' = c /\
    trace w' = trace w ++ flat_map (sweep pool c) (seq j rounds) /\
    errors w' = errors w.
Proof.
  intros Hc. revert j w. induction rounds as [|rounds IH]; intros j w Hcursor.
  - exists w. simpl. rewrite app_nil_r. auto.
  - destruct (full_sweep c j (rounds * N) w Hc Hcursor) as (w1 & Hrun & Hcur & Htrace & Herr).
    destruct (IH (S j) w1 Hcur) as (w' & Hrest & Hcur' & Htrace' & Herr').
    exists w'. cbn [Nat.mul]. rewrite Hrun, Hrest. repeat split.
    + exact Hcur'.
    + rewrite Htrace', Htrace. cbn [seq flat_map]. now rewrite <- app_assoc.
    + congruence.
Qed.

End SingleRounds.

(** X3. With every agent built and every liveness check failing, the
    single-account [getProxyAgent(retries)] probes the proxies in list
    order starting at the cursor, one full sweep after the other, and
    waits only at the end of a sweep: 1 second after the first, 2 after the
    second, and so on.  It throws after [retries] sweeps, leaving the
    cursor where it was. *)
Theorem acquire_sweeps_with_backoff
    (cfg : Single.config) (E : env) (retries : nat) (w : world) :
  Single.enabled cfg = true ->
  (currentIndex w < length (Single.proxyList cfg))%nat ->
  (forall p, In p (Single.proxyList cfg) -> new_agent E (agent_of p) = None) ->
  (forall n, alive_answer (testUrl_response E n) = false) ->
  exists w',
    Single.getProxyAgent cfg E retries w
    = (Throw "All proxies failed after maximum retry attempts", w') /\
    trace w' = trace w ++
               flat_map (sweep (Single.proxyList cfg) (currentIndex w)) (seq 0 retries) /\
    currentIndex w' = currentIndex w /\
    errors w' = errors w.
Proof.
  intros Hen Hc Hbuilds Hdead. unfold Single.getProxyAgent. rewrite Hen. simpl.
  destruct (Nat.eqb_spec (length (Single.proxyList cfg)) 0) as [H0|_]; [lia|].
  unfold bind, get.
  destruct (all_sweeps cfg E Hbuilds Hdead (currentIndex w) retries 0 w Hc eq_refl)
    as (w' & Hrun & Hcur & Htrace & Herr).
  exists w'. simpl in Hrun. auto.
Qed.

Lemma acquire_sweeps_with_backoff_witness :
  trace (snd (Single.getProxyAgent three_proxies unreachable 2 (fresh 1)))
  = [Probe (SocksProxyAgent "socks4://10.0.0.2:1080" 4);
     Probe (SocksProxyAgent "socks5://10.0.0.3:1080" 5);
     Probe (HttpsProxyAgent "http://10.0.0.1:8080");
     Sleep 1000;
     Probe (SocksProxyAgent "socks4://10.0.0.2:1080" 4);
     Probe (SocksProxyAgent "socks5://10.0.0.3:1080" 5);
     Probe (HttpsProxyAgent "http://10.0.0.1:8080");
     Sleep 2000].
Proof.
  destruct (acquire_sweeps_with_backoff three_proxies unreachable 2 (fresh 1))
    as (w' & Hrun & Htrace & _).
  - reflexivity.
  - simpl. lia.
  - intros p _. unfold agent_of. now destruct (type p).
  - reflexivity.
  - rewrite Hrun. exact Htrace.
Defined.

(** X4. With every agent built, the single-account [getProxyAgent] returns
    the first proxy in rotation order whose liveness check succeeds: when
    the first [k] checks fail and the next succeeds, with [k] below the
    budget of [retries * N], it returns the agent of the entry [k] places
    after the cursor, after [k + 1] liveness requests, and leaves the
    cursor on the entry that follows. *)
Theorem acquire_returns_first_live_proxy
    (cfg : Single.config) (E : env) (retries k : nat) (w : world) :
  Single.enabled cfg = true ->
  (currentIndex w < length (Single.proxyList cfg))%nat ->
  (forall p, In p (Single.proxyList cfg) -> new_agent E (agent_of p) = None) ->
  (k < retries * length (Single.proxyList cfg))%nat ->
  (forall d, (d < k)%nat ->
             alive_answer (testUrl_response E (count is_probe (trace w) + d)) = false) ->
  alive_answer (testUrl_response E (count is_probe (trace w) + k)) = true ->
  exists p w',
    Single.proxyList cfg !! ((currentIndex w + k) mod length (Single.proxyList cfg))%nat
    = Some p /\
    Single.getProxyAgent cfg E retries w = (Ret (Some (agent_of p)), w') /\
    count is_probe (trace w') = (count is_probe (trace w) + k + 1)%nat /\
    currentIndex w'
    = ((currentIndex w + k + 1) mod length (Single.proxyList cfg))%nat.
Proof.
  intros Hen Hc Hbuilds Hk Hdead Halive. unfold Single.getProxyAgent. rewrite Hen. simpl.
  destruct (Nat.eqb_spec (length (Single.proxyList cfg)) 0) as [H0|_]; [lia|].
  unfold bind, get.
  now apply single_loop_first_alive.
Qed.

Lemma acquire_returns_first_live_proxy_witness :
  exists w',
    Single.getProxyAgent three_proxies (answering unreachable (alive_at 4)) 3 (fresh 2)
    = (Ret (Some (HttpsProxyAgent "http://10.0.0.1:8080")), w') /\
    count is_probe (trace w') = 5%nat /\
    currentIndex w' = 1%nat.
Proof.
  destruct (acquire_returns_first_live_proxy three_proxies
              (answering unreachable (alive_at 4)) 3 4 (fresh 2))
    as (p & w' & Hp & Hrun & Hcount & Hcur).
  - reflexivity.
  - simpl. lia.
  - intros p _. unfold agent_of. now destruct (type p).
  - simpl. lia.
  - intros d Hd. simpl. unfold alive_at.
    destruct (Nat.eqb_spec d 4) as [->|_]; [lia | reflexivity].
  - reflexivity.
  - exists w'. simpl in Hp. inversion Hp; subst p. auto.
Defined.

(** ** No request leaves without a proxy *)

Lemma keeps_ret {A} (I : world -> Prop) (a : A) : keeps I (fun _ => True) (ret a).
Proof. intros w Hw. split; [exact Hw | auto]. Qed.

Lemma keeps_throw {A} (I : world -> Prop) (Q : A -> Prop) (reason : string) :
  keeps I Q (throw reason).
Proof. intros w Hw. split; [exact Hw | discriminate]. Qed.

Lemma keeps_halted {A} (I : world -> Prop) (Q : A -> Prop) (h : halt) :
  keeps I Q (halted h).
Proof. intros w Hw. split; [exact Hw | discriminate]. Qed.

Lemma keeps_bind {A B} (I : world -> Prop) (Q1 : A -> Prop) (Q : B -> Prop)
    (c : M A) (k : A -> M B) :
  keeps I Q1 c -> (forall a, Q1 a -> keeps I Q (k a)) -> keeps I Q (bind c k).
Proof.
  intros Hc Hk w Hw. unfold bind. destruct (Hc w Hw) as [Hi Hq].
  destruct (c w) as [[a|m|h] w1]; simpl in *.
  - apply Hk; [now apply Hq | exact Hi].
  - split; [exact Hi | discriminate].
  - split; [exact Hi | discriminate].
Qed.

Lemma keeps_try_catch {A} (I : world -> Prop) (Q : A -> Prop)
    (c : M A) (handler : string -> M A) :
  keeps I Q c -> (forall reason, keeps I Q (handler reason)) -> keeps I Q (try_catch c handler).
Proof.
  intros Hc Hh w Hw. unfold try_catch. destruct (Hc w Hw) as [Hi Hq].
  destruct (c w) as [[a|m|h] w1]; simpl in *.
  - split; [exact Hi | exact Hq].
  - now apply Hh.
  - split; [exact Hi | discriminate].
Qed.

Lemma keeps_any {A} (I : world -> Prop) (Q : A -> Prop) (c : M A) :
  keeps I Q c -> keeps I (fun _ => True) c.
Proof. intros Hc w Hw. split; [now apply Hc | auto]. Qed.

Section Tunnelled.

Variable n : nat.

Lemma keeps_get : keeps (tunnelled n) (fun _ => True) get.
Proof. intros w Hw. split; [exact Hw | auto]. Qed.

Lemma keeps_log_error (line : string) : keeps (tunnelled n) (fun _ => True) (log_error line).
Proof. intros w Hw. split; [exact Hw | auto]. Qed.

Lemma keeps_log_errors (lines : list string) :
  keeps (tunnelled n) (fun _ => True) (log_errors lines).
Proof. intros w Hw. split; [exact Hw | auto]. Qed.

Lemma keeps_emit (a : action) : proxied a -> keeps (tunnelled n) (fun _ => True) (emit a).
Proof.
  intros Ha w [Hc Ht]. split; [|auto]. split; [exact Hc|].
  simpl. apply Forall_app. split; [exact Ht | now constructor].
Qed.

Lemma keeps_fetch {A} (request : action) (answer : fetched A) :
  proxied request -> keeps (tunnelled n) (fun _ => True) (fetch request answer).
Proof.
  intros Hr. unfold fetch. eapply keeps_bind; [now apply keeps_emit|].
  intros _ _. destruct answer; [apply keeps_throw | apply keeps_ret].
Qed.

Lemma keeps_json {A} (body : option A) : keeps (tunnelled n) (fun _ => True) (json body).
Proof. destruct body; [apply keeps_ret | apply keeps_throw]. Qed.

End Tunnelled.

Ltac keeps_steps :=
  repeat match goal with
  | |- forall _, _ => intros
  | |- keeps _ _ (ret _) => apply keeps_ret
  | |- keeps _ _ (throw _) => apply keeps_throw
  | |- keeps _ _ (halted _) => apply keeps_halted
  | |- keeps _ _ (json _) => apply keeps_json
  | |- keeps _ _ (log_error _) => apply keeps_log_error
  | |- keeps _ _ (log_errors _) => apply keeps_log_errors
  | |- keeps _ _ get => apply keeps_get
  | |- keeps _ _ (emit _) => apply keeps_emit; simpl; try assumption
  | |- keeps _ _ (fetch _ _) => apply keeps_fetch; simpl; try assumption
  | |- keeps _ _ (bind _ _) => eapply keeps_bind
  | |- keeps _ _ (try_catch _ _) => apply keeps_try_catch
  | H : keeps _ _ ?c |- keeps _ _ ?c => exact H
  | |- context [match ?x with _ => _ end] => destruct x
  end.

Section SharedTunnelled.

Variable E : env.
Variable n : nat.
Variable getProxyAgent : M (option agent).
Hypothesis acquire_keeps : keeps (tunnelled n) (fun a => a <> None) getProxyAgent.

Lemma checkToken_keeps (token : string) :
  keeps (tunnelled n) (fun _ => True) (checkToken E getProxyAgent token).
Proof. unfold checkToken. keeps_steps. Qed.

Lemma displayAccountInfo_keeps (token : string) :
  keeps (tunnelled n) (fun _ => True) (displayAccountInfo E getProxyAgent token).
Proof. unfold displayAccountInfo. keeps_steps. Qed.

Lemma reportResults_keeps (token : string) (sample : SpeedSample) (location : GeoPoint) :
  keeps (tunnelled n) (fun _ => True) (reportResults E getProxyAgent token sample location).
Proof. unfold reportResults. keeps_steps. Qed.

Lemma performSpeedTest_keeps :
  keeps (tunnelled n) (fun _ => True) (performSpeedTest E true getProxyAgent).
Proof.
  unfold performSpeedTest, speedTest, download, upload, open_socket. keeps_steps.
Qed.

End SharedTunnelled.

Section SingleTunnelled.

Variable cfg : Single.config.
Variable E : env.

Local Abbreviation pool := (Single.proxyList cfg).
Local Abbreviation N := (length (Single.proxyList cfg)).

Hypothesis enabled : Single.enabled cfg = true.
Hypothesis builds : forall p, In p pool -> new_agent E (agent_of p) = None.

Lemma attempts_loop_keeps (remaining initialIndex attempts : nat) :
  keeps (tunnelled N) (fun a => a <> None)
        (Single.attempts_loop cfg E remaining initialIndex attempts).
Proof.
  revert attempts. induction remaining as [|remaining IH]; intros attempts;
    [apply keeps_throw|].
  intros w [Hc Ht]. cbn [Single.attempts_loop]. unfold bind.
  destruct (entry_under_cursor cfg E builds (currentIndex w) Hc) as (p & Hp & Hnew).
  rewrite (single_attempt_step cfg E initialIndex attempts w p Hp Hnew).
  assert (Hnext : ((currentIndex w + 1) mod N < N)%nat)
    by (apply Nat.mod_upper_bound; lia).
  destruct (alive_answer _).
  - simpl. split; [|intros a Ha; inversion Ha; discriminate].
    split; [exact Hnext|]. apply Forall_app. split; [exact Ht | now repeat constructor].
  - apply IH. split; [exact Hnext|]. simpl. apply Forall_app. split; [exact Ht|].
    destruct (_ =? initialIndex)%nat; now repeat constructor.
Qed.

Lemma getProxyAgent_keeps (retries : nat) :
  keeps (tunnelled N) (fun a => a <> None) (Single.getProxyAgent cfg E retries).
Proof.
  unfold Single.getProxyAgent. rewrite enabled. simpl.
  intros w Hw. destruct Hw as [Hc Ht].
  destruct (Nat.eqb_spec N 0) as [H0|_]; [lia|].
  unfold bind, get. apply attempts_loop_keeps. now split.
Qed.

Lemma validateToken_keeps : keeps (tunnelled N) (fun _ => True) (Single.validateToken cfg E).
Proof.
  unfold Single.validateToken. destruct (String.eqb _ _); [apply keeps_throw|].
  apply keeps_try_catch.
  - apply checkToken_keeps, getProxyAgent_keeps.
  - keeps_steps.
Qed.

Lemma main_keeps : keeps (tunnelled N) (fun _ => True) (Single.main cfg E).
Proof.
  pose proof (getProxyAgent_keeps (Single.maxRetries cfg)) as Hacquire.
  unfold Single.main. cbv zeta. rewrite enabled.
  apply keeps_try_catch; [|keeps_steps].
  eapply keeps_bind; [apply validateToken_keeps|]. intros _ _.
  eapply keeps_bind; [now apply displayAccountInfo_keeps|]. intros _ _.
  eapply keeps_bind; [now apply performSpeedTest_keeps|]. intros sample _.
  eapply keeps_bind; [now apply reportResults_keeps|]. intros result _.
  destruct result as [data|]; [|keeps_steps].
  destruct (success data); [now apply displayAccountInfo_keeps|].
  keeps_steps.
Qed.

End SingleTunnelled.

(** X5. In the single-account client with proxying enabled and a list
    whose agents can all be built, a cycle never sends anything without a
    proxy: every profile, locate and report request and every measurement
    connection of [main] goes through an agent, whatever the proxies and
    the services answer.  (When no proxy is alive the requests are not made
    at all.) *)
Theorem cycle_never_goes_direct (cfg : Single.config) (E : env) (w : world) :
  Single.enabled cfg = true ->
  (forall p, In p (Single.proxyList cfg) -> new_agent E (agent_of p) = None) ->
  (currentIndex w < length (Single.proxyList cfg))%nat ->
  Forall proxied (trace w) ->
  Forall proxied (trace (snd (Single.main cfg E w))) /\
  (currentIndex (snd (Single.main cfg E w)) < length (Single.proxyList cfg))%nat.
Proof.
  intros Hen Hbuilds Hc Ht.
  destruct (main_keeps cfg E Hen Hbuilds w (conj Hc Ht)) as [[Hc' Ht'] _].
  now split.
Qed.

Lemma cycle_never_goes_direct_witness :
  trace (snd (Single.main three_proxies good_day (fresh 0)))
  = [Probe (HttpsProxyAgent "http://10.0.0.1:8080");
     GetProfile (Some (HttpsProxyAgent "http://10.0.0.1:8080"));
     Probe (SocksProxyAgent "socks4://10.0.0.2:1080" 4);
     GetProfile (Some (SocksProxyAgent "socks4://10.0.0.2:1080" 4));
     Probe (SocksProxyAgent "socks5://10.0.0.3:1080" 5);
     Locate (Some (SocksProxyAgent "socks5://10.0.0.3:1080" 5));
     OpenSocket "wss://mlab1-fra01/ndt/v7/download"
                (Some (SocksProxyAgent "socks5://10.0.0.3:1080" 5));
     OpenSocket "wss://mlab1-fra01/ndt/v7/upload"
                (Some (SocksProxyAgent "socks5://10.0.0.3:1080" 5));
     Probe (HttpsProxyAgent "http://10.0.0.1:8080");
     PostPoints {| download_speed := round2 (Num (mbps 12500000 (seconds_since 0 10000)));
                   upload_speed := round2 (Num (mbps 12288000 (seconds_since 0 12288)));
                   report_latitude := round6 35.775;
                   report_longitude := round6 104.355 |}
                (Some (HttpsProxyAgent "http://10.0.0.1:8080"));
     Probe (SocksProxyAgent "socks4://10.0.0.2:1080" 4);
     GetProfile (Some (SocksProxyAgent "socks4://10.0.0.2:1080" 4))] /\
  Forall proxied (trace (snd (Single.main three_proxies good_day (fresh 0)))).
Proof.
  split; [reflexivity|].
  apply (cycle_never_goes_direct three_proxies good_day (fresh 0)).
  - reflexivity.
  - intros p _. unfold agent_of. now destruct (type p).
  - simpl. lia.
  - constructor.
Defined.

(** ** The multi-account client: acquisition, validation, rejection *)

Section MultiSteps.

Variable cfg : Multi.config.
Variable E : env.

Lemma multi_attempt_cases (retries i : nat) (w : world) :
  exists r w' ext,
    Multi.attempt cfg E retries i w = (Ret r, w') /\
    trace w' = trace w ++ ext /\
    Forall (fun a => is_acquisition a = true) ext /\
    (count is_probe ext <= 1)%nat.
Proof.
  unfold Multi.attempt, try_catch, Multi.createProxyAgent. unfold bind at 1.
  destruct (String.eqb (Multi.url cfg) EmptyString).
  - exists (Some None), w, []. unfold ret. simpl. rewrite app_nil_r.
    repeat split; [constructor | unfold count; simpl; lia].
  - unfold try_catch, construct. unfold bind at 1.
    destruct (new_agent E _) as [reason|].
    + step. do 2 eexists. exists []. simpl. rewrite app_nil_r.
      repeat split; [constructor | unfold count; simpl; lia].
    + unfold ret at 1. unfold ret at 1. unfold bind at 1.
      rewrite multi_isProxyAlive_spec.
      destruct (ok_answer _); step.
      * do 2 eexists. exists [Probe (agent_for (Multi.type cfg) (Multi.url cfg))].
        repeat split; [repeat constructor | unfold count; simpl; lia].
      * do 2 eexists.
        exists [Probe (agent_for (Multi.type cfg) (Multi.url cfg));
                Sleep (1000 * (Z.of_nat i + 1))].
        repeat split; [now rewrite <- app_assoc | repeat constructor
                      | unfold count; simpl; lia].
Qed.

Lemma multi_loop_cases (remaining retries i : nat) (w : world) :
  exists a w' ext,
    Multi.attempts_loop cfg E remaining retries i w = (Ret a, w') /\
    trace w' = trace w ++ ext /\
    Forall (fun a => is_acquisition a = true) ext /\
    (count is_probe ext <= remaining)%nat.
Proof.
  revert i w. induction remaining as [|remaining IH]; intros i w.
  - exists None, w, []. simpl. rewrite app_nil_r.
    repeat split; [constructor | unfold count; simpl; lia].
  - destruct (multi_attempt_cases retries i w) as (r & w1 & e1 & Hstep & Ht1 & Hf1 & Hc1).
    cbn [Multi.attempts_loop]. unfold bind. rewrite Hstep.
    destruct r as [a|].
    + exists a, w1, e1. repeat split; [exact Ht1 | exact Hf1 | lia].
    + destruct (IH (S i) w1) as (a & w' & e2 & Hrun & Ht2 & Hf2 & Hc2).
      exists a, w', (e1 ++ e2). repeat split.
      * exact Hrun.
      * now rewrite Ht2, Ht1, app_assoc.
      * apply Forall_app. now split.
      * rewrite count_app. lia.
Qed.

Lemma acquisition_is_no_profile (ext : list action) :
  Forall (fun a => is_acquisition a = true) ext -> count is_profile ext = 0%nat.
Proof.
  unfold count. induction 1 as [|a ext Ha _ IH]; [reflexivity|].
  destruct a; try discriminate; simpl; exact IH.
Qed.

End MultiSteps.

(** X6. The multi-account [getProxyAgent] never throws: it returns a
    handle or [undefined], having done nothing but liveness requests, at
    most [retries] of them, and waits.  (The error its [catch] block would
    throw on the last attempt cannot be reached, because the functions
    called inside the [try] catch their own exceptions.) *)
Theorem multi_acquire_never_throws (cfg : Multi.config) (E : env) (retries : nat) (w : world) :
  exists a w' ext,
    Multi.getProxyAgent cfg E retries w = (Ret a, w') /\
    trace w' = trace w ++ ext /\
    Forall (fun a => is_acquisition a = true) ext /\
    (count is_probe ext <= retries)%nat.
Proof.
  unfold Multi.getProxyAgent. destruct (negb (Multi.enabled cfg)).
  - exists None, w, []. unfold ret. rewrite app_nil_r.
    repeat split; [constructor | unfold count; simpl; lia].
  - apply multi_loop_cases.
Qed.

(** X7. For a non-empty token the multi-account [validateToken] never
    throws, and it returns [true] exactly when the payload decodes, the
    expiry check passes and the profile request is answered with a success
    status. *)
Theorem multi_validate_accepts_iff
    (cfg : Multi.config) (E : env) (token : string) (w : world) :
  token <> EmptyString ->
  fst (Multi.validateToken cfg E token w)
  = Ret match JSON_parse_atob E token with
        | inl _ => false
        | inr tokenData =>
            negb (expired E tokenData) &&
            match profile_response E (count is_profile (trace w)) with
            | Response ok _ _ => ok
            | NetworkError _ => false
            end
        end.
Proof.
  intros Hne. unfold Multi.validateToken.
  destruct (String.eqb_spec token EmptyString) as [Heq|_]; [contradiction|].
  unfold try_catch, checkToken. unfold bind at 1. unfold bind at 1.
  destruct (JSON_parse_atob E token) as [reason|tokenData]; [reflexivity|].
  unfold ret at 1. unfold bind at 1.
  destruct (expired E tokenData); [reflexivity|]. unfold ret at 1.
  destruct (multi_acquire_never_throws cfg E (Multi.maxRetries cfg) w)
    as (a & w1 & ext & Hrun & Htrace & Hext & _).
  rewrite (bind_returns _ _ _ _ _ Hrun). unfold bind at 1. unfold get at 1.
  assert (Hcount : count is_profile (trace w1) = count is_profile (trace w)).
  { rewrite Htrace, count_app, (acquisition_is_no_profile ext Hext). lia. }
  rewrite Hcount. unfold fetch. step.
  destruct (profile_response E (count is_profile (trace w))) as [reason|[|] status body];
    reflexivity.
Qed.

Lemma multi_validate_accepts_iff_witness :
  fst (Multi.validateToken one_proxy late_token "header.payload.signature" (fresh 0))
  = Ret false /\
  fst (Multi.validateToken one_proxy good_day "header.payload.signature" (fresh 0))
  = Ret true.
Proof.
  split.
  - rewrite (multi_validate_accepts_iff one_proxy late_token "header.payload.signature"
               (fresh 0)); [reflexivity | discriminate].
  - rewrite (multi_validate_accepts_iff one_proxy good_day "header.payload.signature"
               (fresh 0)); [reflexivity | discriminate].
Defined.

(** X8. When [validateToken] does not return [true], [processAccount]
    returns [false] and the cycle ends there: it has made no request beyond
    those of the validation itself, so no locate request, no measurement
    connection and no report. *)
Theorem rejected_token_ends_cycle
    (cfg : Multi.config) (E : env) (token : string) (accountIndex : nat) (w : world) :
  fst (Multi.validateToken cfg E token w) <> Ret true ->
  fst (Multi.processAccount cfg E token accountIndex w) = Ret false /\
  trace (snd (Multi.processAccount cfg E token accountIndex w))
  = trace (snd (Multi.validateToken cfg E token w)).
Proof.
  intros Hno. destruct (validateToken_calm cfg E token w) as [_ Hhalt].
  unfold Multi.processAccount, try_catch, bind. cbv zeta.
  destruct (Multi.validateToken cfg E token w) as [[[|]|reason|h] w1]; simpl in *.
  - now destruct Hno.
  - split; reflexivity.
  - split; reflexivity.
  - now destruct (Hhalt h).
Qed.

Lemma rejected_token_ends_cycle_witness :
  Multi.processAccount one_proxy late_token "header.payload.signature" 0 (fresh 0)
  = (Ret false,
     {| currentIndex := 0; chosen := None; trace := [];
        errors := ["Token validation failed: Token expired"%string;
                   "Token 1 is invalid or expired"%string] |}).
Proof.
  destruct (rejected_token_ends_cycle one_proxy late_token "header.payload.signature" 0
              (fresh 0)) as [Hret Htrace].
  - discriminate.
  - reflexivity.
Defined.

(** ** The report *)

(** X9. [reportResults] never throws.  Once a transport is acquired it
    posts exactly one report, carrying the two speeds rounded to two
    decimals and the location, and it returns the response data only for
    a success status whose body parses and has a true [success] flag;
    otherwise it returns [null].  When no transport can be acquired it
    posts nothing and returns [null]. *)
Theorem report_is_posted_once
    (E : env) (getProxyAgent : M (option agent)) (token : string)
    (sample : SpeedSample) (location : GeoPoint) (w w1 : world) :
  (forall a,
     getProxyAgent w = (Ret a, w1) ->
     fst (reportResults E getProxyAgent token sample location w)
     = Ret match points_response E with
           | Response true _ (Some data) => if success data then Some data else None
           | _ => None
           end /\
     trace (snd (reportResults E getProxyAgent token sample location w))
     = trace w1 ++ [PostPoints {| download_speed := round2 (downloadSpeed sample);
                                  upload_speed := round2 (uploadSpeed sample);
                                  report_latitude := latitude location;
                                  report_longitude := longitude location |} a]) /\
  (forall reason,
     getProxyAgent w = (Throw reason, w1) ->
     fst (reportResults E getProxyAgent token sample location w) = Ret None /\
     trace (snd (reportResults E getProxyAgent token sample location w)) = trace w1).
Proof.
  split.
  - intros a Hrun. unfold reportResults, try_catch.
    rewrite (bind_returns _ _ _ _ _ Hrun). unfold fetch. step.
    destruct (points_response E) as [reason|[|] status [[[|] reason]|]]; split; reflexivity.
  - intros reason Hrun. unfold reportResults, try_catch, bind. rewrite Hrun.
    split; reflexivity.
Qed.

Lemma report_is_posted_once_witness :
  reportResults unreachable (Single.getProxyAgent three_proxies unreachable 1)
                "header.payload.signature" zero_sample
                (generateRandomLocation (1 # 2) (1 # 2)) (fresh 0)
  = (Ret None,
     {| currentIndex := 0;
        chosen := Some {| type := socks5; url := "socks5://10.0.0.3:1080" |};
        trace := [Probe (HttpsProxyAgent "http://10.0.0.1:8080");
                  Probe (SocksProxyAgent "socks4://10.0.0.2:1080" 4);
                  Probe (SocksProxyAgent "socks5://10.0.0.3:1080" 5);
                  Sleep 1000];
        errors := ["Error submitting results: All proxies failed after maximum retry attempts"%string] |}).
Proof.
  destruct (report_is_posted_once unreachable
              (Single.getProxyAgent three_proxies unreachable 1)
              "header.payload.signature" zero_sample
              (generateRandomLocation (1 # 2) (1 # 2)) (fresh 0)
              (snd (Single.getProxyAgent three_proxies unreachable 1 (fresh 0))))
    as [_ Hthrown].
  destruct (Hthrown "All proxies failed after maximum retry attempts"%string eq_refl)
    as [_ _].
  reflexivity.
Defined.

(** ** More on the two phases *)

Lemma download_any_frames (frames : list ws_event) (s : Download.state) :
  Forall (fun e => is_frame e = true) frames ->
  exists s',
    download_listen s frames = inl s' /\
    Download.startTime s' = Download.startTime s /\
    Download.totalBytes s' = Download.totalBytes s + binary_bytes frames /\
    Download.errors s' = Download.errors s.
Proof.
  intros Hall. revert s. induction Hall as [|e frames He _ IH]; intros s.
  - exists s. simpl. repeat split. lia.
  - destruct e as [?|[?| |?]|now len|? ?| |?]; try discriminate; simpl.
    + apply IH.
    + apply IH.
    + destruct (window_over _);
        match goal with |- context [download_listen ?s1 frames] =>
          destruct (IH s1) as (s' & Hl & Hstart & Hbytes & Herr) end;
        exists s'; simpl in *; repeat split; auto; lia.
Qed.

Lemma download_texts (texts : list ws_event) (s : Download.state) :
  Forall (fun e => is_text e = true) texts -> download_listen s texts = inl s.
Proof.
  induction 1 as [|e texts He _ IH]; [reflexivity|].
  destruct e as [?|[?| |?]|? ?|? ?| |?]; try discriminate; simpl; exact IH.
Qed.

Lemma frames_not_ending (l : list ws_event) :
  Forall (fun e => is_frame e = true) l -> Forall (fun e => is_ending e = false) l.
Proof. induction 1 as [|e l He _ IH]; constructor; [now destruct e | exact IH]. Qed.

Lemma texts_are_frames (l : list ws_event) :
  Forall (fun e => is_text e = true) l -> Forall (fun e => is_frame e = true) l.
Proof.
  induction 1 as [|e l He _ IH]; constructor; [|exact IH].
  destruct e as [?|[?| |?]|? ?|? ?| |?]; try discriminate; reflexivity.
Qed.

(** X10. The download speed the phase yields is fixed by the last binary
    frame that came before the close: when that frame arrives 10 seconds or
    more after the open, the speed is all the bytes received up to and
    including it over the time to it, also when earlier frames had already
    crossed the 10 seconds and [close] had been called. *)
Theorem download_speed_is_of_last_frame
    (made opened now len : Z) (frames texts rest : list ws_event) :
  Forall (fun e => is_frame e = true) frames ->
  Forall (fun e => is_text e = true) texts ->
  (10 <= inject_Z (now - opened) / 1000)%Q ->
  let total := binary_bytes frames + len in
  let elapsed := (inject_Z (now - opened) / 1000)%Q in
  Download.phase
    {| created := made;
       events := WsOpen opened :: frames ++ WsBinary now len :: texts ++ WsClose :: rest |}
  = Ret {| Download.startTime := opened;
           Download.totalBytes := total;
           Download.downloadSpeed := Num (inject_Z (total * 8) / (elapsed * 1000000))%Q;
           Download.closeCalled := true;
           Download.errors := [] |}.
Proof.
  intros Hframes Htexts Hlate total elapsed.
  change (10 <= seconds_since opened now)%Q in Hlate.
  change (inject_Z (total * 8) / (elapsed * 1000000))%Q
    with (mbps total (seconds_since opened now)).
  unfold Download.phase. cbn [created events].
  destruct (download_any_frames frames
              {| Download.startTime := opened; Download.totalBytes := 0;
                 Download.downloadSpeed := Num 0; Download.closeCalled := false;
                 Download.errors := [] |} Hframes)
    as (s1 & Hl & Hstart & Hbytes & Herr).
  simpl in Hstart, Hbytes, Herr.
  set (reached := {| Download.startTime := opened; Download.totalBytes := total;
                     Download.downloadSpeed := Num (mbps total (seconds_since opened now));
                     Download.closeCalled := true; Download.errors := [] |}).
  assert (Hall : download_listen (Download.init made)
                   ((WsOpen opened :: frames) ++ WsBinary now len :: texts) = inl reached).
  { rewrite download_listen_app. simpl. rewrite Hl. simpl.
    rewrite Hstart, Hbytes, Herr.
    apply window_over_true in Hlate. rewrite Hlate.
    now rewrite download_texts. }
  change (WsOpen opened :: frames ++ WsBinary now len :: texts ++ WsClose :: rest)
    with ((WsOpen opened :: frames) ++ (WsBinary now len :: texts) ++ WsClose :: rest).
  rewrite app_assoc.
  rewrite (download_run_listen _ _ _ reached); [reflexivity | | exact Hall].
  apply Forall_app. split.
  - constructor; [reflexivity | now apply frames_not_ending].
  - constructor; [reflexivity | now apply frames_not_ending, texts_are_frames].
Qed.

Lemma download_speed_is_of_last_frame_witness :
  exists s,
    Download.phase
      {| created := 0;
         events := [WsOpen 0; WsBinary 10000 12500000; WsBinary 10400 500000;
                    WsText JsonNull; WsClose] |} = Ret s /\
    Download.downloadSpeed s
    = Num (inject_Z (13000000 * 8) / (inject_Z (10400 - 0) / 1000 * 1000000))%Q /\
    (inject_Z (13000000 * 8) / (inject_Z (10400 - 0) / 1000 * 1000000) == 10)%Q.
Proof.
  eexists. split.
  - apply (download_speed_is_of_last_frame 0 0 10400 500000
             [WsBinary 10000 12500000] [WsText JsonNull] []).
    + repeat constructor.
    + repeat constructor.
    + apply Qle_bool_iff. reflexivity.
  - split; reflexivity.
Defined.

Lemma upload_unhurried (pre : list ws_event) (s : Upload.state) :
  unhurried (Upload.startTime s) pre ->
  Forall (fun e => is_ending e = false) pre /\
  Upload.uploadSpeed (upload_listen s pre)
  = fold_left keep_larger (estimates pre) (Upload.uploadSpeed s).
Proof.
  revert s. unfold upload_listen.
  induction pre as [|e pre IH]; intros s Hpre; [split; [constructor | reflexivity]|].
  assert (Hstep : unhurried (Upload.startTime (Upload.on_event s e)) pre /\
                  is_ending e = false /\
                  fold_left keep_larger (estimates (e :: pre)) (Upload.uploadSpeed s)
                  = fold_left keep_larger (estimates pre)
                              (Upload.uploadSpeed (Upload.on_event s e))).
  { destruct e as [now|[?| |[tcpInfo|]]|? ?|now sent| |?]; simpl in Hpre;
      try contradiction; try (repeat split; [exact Hpre]).
    destruct Hpre as [Htime Hpre]. apply window_over_false in Htime.
    simpl. destruct (Upload.scheduled s); [|auto]. unfold Upload.sendData.
    destruct (Upload.readyState s); rewrite ?Htime; auto. }
  destruct Hstep as (Hearly & Hend & Hfold).
  destruct (IH (Upload.on_event s e) Hearly) as [Hno Hspeed].
  split; [now constructor|]. cbn [fold_left]. now rewrite Hspeed, Hfold.
Qed.

(** X11. When the upload connection closes or errors before any turn of
    [sendData] finds 10 seconds elapsed, the speed the phase yields is the
    maximum of 0 and the server-side estimates received: one of them, none
    of them greater. *)
Theorem upload_without_cutoff_is_max_of_estimates
    (r : socket_run) (pre rest : list ws_event) (ending : ws_event) :
  events r = pre ++ ending :: rest ->
  is_ending ending = true ->
  unhurried (created r) pre ->
  exists s,
    Upload.phase r = Ret s /\
    Upload.uploadSpeed s = fold_left keep_larger (estimates pre) (Num 0) /\
    In (Upload.uploadSpeed s) (Num 0 :: estimates pre) /\
    (forall e, In e (Num 0 :: estimates pre) -> js_gt e (Upload.uploadSpeed s) = false).
Proof.
  intros Hev Hend Hpre. unfold Upload.phase. rewrite Hev.
  destruct (upload_unhurried pre (Upload.init (created r)) Hpre) as [Hno Hspeed].
  rewrite (upload_run_listen _ _ _ Hno). simpl in Hspeed.
  destruct (max_of_estimates (estimates pre) (Num 0)) as (_ & Hin & Hmax); [discriminate|].
  destruct ending; try discriminate; simpl; eexists; (split; [reflexivity|]); simpl;
    rewrite Hspeed; auto.
Qed.

Lemma upload_without_cutoff_is_max_of_estimates_witness :
  exists s,
    Upload.phase (upload_socket upload_drops) = Ret s /\
    Upload.uploadSpeed s = Num (12000000 # 1000000).
Proof.
  destruct (upload_without_cutoff_is_max_of_estimates (upload_socket upload_drops)
              [WsOpen 0; SendTurn 0 32; server_says 12] [] (WsError "read ECONNRESET")
              eq_refl eq_refl) as (s & Hrun & Hspeed & _).
  - simpl. repeat split.
  - exists s. split; [exact Hrun | exact Hspeed].
Defined.

(** ** The sample is never negative *)

Lemma not_negative_num (q : Q) : (0 <= q)%Q -> not_negative (Num q).
Proof.
  intros Hq. split; [discriminate|]. simpl.
  apply negb_false_iff, Qle_bool_iff. exact Hq.
Qed.

Lemma mbps_not_negative (total : Z) (duration : Q) :
  0 <= total -> window_over duration = true -> (0 <= mbps total duration)%Q.
Proof.
  intros Htotal Hover. apply window_over_true in Hover. unfold mbps.
  apply Qle_shift_div_l; [lra|].
  assert (Hbytes : (inject_Z 0 <= inject_Z (total * 8))%Q) by (rewrite <- Zle_Qle; lia).
  change (inject_Z 0) with 0%Q in Hbytes. lra.
Qed.

Lemma keep_larger_not_negative (x e : number) :
  not_negative x -> not_negative (keep_larger x e).
Proof.
  intros [Hord Hpos]. split; [now apply keep_larger_ordered|].
  apply js_not_gt_trans with x; [exact Hord | exact Hpos | apply keep_larger_left].
Qed.

Lemma upload_event_not_negative (s : Upload.state) (e : ws_event) :
  0 <= Upload.totalBytes s /\ not_negative (Upload.uploadSpeed s) ->
  0 <= Upload.totalBytes (Upload.on_event s e) /\
  not_negative (Upload.uploadSpeed (Upload.on_event s e)).
Proof.
  intros [Hbytes Hspeed].
  destruct e as [now|[?| |[tcpInfo|]]|? ?|now sent| |?]; simpl; auto.
  - split; [lia | exact Hspeed].
  - split; [exact Hbytes | now apply keep_larger_not_negative].
  - destruct (Upload.scheduled s); [|auto]. unfold Upload.sendData.
    destruct (Upload.readyState s); simpl; auto.
    destruct (window_over _) eqn:Hover; simpl.
    + split; [exact Hbytes|]. now apply not_negative_num, mbps_not_negative.
    + split; [unfold Upload.chunk; lia | exact Hspeed].
Qed.

Lemma upload_run_not_negative (evs : list ws_event) (s s' : Upload.state) :
  Upload.run s evs = Ret s' ->
  0 <= Upload.totalBytes s /\ not_negative (Upload.uploadSpeed s) ->
  not_negative (Upload.uploadSpeed s').
Proof.
  revert s. induction evs as [|e evs IH]; intros s Hrun Hinv; [discriminate|].
  pose proof (upload_event_not_negative s e Hinv) as Hnext.
  destruct e; simpl in Hrun;
    try (inversion Hrun; subst; simpl; apply Hinv);
    try (eapply IH; [exact Hrun | exact Hnext]).
Qed.

Lemma download_run_not_negative (evs : list ws_event) (s s' : Download.state) :
  (forall now len, In (WsBinary now len) evs -> 0 <= len) ->
  Download.run s evs = Ret s' ->
  0 <= Download.totalBytes s /\ not_negative (Download.downloadSpeed s) ->
  not_negative (Download.downloadSpeed s').
Proof.
  revert s. induction evs as [|e evs IH]; intros s Hlen Hrun [Hbytes Hspeed];
    [discriminate|].
  assert (Hrest : forall now len, In (WsBinary now len) evs -> 0 <= len)
    by (intros now len Hin; apply (Hlen now len); now right).
  destruct e as [now|[?| |?]|now len|? ?| |?]; simpl in Hrun;
    try (inversion Hrun; subst; simpl; exact Hspeed);
    try discriminate;
    try (eapply IH; [exact Hrest | exact Hrun | split; simpl; auto; lia]).
  assert (Hpos : 0 <= len) by (apply (Hlen now len); now left).
  destruct (window_over _) eqn:Hover; eapply IH; try exact Hrest; try exact Hrun;
    split; simpl; try lia; auto.
  apply not_negative_num, mbps_not_negative; [lia | exact Hover].
Qed.

Lemma bind_inv {A B} (c : M A) (k : A -> M B) (w w' : world) (b : B) :
  bind c k w = (Ret b, w') -> exists a w1, c w = (Ret a, w1) /\ k a w1 = (Ret b, w').
Proof.
  unfold bind. destruct (c w) as [[a|m|h] w1]; intros H; try discriminate.
  now exists a, w1.
Qed.

Lemma download_returns
    (E : env) (proxy_enabled : bool) (endpoint : option string) (a : option agent)
    (w w' : world) (x : number) :
  download E proxy_enabled endpoint a w = (Ret x, w') ->
  exists sd, Download.phase (download_socket E) = Ret sd /\ x = Download.downloadSpeed sd.
Proof.
  unfold download. intros H. apply bind_inv in H. destruct H as (_ & w1 & _ & H).
  destruct (Download.phase (download_socket E)) as [sd|m|h]; try discriminate.
  apply bind_inv in H. destruct H as (_ & w2 & _ & H). inversion H. now exists sd.
Qed.

Lemma upload_returns
    (E : env) (proxy_enabled : bool) (endpoint : option string) (a : option agent)
    (w w' : world) (x : number) :
  upload E proxy_enabled endpoint a w = (Ret x, w') ->
  exists su, Upload.phase (upload_socket E) = Ret su /\ x = Upload.uploadSpeed su.
Proof.
  unfold upload. intros H. apply bind_inv in H. destruct H as (_ & w1 & _ & H).
  destruct (Upload.phase (upload_socket E)) as [su|m|h]; try discriminate.
  apply bind_inv in H. destruct H as (_ & w2 & _ & H). inversion H. now exists su.
Qed.

Lemma speedTest_returns_phases
    (E : env) (proxy_enabled : bool) (getProxyAgent : M (option agent))
    (w w' : world) (sample : SpeedSample) :
  speedTest E proxy_enabled getProxyAgent w = (Ret sample, w') ->
  exists sd su,
    Download.phase (download_socket E) = Ret sd /\
    Upload.phase (upload_socket E) = Ret su /\
    sample = {| downloadSpeed := Download.downloadSpeed sd;
                uploadSpeed := Upload.uploadSpeed su |}.
Proof.
  unfold speedTest. intros H.
  apply bind_inv in H. destruct H as (a & w1 & _ & H).
  apply bind_inv in H. destruct H as ([[ok status] body] & w2 & _ & H).
  destruct (negb ok); [discriminate|].
  apply bind_inv in H. destruct H as (serverData & w3 & _ & H).
  destruct (results serverData) as [[|[server|] others]|]; try discriminate.
  apply bind_inv in H. destruct H as (object & w4 & _ & H).
  apply bind_inv in H. destruct H as (x & w5 & Hd & H).
  apply bind_inv in H. destruct H as (y & w6 & Hu & H).
  inversion H; subst.
  destruct (download_returns _ _ _ _ _ _ _ Hd) as (sd & Hsd & ->).
  destruct (upload_returns _ _ _ _ _ _ _ Hu) as (su & Hsu & ->).
  now exists sd, su.
Qed.

(** X12. Whatever the server sends, the two speeds [performSpeedTest]
    returns are never [NaN] and never below zero (binary frames having a
    length of zero or more). *)
Theorem sample_is_never_negative
    (E : env) (proxy_enabled : bool) (getProxyAgent : M (option agent))
    (w : world) (sample : SpeedSample) :
  (forall now len, In (WsBinary now len) (events (download_socket E)) -> 0 <= len) ->
  fst (performSpeedTest E proxy_enabled getProxyAgent w) = Ret sample ->
  not_negative (downloadSpeed sample) /\ not_negative (uploadSpeed sample).
Proof.
  intros Hlen. unfold performSpeedTest, try_catch.
  destruct (speedTest E proxy_enabled getProxyAgent w) as [[s|reason|h] w1] eqn:Hrun;
    simpl; intros Hret; try discriminate.
  - inversion Hret; subst s.
    destruct (speedTest_returns_phases E proxy_enabled getProxyAgent w w1 sample Hrun)
      as (sd & su & Hd & Hu & ->). simpl. split.
    + eapply download_run_not_negative; [exact Hlen | exact Hd|].
      simpl. split; [lia | now apply not_negative_num].
    + eapply upload_run_not_negative; [exact Hu|].
      simpl. split; [lia | now apply not_negative_num].
  - inversion Hret; subst. simpl. split; now apply not_negative_num.
Qed.

Lemma sample_is_never_negative_witness :
  Upload.server_estimate {| BytesReceived := Some 0; ElapsedTime := Some 0 |} = NaN /\
  fst (performSpeedTest odd_server false (Multi.getProxyAgent direct odd_server 3) (fresh 0))
  = Ret {| downloadSpeed := Num (mbps 12500000 (seconds_since 0 10000));
           uploadSpeed := Num 0 |} /\
  not_negative (Num 0).
Proof.
  split; [reflexivity|]. split; [reflexivity|].
  apply (sample_is_never_negative odd_server false
           (Multi.getProxyAgent direct odd_server 3) (fresh 0)
           {| downloadSpeed := Num (mbps 12500000 (seconds_since 0 10000));
              uploadSpeed := Num 0 |}).
  - intros now len [H|[H|[H|[]]]]; inversion H; lia.
  - reflexivity.
Defined.

(** ** Rounding *)

Lemma Math_round_near (x : Q) :
  (x - (1 # 2) < inject_Z (Math_round x))%Q /\ (inject_Z (Math_round x) <= x + (1 # 2))%Q.
Proof.
  unfold Math_round. split.
  - pose proof (Qlt_floor (x + (1 # 2))) as H. rewrite inject_Z_plus in H.
    change (inject_Z 1) with 1%Q in H. lra.
  - apply Qfloor_le.
Qed.

Lemma Math_round_at (y : Q) (k : Z) :
  (inject_Z k - (1 # 2) <= y)%Q -> (y < inject_Z k + (1 # 2))%Q -> Math_round y = k.
Proof.
  intros H1 H2. destruct (Math_round_near y) as [H3 H4].
  assert (H5 : (inject_Z (Math_round y) < inject_Z k + 1)%Q) by lra.
  assert (H6 : (inject_Z k < inject_Z (Math_round y) + 1)%Q) by lra.
  change 1%Q with (inject_Z 1) in H5, H6. rewrite <- inject_Z_plus in H5, H6.
  rewrite <- Zlt_Qlt in H5, H6. lia.
Qed.

Lemma exponent64_cases (x : Q) :
  (0 < x)%Q ->
  exponent64 x = -1074 \/ (2 ^ exponent64 x * 2 ^ 52 <= x)%Q.
Proof.
  intros Hx. destruct (Z.eq_dec (exponent64 x) (-1074)) as [H|H]; [now left|right].
  rewrite <- pow2_plus. destruct (ilog2_spec x Hx) as [Hlo _].
  apply Qle_trans with (2 := Hlo). apply pow2_le.
  unfold exponent64 in *. rewrite (Qabs_of_pos x Hx) in *. lia.
Qed.

(** The rounding error: half a unit in the 53rd bit, or half the spacing
    of the smallest numbers. *)
Lemma nearest64_error (x : Q) :
  (0 <= x)%Q ->
  (x - x * (1 # 9007199254740992) - 2 ^ (-1075) <= nearest64 x)%Q /\
  (nearest64 x <= x + x * (1 # 9007199254740992) + 2 ^ (-1075))%Q.
Proof.
  intros Hx. pose proof (pow2_pos (-1075)) as Ht.
  destruct (Qeq_dec x 0) as [Hx0|Hx0].
  - assert (Hz : nearest64 x = 0%Q).
    { unfold nearest64. apply Qeq_bool_iff in Hx0. now rewrite Hx0. }
    rewrite Hz. set (t := (2 ^ (-1075))%Q) in *. split; lra.
  - assert (Hxp : (0 < x)%Q).
    { destruct (Qlt_le_dec 0 x) as [H|H]; [exact H|]. exfalso. apply Hx0. lra. }
    rewrite (nearest64_form x Hx0).
    pose proof (pow2_pos (exponent64 x)) as HP.
    destruct (nearest_even_near (x / 2 ^ exponent64 x)) as [Hn1 Hn2].
    assert (Hhalf : (2 ^ exponent64 x * (1 # 2)
                     <= x * (1 # 9007199254740992) + 2 ^ (-1075))%Q).
    { destruct (exponent64_cases x Hxp) as [He|He].
      - rewrite He.
        assert (H : (2 ^ (-1074) * (1 # 2) == 2 ^ (-1075))%Q) by reflexivity.
        rewrite H. set (t := (2 ^ (-1075))%Q) in *.
        assert (0 <= x * (1 # 9007199254740992))%Q by lra. lra.
      - change (2 ^ 52)%Q with (4503599627370496 # 1)%Q in He.
        set (P := (2 ^ exponent64 x)%Q) in *. set (t := (2 ^ (-1075))%Q) in *. lra. }
    set (P := (2 ^ exponent64 x)%Q) in *. set (t := (2 ^ (-1075))%Q) in *.
    set (N := inject_Z (nearest_even (x / P))) in *.
    assert (Hm : (x / P * P == x)%Q) by (field; lra).
    assert (H1 : ((x / P - (1 # 2)) * P <= N * P)%Q)
      by (apply Qmult_le_compat_r; lra).
    assert (H2 : (N * P <= (x / P + (1 # 2)) * P)%Q)
      by (apply Qmult_le_compat_r; lra).
    assert (H3 : ((x / P - (1 # 2)) * P == x - P * (1 # 2))%Q) by (rewrite <- Hm at 2; ring).
    assert (H4 : ((x / P + (1 # 2)) * P == x + P * (1 # 2))%Q) by (rewrite <- Hm at 2; ring).
    split; lra.
Qed.

Lemma smallest_spacing : (2 ^ (-1075) <= 1 # 1000000000000000000000000000000)%Q.
Proof. apply Qle_bool_iff. now vm_compute. Qed.

(** No overflow far below [2^1024]. *)
Lemma binary64_finite (v : Q) :
  (0 <= v)%Q -> (v <= 10000000000000)%Q -> binary64 v = Num (nearest64 v).
Proof.
  intros H0 H1. unfold binary64. cbv zeta.
  destruct (nearest64_error v H0) as [_ Hup].
  pose proof (nearest64_nonneg v H0) as Hlow.
  pose proof smallest_spacing as Ht.
  assert (Hbig : (20000000000001 < 2 ^ 1024)%Q) by now vm_compute.
  assert (Hneg : (- 2 ^ 1024 < 0)%Q) by now vm_compute.
  set (t := (2 ^ (-1075))%Q) in *. set (big := (2 ^ 1024)%Q) in *.
  set (small := (- big)%Q) in *.
  destruct (Qle_bool big (nearest64 v)) eqn:Hover.
  { apply Qle_bool_iff in Hover. exfalso. lra. }
  destruct (Qle_bool (nearest64 v) small) eqn:Hunder.
  { apply Qle_bool_iff in Hunder. exfalso. lra. }
  reflexivity.
Qed.

(** Scaling by [s], rounding to an integer and scaling back, each step in
    binary64, for [s = 100] and [s = 1000000]. *)
Lemma decimal_rounding (s x : Q) :
  s = 100%Q \/ s = 1000000%Q ->
  (0 <= x)%Q -> (x <= 1000000)%Q ->
  let k := Math_round (nearest64 (x * s)) in
  let z := nearest64 (inject_Z k / s) in
  (0 <= inject_Z k / s)%Q /\ (inject_Z k / s <= 1000001)%Q /\
  (0 <= z)%Q /\ (z <= 1000002)%Q /\
  (x * s - (501 # 1000) <= z * s)%Q /\ (z * s <= x * s + (501 # 1000))%Q /\
  Math_round (nearest64 (z * s)) = k.
Proof.
  intros Hs Hx0 Hx1 k z.
  pose proof smallest_spacing as Ht. pose proof (pow2_pos (-1075)) as Ht0.
  assert (Hs0 : (0 < s)%Q) by (destruct Hs as [-> | ->]; reflexivity).
  assert (Ha0 : (0 <= x * s)%Q) by (apply Qmult_le_0_compat; lra).
  destruct (nearest64_error (x * s) Ha0) as [Hy1 Hy2].
  pose proof (nearest64_nonneg (x * s) Ha0) as Hy0.
  destruct (Math_round_near (nearest64 (x * s))) as [Hk1 Hk2]. fold k in Hk1, Hk2.
  assert (Hk0 : (0 <= inject_Z k)%Q).
  { rewrite <- (Zle_Qle 0). change 0 with (Math_round 0). now apply Math_round_mono. }
  assert (Hb : (inject_Z k / s * s == inject_Z k)%Q) by (field; lra).
  assert (Hb0 : (0 <= inject_Z k / s)%Q) by (apply Qle_shift_div_l; lra).
  destruct (nearest64_error (inject_Z k / s) Hb0) as [Hz1 Hz2]. fold z in Hz1, Hz2.
  pose proof (nearest64_nonneg (inject_Z k / s) Hb0) as Hz0. fold z in Hz0.
  assert (Hc0 : (0 <= z * s)%Q) by (apply Qmult_le_0_compat; lra).
  destruct (nearest64_error (z * s) Hc0) as [Hw1 Hw2].
  set (t := (2 ^ (-1075))%Q) in *.
  set (y := nearest64 (x * s)) in *. set (b := (inject_Z k / s)%Q) in *.
  set (w := nearest64 (z * s)) in *. set (kq := inject_Z k) in *.
  destruct Hs as [-> | ->].
  - assert (Hmid : (kq - (1 # 2) <= w)%Q /\ (w < kq + (1 # 2))%Q) by (split; lra).
    repeat split; try lra. now apply Math_round_at.
  - assert (Hmid : (kq - (1 # 2) <= w)%Q /\ (w < kq + (1 # 2))%Q) by (split; lra).
    repeat split; try lra. now apply Math_round_at.
Qed.

(** X13. Rounding as the program does it, [Math.round(x * 10^d) / 10^d]
    with the product and the quotient rounded to binary64: for a value
    from 0 to 1,000,000 it moves a coordinate ([d = 6]) and a speed
    ([d = 2]) by at most 0.501 of a unit of the last decimal kept, and it
    leaves its own result alone; an infinite or undefined speed is passed
    on unchanged. *)
Theorem rounding_is_to_nearest (x : Q) :
  (0 <= x)%Q -> (x <= 1000000)%Q ->
  (x - (501 # 1000000000) <= round6 x)%Q /\ (round6 x <= x + (501 # 1000000000))%Q /\
  round6 (round6 x) = round6 x /\
  (exists r, round2 (Num x) = Num r /\
             (x - (501 # 100000) <= r)%Q /\ (r <= x + (501 # 100000))%Q /\
             round2 (Num r) = Num r) /\
  round2 PosInf = PosInf /\ round2 NegInf = NegInf /\ round2 NaN = NaN.
Proof.
  intros Hx0 Hx1.
  destruct (decimal_rounding 1000000 x (or_intror eq_refl) Hx0 Hx1)
    as (_ & _ & _ & _ & H6lo & H6hi & H6fix).
  destruct (decimal_rounding 100 x (or_introl eq_refl) Hx0 Hx1)
    as (H2b0 & H2b1 & H2z0 & H2z1 & H2lo & H2hi & H2fix).
  cbv zeta in *.
  split; [unfold round6, div64, mul64; lra|].
  split; [unfold round6, div64, mul64; lra|].
  split.
  { unfold round6 at 1. unfold mul64, div64.
    unfold round6 at 1. unfold mul64, div64. rewrite H6fix. reflexivity. }
  split; [|repeat split].
  assert (Hfirst : binary64 (x * 100) = Num (nearest64 (x * 100))).
  { apply binary64_finite; lra. }
  assert (Hsecond : binary64 (inject_Z (Math_round (nearest64 (x * 100))) / 100)
                    = Num (nearest64 (inject_Z (Math_round (nearest64 (x * 100))) / 100))).
  { apply binary64_finite; lra. }
  exists (nearest64 (inject_Z (Math_round (nearest64 (x * 100))) / 100)).
  split; [unfold round2; now rewrite Hfirst, Hsecond|].
  split; [lra|]. split; [lra|].
  unfold round2. rewrite binary64_finite by lra. rewrite H2fix. exact Hsecond.
Qed.

Lemma rounding_is_to_nearest_witness :
  round2 (Num (nearest64 0.615)) = Num (nearest64 0.62) /\
  (nearest64 0.615 - (501 # 100000) <= nearest64 0.62)%Q /\
  round6 (round6 (nearest64 0.615)) = round6 (nearest64 0.615).
Proof.
  destruct (rounding_is_to_nearest (nearest64 0.615))
    as (_ & _ & Hsix & (r & Hr & Hlo & _ & _) & _);
    [now vm_compute | now vm_compute |].
  assert (Heq : r = nearest64 0.62).
  { assert (H : Num r = Num (nearest64 0.62)) by (rewrite <- Hr; now vm_compute).
    now inversion H. }
  subst r. split; [exact Hr|]. split; [exact Hlo | exact Hsix].
Defined.

(** ** The token and proxy files *)

Lemma trimStart_head (s : string) :
  trimStart s = EmptyString \/
  exists c rest, trimStart s = String c rest /\ is_space c = false.
Proof.
  induction s as [|c s IH]; [now left|]. simpl.
  destruct (is_space c) eqn:Hc; [exact IH|]. right. now exists c, s.
Qed.

Lemma trimEnd_head (c : ascii) (rest : string) :
  is_space c = false -> exists kept, trimEnd (String c rest) = String c kept.
Proof.
  intros Hc. simpl. destruct (trimEnd rest); rewrite ?Hc; eauto.
Qed.

Lemma trimEnd_idem (s : string) : trimEnd (trimEnd s) = trimEnd s.
Proof.
  induction s as [|c s IH]; [reflexivity|]. simpl.
  destruct (trimEnd s) as [|d kept] eqn:Hs.
  - destruct (is_space c) eqn:Hc; [reflexivity|]. simpl. now rewrite Hc.
  - change (trimEnd (String c (String d kept)))
      with (match trimEnd (String d kept) with
            | EmptyString => if is_space c then EmptyString else String c EmptyString
            | k => String c k
            end).
    now rewrite IH.
Qed.

Lemma trim_head (s : string) :
  trim s = EmptyString \/ exists c rest, trim s = String c rest /\ is_space c = false.
Proof.
  unfold trim. destruct (trimStart_head s) as [->|(c & rest & -> & Hc)]; [now left|].
  right. destruct (trimEnd_head c rest Hc) as [kept ->]. now exists c, kept.
Qed.

Lemma trim_idem (s : string) : trim (trim s) = trim s.
Proof.
  destruct (trim_head s) as [->|(c & rest & Heq & Hc)]; [reflexivity|].
  unfold trim at 1. rewrite Heq. simpl trimStart. rewrite Hc, <- Heq.
  unfold trim. apply trimEnd_idem.
Qed.

Lemma startsWith_append (p s : string) :
  startsWith p s = true -> exists rest, s = (p ++ rest)%string.
Proof.
  unfold startsWith. revert s. induction p as [|a p IH]; intros s H; [now exists s|].
  destruct s as [|b s]; [discriminate|]. simpl in H.
  destruct (ascii_dec a b) as [->|]; [|discriminate].
  destruct (IH s H) as [rest ->]. now exists rest.
Qed.

Lemma startsWith_own (p rest : string) : startsWith p (p ++ rest) = true.
Proof.
  unfold startsWith. induction p as [|a p IH]; [now destruct rest|].
  change (String.prefix (String a p) (String a (p ++ rest)) = true).
  cbn [String.prefix]. now destruct (ascii_dec a a).
Qed.

Lemma includes_after (p q s : string) :
  includes p s = true -> includes p (q ++ s)%string = true.
Proof.
  intros H. induction q as [|c q IH]; [exact H|].
  change (includes p (String c (q ++ s)) = true). cbn [includes].
  rewrite IH. apply orb_true_r.
Qed.

Lemma includes_start (p s : string) : startsWith p s = true -> includes p s = true.
Proof. intros H. destruct s; cbn [includes]; now rewrite H. Qed.

Lemma truthy_spec (s : string) : truthy s = true <-> s <> EmptyString.
Proof.
  unfold truthy. destruct (String.eqb_spec s EmptyString); split; intros H;
    try discriminate; try contradiction; auto.
Qed.

Lemma proxy_of_line_well_formed (line : string) :
  trim line <> EmptyString ->
  let p := proxy_of_line line in
  url p <> EmptyString /\
  includes "://" (url p) = true /\
  (type p = socks4 <-> startsWith "socks4://" (url p) = true) /\
  (type p = socks5 <-> startsWith "socks5://" (url p) = true) /\
  (url p = trim line \/
   (url p = ("http://" ++ trim line)%string /\ includes "://" (trim line) = false)).
Proof.
  intros Hne. unfold proxy_of_line.
  destruct (startsWith "socks4://" (trim line)) eqn:H4; simpl.
  { split; [exact Hne|]. split.
    - destruct (startsWith_append _ _ H4) as [rest ->].
      apply (includes_after "://" "socks4" ("://" ++ rest)).
      apply includes_start, startsWith_own.
    - split; [tauto|]. split; [|now left].
      split; [discriminate|]. intros H5.
      destruct (startsWith_append _ _ H4) as [rest Heq]. rewrite Heq in H5.
      discriminate H5. }
  destruct (startsWith "socks5://" (trim line)) eqn:H5; simpl.
  { split; [exact Hne|]. split.
    - destruct (startsWith_append _ _ H5) as [rest ->].
      apply (includes_after "://" "socks5" ("://" ++ rest)).
      apply includes_start, startsWith_own.
    - split; [split; [discriminate | congruence]|]. split; [tauto | now left]. }
  destruct (includes "://" (trim line)) eqn:Hinc; simpl.
  - split; [exact Hne|]. split; [exact Hinc|].
    split; [split; [discriminate | congruence]|].
    split; [split; [discriminate | congruence] | now left].
  - split; [discriminate|].
    split; [apply (includes_after "://" "http" ("://" ++ trim line)),
                  includes_start, startsWith_own|].
    split; [split; discriminate|]. split; [split; discriminate | now right].
Qed.

Lemma proxy_lines_kept (content line : string) :
  In line (proxy_lines content) <->
  In line (split_lines content) /\ trim line <> EmptyString /\
  startsWith "#" line = false.
Proof.
  unfold proxy_lines. rewrite List.filter_In, andb_true_iff, truthy_spec,
    negb_true_iff. tauto.
Qed.

Lemma loaded_list_well_formed (content : string) :
  Forall (fun p => url p <> EmptyString /\
                   includes "://" (url p) = true /\
                   (type p = socks4 <-> startsWith "socks4://" (url p) = true) /\
                   (type p = socks5 <-> startsWith "socks5://" (url p) = true))
         (List.map proxy_of_line (proxy_lines content)).
Proof.
  apply List.Forall_forall. intros p Hp.
  apply List.in_map_iff in Hp. destruct Hp as (line & <- & Hline).
  apply proxy_lines_kept in Hline. destruct Hline as (_ & Hne & _).
  pose proof (proxy_of_line_well_formed line Hne) as H. cbv zeta in H. tauto.
Qed.

(** X14.  Whatever [proxy.txt] holds, every descriptor
    [loadProxiesFromFile] puts in [proxyList] has a non-empty URL that
    contains [://], and its type is [socks4] (or [socks5]) exactly when the
    URL starts with [socks4://] (or [socks5://]); every other entry is typed
    [http].  The loader returns [true] exactly when the list it stored is
    not empty, it switches the proxy on in that case and leaves the switch
    alone otherwise, and it never touches the token or the retry budget.
    An unreadable file changes nothing and gives [false]. *)
Theorem loaded_proxies_are_well_formed (content : string) (cfg : Single.config) :
  let loaded := loadProxiesFromFile (Some content) cfg in
  Forall (fun p => url p <> EmptyString /\
                   includes "://" (url p) = true /\
                   (type p = socks4 <-> startsWith "socks4://" (url p) = true) /\
                   (type p = socks5 <-> startsWith "socks5://" (url p) = true))
         (Single.proxyList (fst loaded)) /\
  (snd loaded = true <-> Single.proxyList (fst loaded) <> []) /\
  (snd loaded = true -> Single.enabled (fst loaded) = true) /\
  (snd loaded = false -> Single.enabled (fst loaded) = Single.enabled cfg) /\
  Single.token (fst loaded) = Single.token cfg /\
  Single.maxRetries (fst loaded) = Single.maxRetries cfg /\
  loadProxiesFromFile None cfg = (cfg, false).
Proof.
  cbv zeta. unfold loadProxiesFromFile.
  pose proof (loaded_list_well_formed content) as Hall.
  destruct (List.map proxy_of_line (proxy_lines content)) as [|p ps] eqn:Hl;
    cbn [length Nat.ltb Nat.leb fst snd Single.proxyList Single.enabled
         Single.token Single.maxRetries].
  - repeat split; auto; try discriminate; try congruence.
  - repeat split; auto; try discriminate; try congruence.
Qed.

(** X15.  [loadProxiesFromFile] looks for the comment mark [#] on the
    line as it stands in the file, before trimming it.  So a comment line
    that is indented is not skipped: it is loaded as an [http] proxy whose
    URL is the trimmed comment, with [http://] put in front unless the
    comment contains [://], and the loader reports success. *)
Theorem indented_comment_is_loaded_as_proxy
  (content line : string) (cfg : Single.config) :
  In line (split_lines content) ->
  startsWith "#" line = false ->
  startsWith "#" (trim line) = true ->
  let loaded := loadProxiesFromFile (Some content) cfg in
  exists p, In p (Single.proxyList (fst loaded)) /\
            type p = http /\
            (url p = trim line \/ url p = ("http://" ++ trim line)%string) /\
            snd loaded = true /\ Single.enabled (fst loaded) = true.
Proof.
  intros Hin Hraw Htrim. cbv zeta.
  assert (Hne : trim line <> EmptyString).
  { intros Heq. rewrite Heq in Htrim. discriminate. }
  assert (Hkept : In (proxy_of_line line)
                     (List.map proxy_of_line (proxy_lines content))).
  { apply List.in_map, proxy_lines_kept. auto. }
  exists (proxy_of_line line).
  unfold loadProxiesFromFile.
  destruct (List.map proxy_of_line (proxy_lines content)) as [|q qs] eqn:Hl;
    [destruct Hkept|].
  cbn [length Nat.ltb Nat.leb fst snd Single.proxyList Single.enabled].
  split; [exact Hkept|].
  destruct (startsWith_append _ _ Htrim) as [rest Hrest].
  unfold proxy_of_line. rewrite Hrest.
  change (startsWith "socks4://" ("#" ++ rest)) with false.
  change (startsWith "socks5://" ("#" ++ rest)) with false.
  cbv iota. destruct (includes "://" ("#" ++ rest)); simpl; auto.
Qed.

Lemma indented_comment_is_loaded_as_proxy_witness :
  exists p,
    In p (Single.proxyList
            (fst (loadProxiesFromFile
                    (Some ("  # spare" ++ String LF "socks5://10.0.0.1:1080")%string)
                    three_proxies))) /\
    type p = http /\ url p = "http://# spare".
Proof.
  destruct (indented_comment_is_loaded_as_proxy
              ("  # spare" ++ String LF "socks5://10.0.0.1:1080")%string
              "  # spare" three_proxies) as (p & Hin & Hty & Hurl & _).
  - left. reflexivity.
  - reflexivity.
  - reflexivity.
  - exists p. split; [exact Hin|]. split; [exact Hty|].
    destruct Hurl as [Hu|Hu]; [|exact Hu].
    vm_compute in Hin.
    destruct Hin as [<-|[<-|[]]]; discriminate.
Defined.

(** X16.  When [loadTokensFromFile] succeeds, the list it stores is not
    empty and every token in it is a trimmed line of [token.txt]: it is not
    empty, trimming it again changes nothing, and it does not start with
    [#].  Here the comment mark is looked for after trimming, so an indented
    comment is skipped. *)
Theorem loaded_tokens_are_clean (content : string) (tokens : list string) :
  loadTokensFromFile (Some content) = Some tokens ->
  tokens <> [] /\
  Forall (fun t => t <> EmptyString /\ trim t = t /\
                   startsWith "#" t = false /\
                   exists line, In line (split_lines content) /\ t = trim line)
         tokens.
Proof.
  unfold loadTokensFromFile.
  set (kept := List.filter _ _).
  destruct (List.length kept =? 0)%nat eqn:Hlen; [discriminate|].
  intros Heq. injection Heq as <-. split.
  - intros Hnil. rewrite Hnil in Hlen. discriminate.
  - apply List.Forall_forall. intros t Ht. unfold kept in Ht.
    apply List.filter_In in Ht. destruct Ht as [Hin Hok].
    apply andb_true_iff in Hok. destruct Hok as [Hne Hmark].
    apply truthy_spec in Hne. apply negb_true_iff in Hmark.
    apply List.in_map_iff in Hin. destruct Hin as (line & <- & Hline).
    split; [exact Hne|]. split; [apply trim_idem|]. split; [exact Hmark|].
    now exists line.
Qed.

Lemma loaded_tokens_are_clean_witness :
  [ "eyJhbGciOi.one.sig"; "eyJhbGciOi.two.sig" ]%string <> [] /\
  Forall (fun t => t <> EmptyString /\ trim t = t /\
                   startsWith "#" t = false /\
                   exists line,
                     In line (split_lines
                                ("# accounts" ++ String LF
                                   ("  eyJhbGciOi.one.sig " ++ String LF
                                      ("   # old" ++ String LF
                                         ("eyJhbGciOi.two.sig" ++ String LF EmptyString))))%string) /\
                     t = trim line)
         [ "eyJhbGciOi.one.sig"; "eyJhbGciOi.two.sig" ]%string.
Proof.
  apply (loaded_tokens_are_clean
           ("# accounts" ++ String LF
              ("  eyJhbGciOi.one.sig " ++ String LF
                 ("   # old" ++ String LF
                    ("eyJhbGciOi.two.sig" ++ String LF EmptyString))))%string).
  reflexivity.
Defined.

(** X17.  [loadTokensFromFile] fails on a readable [token.txt] exactly
    when every line of it is blank or, once trimmed, starts with [#]; and it
    fails when the file cannot be read. *)
Theorem no_token_iff_only_blanks_and_comments (content : string) :
  (loadTokensFromFile (Some content) = None <->
   Forall (fun line => trim line = EmptyString \/
                       startsWith "#" (trim line) = true)
          (split_lines content)) /\
  loadTokensFromFile None = None.
Proof.
  split; [|reflexivity].
  unfold loadTokensFromFile.
  induction (split_lines content) as [|line lines IH]; [now split|].
  cbn [List.map List.filter].
  destruct (truthy_spec (trim line)) as [Ht1 Ht2].
  destruct (truthy (trim line)) eqn:Hne; cbn [andb].
  - destruct (startsWith "#" (trim line)) eqn:Hmark; cbn [negb].
    + rewrite IH. split; intros H.
      * constructor; [now right | exact H].
      * now inversion H.
    + cbn [length Nat.eqb]. split; [discriminate|]. intros H.
      inversion H as [|? ? [Hblank|Hcomment] ?]; subst.
      * destruct (Ht1 eq_refl Hblank).
      * congruence.
  - rewrite IH. split; intros H.
    + constructor; [|exact H]. left.
      destruct (String.eqb_spec (trim line) EmptyString) as [Heq|Hneq]; [exact Heq|].
      unfold truthy in Hne. apply negb_false_iff in Hne.
      now apply String.eqb_eq in Hne.
    + now inversion H.
Qed.

(** X18.  [loadProxyFromFile] of the multi-account client returns [null]
    exactly when [proxy.txt] cannot be read or holds only white space, and
    then leaves the configuration as it was.  Otherwise the URL it stores
    starts with [http://], [https://], [socks4://] or [socks5://], the type
    is [socks4] (or [socks5]) exactly when the URL starts with [socks4://]
    (or [socks5://]), the URL is the trimmed content or that with [http://]
    in front, and the switch and the retry budget are untouched. *)
Theorem loaded_proxy_has_scheme (file : option string) (cfg : Multi.config) :
  let loaded := loadProxyFromFile file cfg in
  let address := Multi.url (fst loaded) in
  (snd loaded = false <->
   file = None \/ exists content, file = Some content /\ trim content = EmptyString) /\
  (snd loaded = false -> fst loaded = cfg) /\
  (snd loaded = true ->
   (startsWith "http://" address || startsWith "https://" address ||
    startsWith "socks4://" address || startsWith "socks5://" address = true) /\
   (Multi.type (fst loaded) = socks4 <-> startsWith "socks4://" address = true) /\
   (Multi.type (fst loaded) = socks5 <-> startsWith "socks5://" address = true) /\
   (exists content, file = Some content /\
      (address = trim content \/ address = ("http://" ++ trim content)%string)) /\
   Multi.enabled (fst loaded) = Multi.enabled cfg /\
   Multi.maxRetries (fst loaded) = Multi.maxRetries cfg).
Proof.
  cbv zeta. destruct file as [content|]; cbn [loadProxyFromFile].
  2:{ cbn [fst snd]. split; [split; auto|]. split; [auto | discriminate]. }
  destruct (truthy_spec (trim content)) as [Ht1 Ht2].
  destruct (truthy (trim content)) eqn:Hne; cbn [negb].
  2:{ cbn [fst snd]. split; [|split; [auto | discriminate]].
      split; [|auto]. intros _. right. exists content. split; [reflexivity|].
      unfold truthy in Hne. apply negb_false_iff in Hne.
      now apply String.eqb_eq in Hne. }
  assert (Hnot : ~ (Some content = None \/
                    exists c, Some content = Some c /\ trim c = EmptyString)).
  { intros [Hx|(c & Hc & Hx)]; [discriminate|]. injection Hc as <-.
    destruct (Ht1 eq_refl Hx). }
  destruct (startsWith "http://" (trim content)) eqn:Hh; cbn [orb].
  { cbn [fst snd Multi.url Multi.type Multi.enabled Multi.maxRetries].
    split; [split; [discriminate | tauto]|]. split; [discriminate|]. intros _.
    destruct (startsWith_append _ _ Hh) as [rest Hrest].
    rewrite Hh. split; [reflexivity|].
    split; [split; [discriminate | rewrite Hrest; discriminate]|].
    split; [split; [discriminate | rewrite Hrest; discriminate]|].
    split; [exists content; auto | auto]. }
  destruct (startsWith "https://" (trim content)) eqn:Hs.
  { cbn [fst snd Multi.url Multi.type Multi.enabled Multi.maxRetries].
    split; [split; [discriminate | tauto]|]. split; [discriminate|]. intros _.
    destruct (startsWith_append _ _ Hs) as [rest Hrest].
    rewrite Hh, Hs. split; [reflexivity|].
    split; [split; [discriminate | rewrite Hrest; discriminate]|].
    split; [split; [discriminate | rewrite Hrest; discriminate]|].
    split; [exists content; auto | auto]. }
  destruct (startsWith "socks4://" (trim content)) eqn:H4.
  { cbn [fst snd Multi.url Multi.type Multi.enabled Multi.maxRetries].
    split; [split; [discriminate | tauto]|]. split; [discriminate|]. intros _.
    destruct (startsWith_append _ _ H4) as [rest Hrest].
    rewrite Hh, Hs, H4. split; [reflexivity|].
    split; [tauto|].
    split; [split; [discriminate | rewrite Hrest; discriminate]|].
    split; [exists content; auto | auto]. }
  destruct (startsWith "socks5://" (trim content)) eqn:H5.
  { cbn [fst snd Multi.url Multi.type Multi.enabled Multi.maxRetries].
    split; [split; [discriminate | tauto]|]. split; [discriminate|]. intros _.
    rewrite Hh, Hs, H4, H5. split; [reflexivity|].
    split; [split; [discriminate | congruence]|].
    split; [tauto|]. split; [exists content; auto | auto]. }
  cbn [fst snd Multi.url Multi.type Multi.enabled Multi.maxRetries].
  split; [split; [discriminate | tauto]|]. split; [discriminate|]. intros _.
  rewrite (startsWith_own "http://" (trim content)). split; [reflexivity|].
  split; [split; discriminate|]. split; [split; discriminate|].
  split; [exists content; auto | auto].
Qed.

(** ** A dead proxy in the multi-account client *)

Lemma goes_on_refl (P : action -> Prop) (w : world) : goes_on P w w.
Proof. exists []. split; [now rewrite app_nil_r | constructor]. Qed.

Lemma goes_on_more (P : action -> Prop) (base w w' : world) (ext : list action) :
  goes_on P base w -> trace w' = trace w ++ ext -> Forall P ext -> goes_on P base w'.
Proof.
  intros (ext0 & Ht & Hf) Hw Hext. exists (ext0 ++ ext). split.
  - now rewrite Hw, Ht, <- app_assoc.
  - apply Forall_app. now split.
Qed.

Lemma goes_on_logged {A} (P : action -> Prop) (base w : world) (line : string) (a : A) :
  goes_on P base w -> goes_on P base (snd ((do! log_error line in ret a) w)).
Proof. intros (ext & Ht & Hf). exists ext. split; [exact Ht | exact Hf]. Qed.

Section Onward.

Variable P : action -> Prop.
Variable base : world.

Lemma onward_get : keeps (goes_on P base) (fun _ => True) get.
Proof. intros w Hw. split; [exact Hw | auto]. Qed.

Lemma onward_log_error (line : string) :
  keeps (goes_on P base) (fun _ => True) (log_error line).
Proof. intros w Hw. split; [exact Hw | auto]. Qed.

Lemma onward_log_errors (lines : list string) :
  keeps (goes_on P base) (fun _ => True) (log_errors lines).
Proof. intros w Hw. split; [exact Hw | auto]. Qed.

Lemma onward_emit (a : action) : P a -> keeps (goes_on P base) (fun _ => True) (emit a).
Proof.
  intros Ha w Hw. split; [|auto].
  apply (goes_on_more P base w _ [a] Hw); [reflexivity | now constructor].
Qed.

Lemma onward_fetch {A} (request : action) (answer : fetched A) :
  P request -> keeps (goes_on P base) (fun _ => True) (fetch request answer).
Proof.
  intros Hr. unfold fetch. eapply keeps_bind; [now apply onward_emit|].
  intros _ _. destruct answer; [apply keeps_throw | apply keeps_ret].
Qed.

Lemma onward_json {A} (body : option A) :
  keeps (goes_on P base) (fun _ => True) (json body).
Proof. destruct body; [apply keeps_ret | apply keeps_throw]. Qed.

End Onward.

Ltac onward_steps :=
  repeat match goal with
  | |- forall _, _ => intros
  | |- keeps _ _ (ret _) => apply keeps_ret
  | |- keeps _ _ (throw _) => apply keeps_throw
  | |- keeps _ _ (halted _) => apply keeps_halted
  | |- keeps _ _ (json _) => apply onward_json
  | |- keeps _ _ (log_error _) => apply onward_log_error
  | |- keeps _ _ (log_errors _) => apply onward_log_errors
  | |- keeps _ _ get => apply onward_get
  | |- keeps _ _ (emit _) => apply onward_emit; simpl; try assumption
  | |- keeps _ _ (fetch _ _) => apply onward_fetch; simpl; try assumption
  | |- keeps _ _ (bind _ _) => eapply keeps_bind
  | |- keeps _ _ (try_catch _ _) => apply keeps_try_catch
  | H : keeps _ _ ?c |- keeps _ _ ?c => exact H
  | |- context [match ?x with _ => _ end] => destruct x
  end.

Section SharedDirect.

Variable E : env.
Variable proxy_enabled : bool.
Variable getProxyAgent : M (option agent).
Variable base : world.
Hypothesis acquire_none :
  keeps (goes_on unproxied base) (fun a => a = None) getProxyAgent.

Lemma checkToken_direct (token : string) :
  keeps (goes_on unproxied base) (fun _ => True) (checkToken E getProxyAgent token).
Proof. unfold checkToken. onward_steps. Qed.

Lemma displayAccountInfo_direct (token : string) :
  keeps (goes_on unproxied base) (fun _ => True)
        (displayAccountInfo E getProxyAgent token).
Proof. unfold displayAccountInfo. onward_steps. Qed.

Lemma reportResults_direct (token : string) (sample : SpeedSample) (location : GeoPoint) :
  keeps (goes_on unproxied base) (fun _ => True)
        (reportResults E getProxyAgent token sample location).
Proof. unfold reportResults. onward_steps. Qed.

Lemma performSpeedTest_direct :
  keeps (goes_on unproxied base) (fun _ => True)
        (performSpeedTest E proxy_enabled getProxyAgent).
Proof.
  unfold performSpeedTest, speedTest, download, upload, open_socket.
  onward_steps; solve [assumption | reflexivity].
Qed.

End SharedDirect.

Section MultiDirect.

Variable cfg : Multi.config.
Variable E : env.

Local Abbreviation the_agent := (agent_for (Multi.type cfg) (Multi.url cfg)).
Local Abbreviation acquire := (Multi.getProxyAgent cfg E (Multi.maxRetries cfg)).
Local Abbreviation checks :=
  (flat_map (fun i => [Probe the_agent; Sleep (1000 * (Z.of_nat i + 1))])
            (seq 0 (Multi.maxRetries cfg))).

Hypothesis enabled : Multi.enabled cfg = true.
Hypothesis has_url : Multi.url cfg <> EmptyString.
Hypothesis builds : new_agent E the_agent = None.
Hypothesis dead : forall n, ok_answer (testUrl_response E n) = false.

Lemma multi_acquire_dead (w : world) :
  acquire w
  = (Ret None,
     {| currentIndex := currentIndex w; chosen := chosen w;
        trace := trace w ++ checks; errors := errors w |}).
Proof.
  unfold Multi.getProxyAgent. rewrite enabled. simpl.
  now apply multi_loop_dead.
Qed.

Lemma checks_unproxied : Forall unproxied checks.
Proof.
  apply List.Forall_forall. intros a Ha. apply in_flat_map in Ha.
  destruct Ha as (i & _ & [<-|[<-|[]]]); exact I.
Qed.

Lemma multi_acquire_direct (base : world) :
  keeps (goes_on unproxied base) (fun a => a = None) acquire.
Proof.
  intros w Hw. rewrite multi_acquire_dead. simpl. split.
  - apply (goes_on_more unproxied base w _ checks Hw); [reflexivity|].
    apply checks_unproxied.
  - intros a Ha. now inversion Ha.
Qed.

Lemma multi_validateToken_direct (base : world) (token : string) :
  keeps (goes_on unproxied base) (fun _ => True) (Multi.validateToken cfg E token).
Proof.
  unfold Multi.validateToken. destruct (String.eqb _ _); [apply keeps_throw|].
  apply keeps_try_catch.
  - eapply keeps_bind; [apply checkToken_direct, multi_acquire_direct|].
    intros; apply keeps_ret.
  - onward_steps.
Qed.

Lemma multi_rest_direct (base : world) (token : string) (number : string) :
  keeps (goes_on unproxied base) (fun _ => True)
    (do! displayAccountInfo E acquire token in
     let location := generateRandomLocation (Math_random E 0) (Math_random E 1) in
     let! sample := performSpeedTest E (Multi.enabled cfg) acquire in
     let! result := reportResults E acquire token sample location in
     match result with
     | Some data =>
         if success data then ret true
         else
           do! log_error "Failed to report results" in
           match message data with
           | Some EmptyString | None => ret false
           | Some reason => do! log_error ("Failure reason: " ++ reason) in ret false
           end
     | None => do! log_error "Failed to report results" in ret false
     end).
Proof.
  pose proof (multi_acquire_direct base) as Hacquire. cbv zeta.
  eapply keeps_bind; [now apply displayAccountInfo_direct|]. intros _ _.
  eapply keeps_bind; [now apply performSpeedTest_direct|]. intros sample _.
  eapply keeps_bind; [now apply reportResults_direct|]. intros result _.
  destruct result as [data|]; [|onward_steps].
  destruct (success data); [apply keeps_any with (Q := fun _ => True), keeps_ret|].
  onward_steps.
Qed.

Lemma multi_processAccount_direct (base : world) (token : string) (accountIndex : nat) :
  keeps (goes_on unproxied base) (fun _ => True)
        (Multi.processAccount cfg E token accountIndex).
Proof.
  unfold Multi.processAccount. cbv zeta.
  apply keeps_try_catch; [|onward_steps].
  eapply keeps_bind; [apply multi_validateToken_direct|]. intros [|] _; cbn [negb].
  - apply multi_rest_direct. exact EmptyString.
  - onward_steps.
Qed.

Lemma multi_after_validation (token : string) (accountIndex : nat) (w : world) :
  goes_on unproxied (snd (Multi.validateToken cfg E token w))
          (snd (Multi.processAccount cfg E token accountIndex w)).
Proof.
  unfold Multi.processAccount. cbv zeta. unfold try_catch at 1. unfold bind at 1.
  destruct (Multi.validateToken cfg E token w) as [[[|]|reason|h] w1]; cbn [negb snd].
  - pose proof (multi_rest_direct w1 token EmptyString w1 (goes_on_refl _ _)) as [Hk _].
    cbv zeta in Hk.
    destruct (bind (displayAccountInfo E acquire token) _ w1) as [[b|reason|h] w2];
      [exact Hk | now apply goes_on_logged | exact Hk].
  - apply goes_on_logged, goes_on_refl.
  - apply goes_on_logged, goes_on_refl.
  - apply goes_on_refl.
Qed.

Lemma multi_validation_asks_directly (token : string) (tokenData : claims) (w : world) :
  token <> EmptyString ->
  JSON_parse_atob E token = inr tokenData ->
  expired E tokenData = false ->
  trace (snd (Multi.validateToken cfg E token w))
  = trace w ++ checks ++ [GetProfile None].
Proof.
  intros Htoken Hdecode Hfresh. unfold Multi.validateToken.
  destruct (String.eqb_spec token EmptyString) as [Heq|_]; [contradiction|].
  unfold try_catch at 1. unfold bind at 1. unfold checkToken.
  rewrite Hdecode. unfold bind at 1. unfold ret at 1. rewrite Hfresh.
  unfold bind at 1. unfold ret at 1. unfold bind at 1.
  rewrite multi_acquire_dead. step.
  destruct (profile_response E _) as [m|[|] status body]; simpl;
    now rewrite <- app_assoc.
Qed.

End MultiDirect.

(** X19.  In the multi-account client a proxy that is switched on but
    never answers the liveness request does not stop the cycle: every
    acquisition gives up, and [processAccount] then sends everything it
    sends without a proxy, from the account's own address.  For a token
    that decodes and has not expired the profile request of the validation
    is such a request. *)
Theorem dead_proxy_means_direct_requests
    (cfg : Multi.config) (E : env) (token : string) (accountIndex : nat) (w : world) :
  Multi.enabled cfg = true ->
  Multi.url cfg <> EmptyString ->
  new_agent E (agent_for (Multi.type cfg) (Multi.url cfg)) = None ->
  (forall n, ok_answer (testUrl_response E n) = false) ->
  exists ext,
    trace (snd (Multi.processAccount cfg E token accountIndex w)) = trace w ++ ext /\
    Forall unproxied ext /\
    (forall tokenData,
       token <> EmptyString ->
       JSON_parse_atob E token = inr tokenData ->
       expired E tokenData = false ->
       In (GetProfile None) ext).
Proof.
  intros Hen Hurl Hbuilds Hdead.
  destruct (multi_processAccount_direct cfg E Hen Hurl Hbuilds Hdead w token accountIndex
              w (goes_on_refl _ _)) as [(ext & Ht & Hf) _].
  exists ext. split; [exact Ht|]. split; [exact Hf|].
  intros tokenData Htoken Hdecode Hfresh.
  destruct (multi_after_validation cfg E Hen Hurl Hbuilds Hdead token accountIndex w)
    as (ext' & Ht' & _).
  rewrite (multi_validation_asks_directly cfg E Hen Hurl Hbuilds Hdead
             token tokenData w Htoken Hdecode Hfresh) in Ht'.
  rewrite Ht in Ht'. rewrite <- !app_assoc in Ht'. apply app_inv_head in Ht'.
  rewrite Ht'. apply in_or_app. right. apply in_or_app. left. now left.
Qed.

Lemma dead_proxy_means_direct_requests_witness :
  exists ext,
    trace (snd (Multi.processAccount one_proxy upload_drops "header.payload.signature" 0
                  (fresh 0))) = ext /\
    Forall unproxied ext /\ In (GetProfile None) ext.
Proof.
  destruct (dead_proxy_means_direct_requests one_proxy upload_drops
              "header.payload.signature" 0 (fresh 0))
    as (ext & Ht & Hf & Hin);
    [reflexivity | discriminate | reflexivity | reflexivity |].
  exists ext. split; [exact Ht|]. split; [exact Hf|].
  apply (Hin {| exp := Some 1700003600 |}); [discriminate | reflexivity | reflexivity].
Defined.

(** ** What a successful cycle has done *)

Lemma try_catch_inv {A} (c : M A) (handler : string -> M A) (w w' : world) (a : A) :
  try_catch c handler w = (Ret a, w') ->
  c w = (Ret a, w') \/
  exists reason w1, c w = (Throw reason, w1) /\ handler reason w1 = (Ret a, w').
Proof.
  unfold try_catch. destruct (c w) as [[b|reason|h] w1]; intros H; try discriminate.
  - now left.
  - right. now exists reason, w1.
Qed.

Lemma reportResults_accepted
    (E : env) (getProxyAgent : M (option agent)) (token : string)
    (sample : SpeedSample) (location : GeoPoint) (w w' : world) (data : points_body) :
  reportResults E getProxyAgent token sample location w = (Ret (Some data), w') ->
  exists via w1 status,
    getProxyAgent w = (Ret via, w1) /\
    trace w' = trace w1 ++ [PostPoints (payload sample location) via] /\
    points_response E = Response true status (Some data) /\
    success data = true.
Proof.
  unfold reportResults. intros H.
  apply try_catch_inv in H. destruct H as [H|(reason & w1 & _ & H)]; [|discriminate].
  apply bind_inv in H. destruct H as (via & w1 & Hacq & H).
  apply bind_inv in H. destruct H as ([[ok status] body] & w2 & Hfetch & H).
  unfold fetch in Hfetch. apply bind_inv in Hfetch.
  destruct Hfetch as ([] & w3 & Hemit & Hanswer).
  inversion Hemit; subst w3. clear Hemit.
  destruct (points_response E) as [m|ok' status' body'] eqn:Hpoints; [discriminate|].
  inversion Hanswer; subst. clear Hanswer.
  destruct ok; [|discriminate]. cbn [negb] in H.
  apply bind_inv in H. destruct H as (data' & w4 & Hjson & H).
  destruct body as [parsed|]; [|discriminate]. inversion Hjson; subst. clear Hjson.
  destruct (success data') eqn:Hs; [|discriminate]. inversion H; subst.
  exists via, w1, status. repeat split; auto.
Qed.

(** X20.  [processAccount] returns [true] only at the end of a cycle that
    did everything: the validation of the token returned [true], and the
    last thing the function did was to post the report, with the two speeds
    rounded to two decimals and the location generated for this cycle,
    which the service answered with a success status and a body whose
    [success] flag is true. *)
Theorem success_means_report_accepted
    (cfg : Multi.config) (E : env) (token : string) (accountIndex : nat) (w : world) :
  fst (Multi.processAccount cfg E token accountIndex w) = Ret true ->
  exists before via sample data status,
    trace (snd (Multi.processAccount cfg E token accountIndex w))
    = before ++
      [PostPoints (payload sample (generateRandomLocation (Math_random E 0)
                                                          (Math_random E 1))) via] /\
    points_response E = Response true status (Some data) /\
    success data = true /\
    fst (Multi.validateToken cfg E token w) = Ret true.
Proof.
  intros Hret.
  destruct (Multi.processAccount cfg E token accountIndex w) as [o w'] eqn:Hrun.
  simpl in Hret. subst o. cbn [snd].
  unfold Multi.processAccount in Hrun. cbv zeta in Hrun.
  apply try_catch_inv in Hrun.
  destruct Hrun as [H|(reason & w1 & _ & H)]; [|discriminate].
  apply bind_inv in H. destruct H as (isValid & w1 & Hvalid & H).
  destruct isValid; cbn [negb] in H; [|discriminate].
  apply bind_inv in H. destruct H as ([] & w2 & _ & H).
  apply bind_inv in H. destruct H as (sample & w3 & _ & H).
  apply bind_inv in H. destruct H as (result & w4 & Hreport & H).
  destruct result as [data|]; [|discriminate].
  destruct (success data) eqn:Hs.
  2:{ destruct (message data) as [[|c reason]|]; discriminate. }
  inversion H; subst w4.
  apply reportResults_accepted in Hreport.
  destruct Hreport as (via & w5 & status & _ & Htrace & Hpoints & _).
  exists (trace w5), via, sample, data, status.
  rewrite Hvalid. auto.
Qed.

Lemma success_means_report_accepted_witness :
  exists before via sample data status,
    trace (snd (Multi.processAccount direct upload_drops "header.payload.signature" 0
                  (fresh 0)))
    = before ++
      [PostPoints (payload sample (generateRandomLocation (1 # 2) (1 # 2))) via] /\
    points_response upload_drops = Response true status (Some data) /\
    success data = true /\
    fst (Multi.validateToken direct upload_drops "header.payload.signature" (fresh 0))
    = Ret true.
Proof.
  apply (success_means_report_accepted direct upload_drops "header.payload.signature" 0
           (fresh 0)).
  reflexivity.
Defined.
